(** * Poly-Arb-Bot: position ledger, PnL aggregator and activity collector

    A shallow embedding of the reconstruction and ingestion code of
    [src/server.ts] (with the dashboard copies in [dashboard/src/App.tsx]):
    [computePositionHistory], [computePositionSummary], [getActivityNetDelta],
    [computeLifetimeAnalytics], [fetchActivityByUserWithRange] and the
    [seenIds] filter of the dashboard loops.

    Modelling conventions.
    - A JavaScript [number] is an exact rational ([Q]): the arithmetic of the
      source is kept operation by operation, without rounding, and the
      non-finite values (NaN, the infinities) are left out.  Numbers are
      compared up to [Qeq] ([==]).  Counts, offsets and limits are [nat].
      The Sharpe lines of the aggregator are the exception: there the
      rounding of the double arithmetic decides between null and a number,
      and it is a parameter applied after every operation.
    - A loosely typed numeric field ([number | string | null | undefined]) is a
      [JsNumeric]; a string field carries the result of [parseFloat].
    - An optional string field is a [string]; the empty string stands for
      every falsy value ([undefined], [null], the empty string).  Case
      conversion and trimming act on the ASCII letters and blanks.
    - A [Map<string, _>] is an association list in insertion order, as the
      iteration order of a JavaScript [Map]; a [Set<string>] is a list.
    - [Math.sqrt], the date text of [toISOString], the sign of
      [localeCompare], the upstream feed and the text of a number are
      parameters of the definitions that use them; the worked examples run on
      stand-ins.
    - The [while] loop of the collector runs on fuel; it is shown to return
      with a fuel bounded by its event cap. *)

From Stdlib Require Import QArith Qminmax Qabs Qround ZArith List String Ascii Bool Lia Lqa Permutation Sorted DecimalString.
Import ListNotations.

Local Open Scope Q_scope.

(* ------------------------------------------------------------------ *)
(** ** JavaScript numbers and comparisons *)

Module Js.

(** [a > b], [a < b], [a <= b], [a >= b] as the source writes them. *)
Definition gtb (a b : Q) : bool := negb (Qle_bool a b).
Definition ltb (a b : Q) : bool := negb (Qle_bool b a).
Definition leb (a b : Q) : bool := Qle_bool a b.
Definition geb (a b : Q) : bool := Qle_bool b a.

(** Truthiness of a number: [!x] holds exactly for zero. *)
Definition truthy (a : Q) : bool := negb (Qeq_bool a 0).

(** A field typed [number | string | null | undefined]. *)
Inductive JsNumeric : Type :=
| JNullish
| JNumber (q : Q)
| JText (parsed : option Q).

(** [a ?? b] *)
Definition nullish (a b : JsNumeric) : JsNumeric :=
  match a with
  | JNullish => b
  | _ => a
  end.

(** [a || b] on strings. *)
Definition orStr (a b : string) : string :=
  match a with
  | EmptyString => b
  | _ => a
  end.

Definition isEmpty (a : string) : bool :=
  match a with
  | EmptyString => true
  | _ => false
  end.

Definition lowerAscii (c : ascii) : ascii :=
  let n := nat_of_ascii c in
  if (Nat.leb 65 n && Nat.leb n 90)%bool then ascii_of_nat (n + 32) else c.

Definition upperAscii (c : ascii) : ascii :=
  let n := nat_of_ascii c in
  if (Nat.leb 97 n && Nat.leb n 122)%bool then ascii_of_nat (n - 32) else c.

Fixpoint mapStr (f : ascii -> ascii) (s : string) : string :=
  match s with
  | EmptyString => EmptyString
  | String c r => String (f c) (mapStr f r)
  end.

Definition toLowerCase : string -> string := mapStr lowerAscii.
Definition toUpperCase : string -> string := mapStr upperAscii.

(** [hay.includes(needle)] *)
Fixpoint includes (needle hay : string) : bool :=
  if String.prefix needle hay then true
  else match hay with
       | EmptyString => false
       | String _ r => includes needle r
       end.

Lemma gtb_true (a b : Q) : gtb a b = true <-> b < a.
Proof.
  unfold gtb. rewrite negb_true_iff, <- not_true_iff_false, Qle_bool_iff.
  split; [apply Qnot_le_lt | apply Qlt_not_le].
Qed.

Lemma gtb_false (a b : Q) : gtb a b = false <-> a <= b.
Proof.
  unfold gtb. rewrite negb_false_iff. apply Qle_bool_iff.
Qed.

Lemma ltb_true (a b : Q) : ltb a b = true <-> a < b.
Proof. apply (gtb_true b a). Qed.

Lemma ltb_false (a b : Q) : ltb a b = false <-> b <= a.
Proof. apply (gtb_false b a). Qed.

Lemma leb_true (a b : Q) : leb a b = true <-> a <= b.
Proof. apply Qle_bool_iff. Qed.

Lemma leb_false (a b : Q) : leb a b = false <-> b < a.
Proof.
  unfold leb. rewrite <- not_true_iff_false, Qle_bool_iff.
  split; [apply Qnot_le_lt | apply Qlt_not_le].
Qed.

Lemma truthy_true (a : Q) : truthy a = true <-> ~ a == 0.
Proof.
  unfold truthy. rewrite negb_true_iff, <- not_true_iff_false, Qeq_bool_iff.
  tauto.
Qed.

Lemma truthy_false (a : Q) : truthy a = false <-> a == 0.
Proof.
  unfold truthy. rewrite negb_false_iff. apply Qeq_bool_iff.
Qed.

End Js.

Import Js.

(** [parseNumber]: nullish and unparsable values degrade to zero. *)
Definition parseNumber (value : JsNumeric) : Q :=
  match value with
  | JNullish => 0
  | JNumber q => q
  | JText (Some q) => q
  | JText None => 0
  end.

(** [normalizeTimestampMs]: a value below 10^12 is taken as seconds. *)
Definition normalizeTimestampMs (timestamp : Q) : Q :=
  if ltb timestamp 1000000000000 then timestamp * 1000 else timestamp.

(* ------------------------------------------------------------------ *)
(** ** Trade records *)

Inductive Side : Type := Buy | Sell.

Record TradeActivity : Type := mkTrade {
  id : string;
  userAddress : string;
  title : string;
  slug : string;
  eventSlug : string;
  side : option string;
  outcome : string;
  asset : string;
  market : string;
  price : JsNumeric;
  size : JsNumeric;
  usdcSize : JsNumeric;
  timestamp : JsNumeric;
  transactionHash : string
}.

(** [normalizeSide]: only a (case-insensitive) [sell] is a sell. *)
Definition normalizeSide (s : option string) : Side :=
  match s with
  | Some str =>
      if (negb (isEmpty str) && String.eqb (toLowerCase str) "sell")%bool
      then Sell else Buy
  | None => Buy
  end.

(** [getPositionKey]: the asset id, else [label:outcome]. *)
Definition getPositionKey (trade : TradeActivity) : string :=
  if negb (isEmpty (asset trade)) then asset trade
  else
    let label :=
      orStr (slug trade) (orStr (title trade) (orStr (eventSlug trade) "unknown-market")) in
    let outc := orStr (outcome trade) "unknown-outcome" in
    (label ++ ":" ++ outc)%string.

(* ------------------------------------------------------------------ *)
(** ** Insertion-ordered maps and the stable sort of the replay *)

Section AssocMap.
Context {K V : Type}.
Variable keqb : K -> K -> bool.
Hypothesis keqb_eq : forall a b : K, keqb a b = true <-> a = b.

Fixpoint mapGet (k : K) (m : list (K * V)) : option V :=
  match m with
  | [] => None
  | (k', v) :: r => if keqb k k' then Some v else mapGet k r
  end.

(** [Map.set]: an existing key keeps its place, a new key goes last. *)
Fixpoint mapSet (k : K) (v : V) (m : list (K * V)) : list (K * V) :=
  match m with
  | [] => [(k, v)]
  | (k', v') :: r =>
      if keqb k k' then (k, v) :: r else (k', v') :: mapSet k v r
  end.

Definition mapValues (m : list (K * V)) : list V := map snd m.

Lemma keqb_refl (k : K) : keqb k k = true.
Proof. now apply keqb_eq. Qed.

Lemma mapGet_mapSet_same (k : K) (v : V) (m : list (K * V)) :
  mapGet k (mapSet k v m) = Some v.
Proof.
  induction m as [|[k' v'] r IH]; simpl.
  - now rewrite keqb_refl.
  - destruct (keqb k k') eqn:E; simpl.
    + now rewrite keqb_refl.
    + now rewrite E.
Qed.

Lemma mapSet_values_In (k : K) (v w : V) (m : list (K * V)) :
  In w (mapValues (mapSet k v m)) -> w = v \/ In w (mapValues m).
Proof.
  unfold mapValues. induction m as [|[k' v'] r IH]; simpl.
  - intros [H|[]]; auto.
  - destruct (keqb k k'); simpl.
    + intros [H|H]; auto.
    + intros [H|H]; auto. destruct (IH H); auto.
Qed.

Lemma mapGet_In_values (k : K) (v : V) (m : list (K * V)) :
  mapGet k m = Some v -> In v (mapValues m).
Proof.
  unfold mapValues. induction m as [|[k' v'] r IH]; simpl; [discriminate|].
  destruct (keqb k k').
  - intros [= ->]. now left.
  - intros H. right. auto.
Qed.

End AssocMap.

Section StableSort.
Context {A : Type} (key : A -> Q).

(** One insertion of [.sort((a, b) => a.timestamp - b.timestamp || a.index - b.index)]:
    the new element goes after every element whose key is not larger. *)
Fixpoint insertSorted (x : A) (l : list A) : list A :=
  match l with
  | [] => [x]
  | y :: r => if ltb (key x) (key y) then x :: y :: r else y :: insertSorted x r
  end.

Definition sortByKey (l : list A) : list A :=
  fold_left (fun acc x => insertSorted x acc) l [].

Lemma insertSorted_perm (x : A) (l : list A) : Permutation (x :: l) (insertSorted x l).
Proof.
  induction l as [|y r IH]; simpl; [reflexivity|].
  destruct (ltb (key x) (key y)); [reflexivity|].
  rewrite perm_swap. now constructor.
Qed.

Lemma sortByKey_perm (l : list A) : Permutation l (sortByKey l).
Proof.
  unfold sortByKey.
  assert (G : forall acc, Permutation (acc ++ l) (fold_left (fun acc x => insertSorted x acc) l acc)).
  { induction l as [|x r IH]; intros acc; simpl.
    - now rewrite app_nil_r.
    - rewrite <- IH, <- insertSorted_perm. simpl.
      symmetry. apply Permutation_middle. }
  apply (G []).
Qed.

End StableSort.

Definition sortTrades (trades : list TradeActivity) : list TradeActivity :=
  sortByKey (fun t => normalizeTimestampMs (parseNumber (timestamp t))) trades.

(* ------------------------------------------------------------------ *)
(** ** Position ledger: [computePositionHistory] *)

Inductive Status : Type := OPEN | CLOSED.

(** The value kept per instrument key by [computePositionHistory]. *)
Record PositionState : Type := mkPositionState {
  ps_size : Q;
  ps_costBasisUsd : Q;
  ps_avgPrice : Q;
  ps_realizedPnl : Q;
  ps_asset : string;
  ps_market : string;
  ps_slug : string;
  ps_outcome : string
}.

Record PositionHistoryEntry : Type := mkHistoryEntry {
  he_key : string;
  he_asset : string;
  he_market : string;
  he_slug : string;
  he_outcome : string;
  he_side : Side;
  he_tradePrice : Q;
  he_tradeSize : Q;
  he_tradeUsdc : Q;
  he_timestamp : Q;
  positionSize : Q;
  positionCostBasis : Q;
  positionAvgPrice : Q;
  realizedPnl : Q;
  cumulativeRealizedPnl : Q;
  he_status : Status
}.

(** The size, price and notional of a trade, each derived from the two
    others when missing:
    [if (!tradeSize && tradePrice > 0 && tradeUsdc > 0) tradeSize = tradeUsdc / tradePrice]
    [if (!tradePrice && tradeSize > 0 && tradeUsdc > 0) tradePrice = tradeUsdc / tradeSize]. *)
Definition tradeUsdcOf (trade : TradeActivity) : Q := parseNumber (usdcSize trade).

Definition tradeSizeOf (trade : TradeActivity) : Q :=
  let tradePrice := parseNumber (price trade) in
  let tradeUsdc := tradeUsdcOf trade in
  let tradeSize := parseNumber (size trade) in
  if (negb (truthy tradeSize) && gtb tradePrice 0 && gtb tradeUsdc 0)%bool
  then tradeUsdc / tradePrice else tradeSize.

Definition tradePriceOf (trade : TradeActivity) : Q :=
  let tradePrice := parseNumber (price trade) in
  let tradeUsdc := tradeUsdcOf trade in
  let tradeSize := tradeSizeOf trade in
  if (negb (truthy tradePrice) && gtb tradeSize 0 && gtb tradeUsdc 0)%bool
  then tradeUsdc / tradeSize else tradePrice.

(** [positions.get(key) || { size: 0, costBasisUsd: 0, ... }] *)
Definition historyExisting (positions : list (string * PositionState))
    (trade : TradeActivity) : PositionState :=
  match mapGet String.eqb (getPositionKey trade) positions with
  | Some st => st
  | None =>
      {| ps_size := 0; ps_costBasisUsd := 0; ps_avgPrice := 0; ps_realizedPnl := 0;
         ps_asset := asset trade;
         ps_market := orStr (title trade) (orStr (market trade) (orStr (slug trade) (eventSlug trade)));
         ps_slug := orStr (slug trade) (eventSlug trade);
         ps_outcome := outcome trade |}
  end.

(** The body of the replay loop of [computePositionHistory] for one trade:
    the history entry pushed for it. *)
Definition historyEntry (existing : PositionState) (trade : TradeActivity)
    : PositionHistoryEntry :=
  let side := normalizeSide (side trade) in
  let tradePrice := tradePriceOf trade in
  let tradeUsdc := tradeUsdcOf trade in
  let tradeSize := tradeSizeOf trade in
  let matched :=
    match side with
    | Sell => (gtb tradeSize 0 && gtb (ps_size existing) 0)%bool
    | Buy => false
    end in
  let avgCost := ps_costBasisUsd existing / ps_size existing in
  let realizedDelta := if matched then tradeUsdc - avgCost * tradeSize else 0 in
  let nextSize0 :=
    match side with
    | Sell => if matched then ps_size existing - tradeSize else ps_size existing
    | Buy => ps_size existing + tradeSize
    end in
  let nextCostBasis0 :=
    match side with
    | Sell => if matched then ps_costBasisUsd existing - avgCost * tradeSize
              else ps_costBasisUsd existing
    | Buy => ps_costBasisUsd existing + tradeUsdc
    end in
  let clamp := leb nextSize0 0 in
  let nextSize := if clamp then 0 else nextSize0 in
  let nextCostBasis := if clamp then 0 else nextCostBasis0 in
  let nextAvgPrice := if truthy nextSize then Qabs (nextCostBasis / nextSize) else 0 in
  let nextRealized := ps_realizedPnl existing + realizedDelta in
  {| he_key := getPositionKey trade;
     he_asset := orStr (ps_asset existing) (asset trade);
     he_market := orStr (ps_market existing)
                    (orStr (title trade) (orStr (market trade) (orStr (slug trade) (eventSlug trade))));
     he_slug := orStr (ps_slug existing) (orStr (slug trade) (eventSlug trade));
     he_outcome := orStr (ps_outcome existing) (outcome trade);
     he_side := side;
     he_tradePrice := tradePrice;
     he_tradeSize := tradeSize;
     he_tradeUsdc := tradeUsdc;
     he_timestamp := parseNumber (timestamp trade);
     positionSize := nextSize;
     positionCostBasis := nextCostBasis;
     positionAvgPrice := nextAvgPrice;
     realizedPnl := realizedDelta;
     cumulativeRealizedPnl := nextRealized;
     he_status := if truthy nextSize then OPEN else CLOSED |}.

(** The state stored back with [positions.set(key, ...)]. *)
Definition historyNext (e : PositionHistoryEntry) : PositionState :=
  {| ps_size := positionSize e;
     ps_costBasisUsd := positionCostBasis e;
     ps_avgPrice := positionAvgPrice e;
     ps_realizedPnl := cumulativeRealizedPnl e;
     ps_asset := he_asset e;
     ps_market := he_market e;
     ps_slug := he_slug e;
     ps_outcome := he_outcome e |}.

Definition historyStep (acc : list (string * PositionState) * list PositionHistoryEntry)
    (trade : TradeActivity) : list (string * PositionState) * list PositionHistoryEntry :=
  let '(positions, history) := acc in
  let e := historyEntry (historyExisting positions trade) trade in
  (mapSet String.eqb (he_key e) (historyNext e) positions, history ++ [e]).

Definition replayHistory (trades : list TradeActivity)
    : list (string * PositionState) * list PositionHistoryEntry :=
  fold_left historyStep (sortTrades trades) ([], []).

Definition computePositionHistory (trades : list TradeActivity) : list PositionHistoryEntry :=
  snd (replayHistory trades).

(* ------------------------------------------------------------------ *)
(** ** Position ledger: [computePositionSummary] *)

Record SummaryState : Type := mkSummaryState {
  ss_key : string;
  ss_asset : string;
  ss_market : string;
  ss_slug : string;
  ss_outcome : string;
  buySize : Q;
  buyCost : Q;
  sellSize : Q;
  sellProceeds : Q;
  openSize : Q;
  costBasisUsd : Q;
  ss_realizedPnl : Q;
  lastPrice : option Q;
  lastTradeAt : option Q
}.

Record PositionSummaryEntry : Type := mkSummaryEntry {
  se_key : string;
  se_buySize : Q;
  se_buyCost : Q;
  se_avgEntry : Q;
  se_sellSize : Q;
  se_sellProceeds : Q;
  se_avgExit : Q;
  se_realizedPnl : Q;
  se_unrealizedPnl : option Q;
  se_totalPnl : Q;
  se_openSize : Q;
  se_lastPrice : option Q;
  se_lastTradeAt : option Q;
  se_status : Status
}.

Definition summaryExisting (positions : list (string * SummaryState))
    (trade : TradeActivity) : SummaryState :=
  match mapGet String.eqb (getPositionKey trade) positions with
  | Some st => st
  | None =>
      {| ss_key := getPositionKey trade;
         ss_asset := asset trade;
         ss_market := orStr (title trade) (orStr (market trade) (orStr (slug trade) (eventSlug trade)));
         ss_slug := orStr (slug trade) (eventSlug trade);
         ss_outcome := outcome trade;
         buySize := 0; buyCost := 0; sellSize := 0; sellProceeds := 0;
         openSize := 0; costBasisUsd := 0; ss_realizedPnl := 0;
         lastPrice := None; lastTradeAt := None |}
  end.

(** The body of the replay loop of [computePositionSummary] for one trade:
    the record written back under the trade's key. *)
Definition summaryApply (existing : SummaryState) (trade : TradeActivity) : SummaryState :=
  let side := normalizeSide (side trade) in
  let tradePrice := tradePriceOf trade in
  let tradeUsdc := tradeUsdcOf trade in
  let tradeSize := tradeSizeOf trade in
  let lastPrice1 := if gtb tradePrice 0 then Some tradePrice else lastPrice existing in
  let ts := parseNumber (timestamp trade) in
  let lastTradeAt1 := if gtb ts 0 then Some ts else lastTradeAt existing in
  match side with
  | Buy =>
      {| ss_key := ss_key existing; ss_asset := ss_asset existing;
         ss_market := ss_market existing; ss_slug := ss_slug existing;
         ss_outcome := ss_outcome existing;
         buySize := buySize existing + tradeSize;
         buyCost := buyCost existing + tradeUsdc;
         sellSize := sellSize existing;
         sellProceeds := sellProceeds existing;
         openSize := openSize existing + tradeSize;
         costBasisUsd := costBasisUsd existing + tradeUsdc;
         ss_realizedPnl := ss_realizedPnl existing;
         lastPrice := lastPrice1; lastTradeAt := lastTradeAt1 |}
  | Sell =>
      let matched := (gtb (openSize existing) 0 && gtb tradeSize 0)%bool in
      let avgCost := costBasisUsd existing / openSize existing in
      let openSize1 := if matched then openSize existing - tradeSize else openSize existing in
      let costBasis1 :=
        if matched then costBasisUsd existing - avgCost * tradeSize else costBasisUsd existing in
      let clamp := (matched && leb openSize1 0)%bool in
      {| ss_key := ss_key existing; ss_asset := ss_asset existing;
         ss_market := ss_market existing; ss_slug := ss_slug existing;
         ss_outcome := ss_outcome existing;
         buySize := buySize existing;
         buyCost := buyCost existing;
         sellSize := sellSize existing + tradeSize;
         sellProceeds := sellProceeds existing + tradeUsdc;
         openSize := if clamp then 0 else openSize1;
         costBasisUsd := if clamp then 0 else costBasis1;
         ss_realizedPnl :=
           if matched then ss_realizedPnl existing + (tradeUsdc - avgCost * tradeSize)
           else ss_realizedPnl existing;
         lastPrice := lastPrice1; lastTradeAt := lastTradeAt1 |}
  end.

Definition summaryStep (positions : list (string * SummaryState)) (trade : TradeActivity)
    : list (string * SummaryState) :=
  mapSet String.eqb (getPositionKey trade) (summaryApply (summaryExisting positions trade) trade) positions.

Definition replaySummary (trades : list TradeActivity) : list (string * SummaryState) :=
  fold_left summaryStep (sortTrades trades) [].

Definition summaryEntry (pos : SummaryState) : PositionSummaryEntry :=
  let avgEntry := if gtb (buySize pos) 0 then buyCost pos / buySize pos else 0 in
  let avgExit := if gtb (sellSize pos) 0 then sellProceeds pos / sellSize pos else 0 in
  let unrealized :=
    match lastPrice pos with
    | Some lp =>
        if (gtb (openSize pos) 0 && truthy lp)%bool
        then Some (lp * openSize pos - costBasisUsd pos) else None
    | None => None
    end in
  {| se_key := ss_key pos;
     se_buySize := buySize pos;
     se_buyCost := buyCost pos;
     se_avgEntry := avgEntry;
     se_sellSize := sellSize pos;
     se_sellProceeds := sellProceeds pos;
     se_avgExit := avgExit;
     se_realizedPnl := ss_realizedPnl pos;
     se_unrealizedPnl := unrealized;
     se_totalPnl := ss_realizedPnl pos + match unrealized with Some u => u | None => 0 end;
     se_openSize := openSize pos;
     se_lastPrice := lastPrice pos;
     se_lastTradeAt := lastTradeAt pos;
     se_status := if gtb (openSize pos) 0 then OPEN else CLOSED |}.

Definition computePositionSummary (trades : list TradeActivity) : list PositionSummaryEntry :=
  map summaryEntry (mapValues (replaySummary trades)).

(** Sample trades on one instrument. *)
Definition sampleTrade (sd : string) (sz usdc ts : Q) : TradeActivity :=
  {| id := "t"; userAddress := "0xabc"; title := "Market"; slug := "market";
     eventSlug := EmptyString; side := Some sd; outcome := "Yes"; asset := "A";
     market := EmptyString; price := JNullish; size := JNumber sz;
     usdcSize := JNumber usdc; timestamp := JNumber ts;
     transactionHash := EmptyString |}.

(* ------------------------------------------------------------------ *)
(** ** The replay, event by event *)

Lemma fold_left_snoc {A B : Type} (f : A -> B -> A) (l : list B) (x : B) (a : A) :
  fold_left f (l ++ [x]) a = f (fold_left f l a) x.
Proof. now rewrite fold_left_app. Qed.

Lemma historyStep_length (l : list TradeActivity) acc :
  List.length (snd (fold_left historyStep l acc)) = (List.length (snd acc) + List.length l)%nat.
Proof.
  revert acc. induction l as [|t r IH]; intros [positions history]; simpl.
  - lia.
  - rewrite IH. simpl. rewrite List.length_app. simpl. lia.
Qed.

Lemma historyStep_prefix (l : list TradeActivity) acc :
  exists added, snd (fold_left historyStep l acc) = snd acc ++ added.
Proof.
  revert acc. induction l as [|t r IH]; intros [positions history]; simpl.
  - exists []. now rewrite app_nil_r.
  - destruct (IH (historyStep (positions, history) t)) as [added Ha].
    simpl in Ha. rewrite Ha. rewrite <- app_assoc. eauto.
Qed.

(** Every replayed event contributes the entry [historyEntry] computes from
    the state its instrument has after the events before it. *)
Lemma computePositionHistory_event (trades pre post : list TradeActivity) (t : TradeActivity) :
  sortTrades trades = pre ++ t :: post ->
  nth_error (computePositionHistory trades) (List.length pre)
  = Some (historyEntry (historyExisting (fst (fold_left historyStep pre ([], []))) t) t).
Proof.
  intros Hs. unfold computePositionHistory, replayHistory.
  rewrite Hs, fold_left_app. cbn [fold_left].
  pose proof (historyStep_length pre ([], [])) as Hlen.
  cbn [snd List.length Nat.add] in Hlen.
  destruct (fold_left historyStep pre ([], [])) as [positions history].
  destruct (historyStep_prefix post (historyStep (positions, history) t)) as [added Ha].
  rewrite Ha. cbn [historyStep snd fst] in *.
  rewrite <- app_assoc. rewrite nth_error_app2 by lia.
  rewrite Hlen, Nat.sub_diag. reflexivity.
Qed.

(** Every replayed event rewrites the summary record of its instrument with
    [summaryApply]. *)
Lemma replaySummary_event (pre : list TradeActivity) (t : TradeActivity) :
  let positions := fold_left summaryStep pre [] in
  mapGet String.eqb (getPositionKey t) (fold_left summaryStep (pre ++ [t]) [])
  = Some (summaryApply (summaryExisting positions t) t).
Proof.
  simpl. rewrite fold_left_snoc. unfold summaryStep at 1.
  apply mapGet_mapSet_same, String.eqb_eq.
Qed.

(* ------------------------------------------------------------------ *)
(** ** The ledger invariant on the history path *)

Definition positionInvariant (sz cb : Q) : Prop :=
  0 <= sz /\ (sz == 0 -> cb == 0).

Lemma historyEntry_invariant (existing : PositionState) (trade : TradeActivity) :
  let e := historyEntry existing trade in
  positionInvariant (positionSize e) (positionCostBasis e).
Proof.
  unfold positionInvariant, historyEntry. cbn [positionSize positionCostBasis].
  match goal with
  | |- context [leb ?x 0] => set (sz := x) in *; destruct (leb sz 0) eqn:E
  end.
  - split; [lra | reflexivity].
  - apply leb_false in E. split; [lra | intros H0; lra].
Qed.

Definition historyInvariant
    (acc : list (string * PositionState) * list PositionHistoryEntry) : Prop :=
  Forall (fun st => positionInvariant (ps_size st) (ps_costBasisUsd st)) (mapValues (fst acc))
  /\ Forall (fun e => positionInvariant (positionSize e) (positionCostBasis e)) (snd acc).

Lemma historyStep_invariant acc (trade : TradeActivity) :
  historyInvariant acc -> historyInvariant (historyStep acc trade).
Proof.
  destruct acc as [positions history]. intros [Hp Hh].
  pose proof (historyEntry_invariant (historyExisting positions trade) trade) as He.
  unfold historyInvariant, historyStep. cbn [fst snd]. split.
  - rewrite Forall_forall in *. intros st Hin.
    apply mapSet_values_In in Hin. destruct Hin as [-> | Hin]; [exact He | auto].
  - apply Forall_app. split; [exact Hh | constructor; [exact He | constructor]].
Qed.

(** After every processed event, on the history path, every instrument has a
    non-negative size, and a zero cost basis when its size is zero; so has
    every history entry. *)
Lemma replayHistory_invariant (processed : list TradeActivity) :
  historyInvariant (fold_left historyStep processed ([], [])).
Proof.
  induction processed as [|t r IH] using rev_ind.
  - split; constructor.
  - rewrite fold_left_snoc. now apply historyStep_invariant.
Qed.

Lemma computePositionHistory_invariant (trades : list TradeActivity) :
  Forall (fun e => positionInvariant (positionSize e) (positionCostBasis e))
    (computePositionHistory trades).
Proof.
  apply (replayHistory_invariant (sortTrades trades)).
Qed.

(** The summary path keeps the invariant as long as every buy has a positive
    size; the clamp it lacks is only missed by the other buys. *)
Definition summaryInvariant (positions : list (string * SummaryState)) : Prop :=
  Forall (fun st => positionInvariant (openSize st) (costBasisUsd st)) (mapValues positions).

Lemma summaryApply_invariant (existing : SummaryState) (trade : TradeActivity) :
  (normalizeSide (side trade) = Buy -> 0 < tradeSizeOf trade) ->
  positionInvariant (openSize existing) (costBasisUsd existing) ->
  positionInvariant (openSize (summaryApply existing trade))
    (costBasisUsd (summaryApply existing trade)).
Proof.
  intros Hbuy [Hge Hz]. unfold positionInvariant, summaryApply.
  destruct (normalizeSide (side trade)); cbn [openSize costBasisUsd].
  - specialize (Hbuy eq_refl). split; [lra | intros H0; lra].
  - destruct (gtb (openSize existing) 0 && gtb (tradeSizeOf trade) 0)%bool; cbn [andb].
    + destruct (leb (openSize existing - tradeSizeOf trade) 0) eqn:E.
      * split; [lra | reflexivity].
      * apply leb_false in E. split; [lra | intros H0; lra].
    + split; assumption.
Qed.

Lemma replaySummary_invariant (processed : list TradeActivity) :
  Forall (fun t => normalizeSide (side t) = Buy -> 0 < tradeSizeOf t) processed ->
  summaryInvariant (fold_left summaryStep processed []).
Proof.
  induction processed as [|t r IH] using rev_ind; intros Hall.
  - constructor.
  - apply Forall_app in Hall. destruct Hall as [Hr Ht].
    apply Forall_inv in Ht. specialize (IH Hr).
    rewrite fold_left_snoc. set (m := fold_left summaryStep r []) in *.
    unfold summaryInvariant, summaryStep in *.
    rewrite Forall_forall in *. intros st Hin.
    apply mapSet_values_In in Hin. destruct Hin as [-> | Hin]; [|auto].
    apply summaryApply_invariant; [exact Ht|].
    unfold summaryExisting.
    destruct (mapGet String.eqb (getPositionKey t) m) as [st0|] eqn:E.
    + apply IH. apply (mapGet_In_values String.eqb (getPositionKey t)). exact E.
    + cbn [openSize costBasisUsd]. split; [lra | reflexivity].
Qed.

(* ------------------------------------------------------------------ *)
(** ** Sells against an open position *)

(** The realized delta as the specification words it: the notional minus the
    average cost times the matched portion [min(tradeSize, openSize)]. *)
Definition matchedRealizedDelta (open cost tradeSize notional : Q) : Q :=
  notional - (cost / open) * Qmin tradeSize open.

(** BUY 8 for $4, then SELL 16 for $12 on the same instrument. *)
Definition oversellTrades : list TradeActivity :=
  [sampleTrade "BUY" 8 4 100; sampleTrade "SELL" 16 12 200].

(** BUY 8 for $4, then a SELL of $12 that carries neither size nor price. *)
Definition sizelessSellTrades : list TradeActivity :=
  [sampleTrade "BUY" 8 4 100; sampleTrade "SELL" 0 12 200].

(** C1, as stated, fails on an oversell: after BUY 8 for $4 the open size is 8
    and the average cost 1/2; the SELL of 16 for $12 records
    12 - 1/2 * 16 = 4, where the matched portion would give 12 - 1/2 * 8 = 8.
    It also fails on a sell without a size, which records no realized delta
    where the stated formula gives 12 - 1/2 * 0 = 12. *)
Lemma C1_oversell_counterexample :
  (exists e1 e2,
      computePositionHistory oversellTrades = [e1; e2]
      /\ he_side e2 = Sell
      /\ 0 < positionSize e1
      /\ realizedPnl e2 == 4
      /\ matchedRealizedDelta (positionSize e1) (positionCostBasis e1)
           (he_tradeSize e2) (he_tradeUsdc e2) == 8
      /\ ~ realizedPnl e2
           == matchedRealizedDelta (positionSize e1) (positionCostBasis e1)
                (he_tradeSize e2) (he_tradeUsdc e2))
  /\ (exists e1 e2,
        computePositionHistory sizelessSellTrades = [e1; e2]
        /\ he_side e2 = Sell
        /\ 0 < positionSize e1
        /\ realizedPnl e2 == 0
        /\ ~ realizedPnl e2
             == matchedRealizedDelta (positionSize e1) (positionCostBasis e1)
                  (he_tradeSize e2) (he_tradeUsdc e2)).
Proof.
  split.
  - eexists. eexists. split; [vm_compute; reflexivity|].
    repeat split; try (vm_compute; reflexivity).
    intros H. vm_compute in H. discriminate H.
  - eexists. eexists. split; [vm_compute; reflexivity|].
    repeat split; try (vm_compute; reflexivity).
    intros H. vm_compute in H. discriminate H.
Qed.

(** C1 (amended): on an instrument whose open size is strictly positive, a
    sell of positive size records the notional minus the average cost times
    the whole trade size, on the history path and on the summary path alike;
    this is the matched-portion formula exactly when the sell does not exceed
    the open size, and a sell exceeding the open size only clamps the size and
    the cost basis to zero.  A sell whose size is not positive records no
    realized delta. *)
Theorem C1_sell_realized_delta
    (existing : PositionState) (sexisting : SummaryState) (trade : TradeActivity) :
  normalizeSide (side trade) = Sell ->
  0 < ps_size existing ->
  0 < openSize sexisting ->
  let e := historyEntry existing trade in
  let s := summaryApply sexisting trade in
  (0 < tradeSizeOf trade ->
     (realizedPnl e
        = tradeUsdcOf trade
          - (ps_costBasisUsd existing / ps_size existing) * tradeSizeOf trade
      /\ cumulativeRealizedPnl e = ps_realizedPnl existing + realizedPnl e
      /\ (tradeSizeOf trade <= ps_size existing ->
            realizedPnl e
            == matchedRealizedDelta (ps_size existing) (ps_costBasisUsd existing)
                 (tradeSizeOf trade) (tradeUsdcOf trade))
      /\ (ps_size existing <= tradeSizeOf trade ->
            positionSize e = 0 /\ positionCostBasis e = 0))
     /\ (ss_realizedPnl s
           = ss_realizedPnl sexisting
             + (tradeUsdcOf trade
                - (costBasisUsd sexisting / openSize sexisting) * tradeSizeOf trade)
         /\ (tradeSizeOf trade <= openSize sexisting ->
               ss_realizedPnl s
               == ss_realizedPnl sexisting
                  + matchedRealizedDelta (openSize sexisting) (costBasisUsd sexisting)
                      (tradeSizeOf trade) (tradeUsdcOf trade))
         /\ (openSize sexisting <= tradeSizeOf trade ->
               openSize s = 0 /\ costBasisUsd s = 0)))
  /\ (tradeSizeOf trade <= 0 ->
      realizedPnl e = 0 /\ ss_realizedPnl s = ss_realizedPnl sexisting).
Proof.
  intros Hside Hopen Hopen' e s. subst e s. split.
  - intros Hsize. split.
    + unfold historyEntry.
      cbn [realizedPnl cumulativeRealizedPnl positionSize positionCostBasis].
      rewrite Hside.
      apply gtb_true in Hsize. apply gtb_true in Hopen. rewrite Hsize, Hopen.
      cbn [andb]. apply gtb_true in Hsize. apply gtb_true in Hopen.
      repeat split.
      * intros Hle. unfold matchedRealizedDelta.
        rewrite (Q.min_l _ _ Hle). reflexivity.
      * assert (E : leb (ps_size existing - tradeSizeOf trade) 0 = true)
          by (apply leb_true; lra).
        now rewrite E.
      * assert (E : leb (ps_size existing - tradeSizeOf trade) 0 = true)
          by (apply leb_true; lra).
        now rewrite E.
    + unfold summaryApply. rewrite Hside.
      cbn [ss_realizedPnl openSize costBasisUsd].
      apply gtb_true in Hsize. apply gtb_true in Hopen'. rewrite Hsize, Hopen'.
      cbn [andb]. apply gtb_true in Hsize. apply gtb_true in Hopen'.
      repeat split.
      * intros Hle. unfold matchedRealizedDelta.
        rewrite (Q.min_l _ _ Hle). reflexivity.
      * assert (E : leb (openSize sexisting - tradeSizeOf trade) 0 = true)
          by (apply leb_true; lra).
        now rewrite E.
      * assert (E : leb (openSize sexisting - tradeSizeOf trade) 0 = true)
          by (apply leb_true; lra).
        now rewrite E.
  - intros Hsize. apply gtb_false in Hsize.
    unfold historyEntry, summaryApply. rewrite Hside.
    cbn [realizedPnl ss_realizedPnl]. rewrite Hsize, andb_false_r. cbn [andb].
    split; reflexivity.
Qed.

(** The state of the sample instrument after BUY 8 for $4. *)
Definition heldPosition : PositionState :=
  {| ps_size := 8; ps_costBasisUsd := 4; ps_avgPrice := 1 # 2; ps_realizedPnl := 0;
     ps_asset := "A"; ps_market := "Market"; ps_slug := "market"; ps_outcome := "Yes" |}.

Definition heldSummary : SummaryState :=
  {| ss_key := "A"; ss_asset := "A"; ss_market := "Market"; ss_slug := "market";
     ss_outcome := "Yes"; buySize := 8; buyCost := 4; sellSize := 0; sellProceeds := 0;
     openSize := 8; costBasisUsd := 4; ss_realizedPnl := 0;
     lastPrice := Some (1 # 2); lastTradeAt := Some 100 |}.

Lemma C1_sell_realized_delta_witness :
  realizedPnl (historyEntry heldPosition (sampleTrade "SELL" 16 12 200)) == 4
  /\ ss_realizedPnl (summaryApply heldSummary (sampleTrade "SELL" 16 12 200)) == 4
  /\ realizedPnl (historyEntry heldPosition (sampleTrade "SELL" 0 12 200)) = 0.
Proof.
  assert (Hside : forall sz, normalizeSide (side (sampleTrade "SELL" sz 12 200)) = Sell)
    by reflexivity.
  assert (Hopen : 0 < ps_size heldPosition) by reflexivity.
  assert (Hopen' : 0 < openSize heldSummary) by reflexivity.
  pose proof (C1_sell_realized_delta heldPosition heldSummary
                (sampleTrade "SELL" 16 12 200) (Hside 16) Hopen Hopen') as [Hpos _].
  pose proof (C1_sell_realized_delta heldPosition heldSummary
                (sampleTrade "SELL" 0 12 200) (Hside 0) Hopen Hopen') as [_ Hzero].
  assert (Hsize : 0 < tradeSizeOf (sampleTrade "SELL" 16 12 200)) by reflexivity.
  assert (Hnone : tradeSizeOf (sampleTrade "SELL" 0 12 200) <= 0)
    by (vm_compute; discriminate).
  destruct (Hpos Hsize) as [[Hr _] [Hr' _]]. destruct (Hzero Hnone) as [Hz _].
  split; [|split].
  - rewrite Hr. vm_compute. reflexivity.
  - rewrite Hr'. vm_compute. reflexivity.
  - exact Hz.
Defined.

(* ------------------------------------------------------------------ *)
(** ** The ledger invariant on the summary path *)

(** A buy that carries a notional but neither a size nor a price. *)
Definition sizelessBuy : list TradeActivity := [sampleTrade "BUY" 0 5 100].

(** A buy whose size field is negative. *)
Definition negativeBuy : list TradeActivity := [sampleTrade "BUY" (-4) 2 100].

(** C2: [computePositionSummary] clamps only inside its matched-sell branch, so
    a buy can leave the invariant broken there, while [computePositionHistory]
    clamps after every event and keeps it on the same inputs.  After a buy of
    size 0 and notional 5 the summary state has open size 0 and cost basis 5;
    after a buy of size -4 the summary reports the open size -4. *)
Theorem C2_summary_breaks_ledger_invariant :
  (exists st,
      mapValues (replaySummary sizelessBuy) = [st]
      /\ openSize st == 0 /\ costBasisUsd st == 5
      /\ ~ positionInvariant (openSize st) (costBasisUsd st))
  /\ (exists s,
        computePositionSummary negativeBuy = [s]
        /\ se_openSize s == -4 /\ ~ 0 <= se_openSize s)
  /\ (exists e,
        computePositionHistory sizelessBuy = [e]
        /\ positionInvariant (positionSize e) (positionCostBasis e))
  /\ (exists e,
        computePositionHistory negativeBuy = [e]
        /\ positionInvariant (positionSize e) (positionCostBasis e)).
Proof.
  split; [|split; [|split]].
  - eexists. split; [vm_compute; reflexivity|].
    split; [vm_compute; reflexivity|]. split; [vm_compute; reflexivity|].
    intros [_ H]. assert (H0 : 0 == 0) by reflexivity.
    specialize (H H0). vm_compute in H. discriminate H.
  - eexists. split; [vm_compute; reflexivity|].
    split; [vm_compute; reflexivity|].
    intros H. vm_compute in H. apply H. reflexivity.
  - eexists. split; [vm_compute; reflexivity|].
    split; [vm_compute; discriminate | intros _; vm_compute; reflexivity].
  - eexists. split; [vm_compute; reflexivity|].
    split; [vm_compute; discriminate | intros _; vm_compute; reflexivity].
Qed.

(* ------------------------------------------------------------------ *)
(** ** Sells with nothing open *)

(** A single SELL 16 for $12 on a fresh instrument. *)
Definition nakedSell : list TradeActivity := [sampleTrade "SELL" 16 12 100].

(** C3, as stated, fails: a sell on an instrument with no open size is not
    replayed like a buy; the open size and the cost basis stay at zero instead
    of growing to 16 and 12. *)
Lemma C3_naked_sell_counterexample :
  (exists e,
      computePositionHistory nakedSell = [e]
      /\ he_side e = Sell
      /\ positionSize e == 0 /\ positionCostBasis e == 0
      /\ ~ positionSize e == 0 + he_tradeSize e
      /\ ~ positionCostBasis e == 0 + he_tradeUsdc e)
  /\ (exists s,
        computePositionSummary nakedSell = [s]
        /\ se_openSize s == 0 /\ ~ se_openSize s == 0 + 16).
Proof.
  split.
  - eexists. split; [vm_compute; reflexivity|].
    repeat split; try (vm_compute; reflexivity);
      intros H; vm_compute in H; discriminate H.
  - eexists. split; [vm_compute; reflexivity|].
    split; [vm_compute; reflexivity|].
    intros H; vm_compute in H; discriminate H.
Qed.

(** C3 (amended): a sell on an instrument with no open size changes neither
    the open size nor the cost basis, and no realized delta is recorded.  The
    history entry has size 0 and cost basis 0.  The summary keeps the open
    size, the cost basis and the realized PnL it had, which are 0 for an
    instrument seen for the first time, and adds the trade only to its sell
    totals. *)
Theorem C3_sell_without_open_size
    (existing : PositionState) (sexisting : SummaryState) (trade : TradeActivity) :
  normalizeSide (side trade) = Sell ->
  (ps_size existing <= 0 ->
     let e := historyEntry existing trade in
     realizedPnl e = 0
     /\ positionSize e = 0
     /\ positionCostBasis e = 0
     /\ cumulativeRealizedPnl e == ps_realizedPnl existing)
  /\ (openSize sexisting <= 0 ->
      let s := summaryApply sexisting trade in
      openSize s = openSize sexisting
      /\ costBasisUsd s = costBasisUsd sexisting
      /\ ss_realizedPnl s = ss_realizedPnl sexisting
      /\ sellSize s = sellSize sexisting + tradeSizeOf trade
      /\ sellProceeds s = sellProceeds sexisting + tradeUsdcOf trade)
  /\ (forall positions : list (string * SummaryState),
        mapGet String.eqb (getPositionKey trade) positions = None ->
        let s := summaryApply (summaryExisting positions trade) trade in
        openSize s = 0 /\ costBasisUsd s = 0 /\ ss_realizedPnl s = 0).
Proof.
  intros Hside. split; [|split].
  - intros Hle. unfold historyEntry.
    cbn [realizedPnl cumulativeRealizedPnl positionSize positionCostBasis].
    rewrite Hside.
    assert (E : gtb (ps_size existing) 0 = false) by now apply gtb_false.
    rewrite E, andb_false_r.
    assert (E' : leb (ps_size existing) 0 = true) by now apply leb_true.
    rewrite E'. repeat split. lra.
  - intros Hle. unfold summaryApply. rewrite Hside.
    cbn [openSize costBasisUsd ss_realizedPnl sellSize sellProceeds].
    assert (E : gtb (openSize sexisting) 0 = false) by now apply gtb_false.
    rewrite E. cbn [andb]. repeat split.
  - intros positions Hnone. unfold summaryExisting. rewrite Hnone.
    unfold summaryApply. rewrite Hside.
    cbn [openSize costBasisUsd ss_realizedPnl]. repeat split.
Qed.

(** The default record of an instrument seen for the first time. *)
Definition freshPosition : PositionState := historyExisting [] (sampleTrade "SELL" 16 12 100).
Definition freshSummary : SummaryState := summaryExisting [] (sampleTrade "SELL" 16 12 100).

Lemma C3_sell_without_open_size_witness :
  positionSize (historyEntry freshPosition (sampleTrade "SELL" 16 12 100)) = 0
  /\ openSize (summaryApply freshSummary (sampleTrade "SELL" 16 12 100)) = 0.
Proof.
  assert (Hside : normalizeSide (side (sampleTrade "SELL" 16 12 100)) = Sell)
    by reflexivity.
  destruct (C3_sell_without_open_size freshPosition freshSummary
              (sampleTrade "SELL" 16 12 100) Hside) as (Hh & Hs & _).
  assert (H0 : ps_size freshPosition <= 0) by (vm_compute; discriminate).
  assert (H1 : openSize freshSummary <= 0) by (vm_compute; discriminate).
  destruct (Hh H0) as (_ & Hsz & _). destruct (Hs H1) as (Hop & _).
  split; [exact Hsz | rewrite Hop; reflexivity].
Defined.

(** What the summary keeps need not be 0: after a buy of size 0 for $5 the
    open size is 0 and the cost basis 5, and the sell leaves both. *)
Example sell_keeps_stale_cost_basis :
  exists st,
    mapValues (replaySummary [sampleTrade "BUY" 0 5 100; sampleTrade "SELL" 16 12 200]) = [st]
    /\ openSize st == 0 /\ costBasisUsd st == 5
    /\ sellSize st == 16 /\ sellProceeds st == 12.
Proof.
  eexists. split; [vm_compute; reflexivity|]. repeat split; vm_compute; reflexivity.
Qed.

(* ------------------------------------------------------------------ *)
(** ** Worked scenarios of the ledger *)

(** A matched round trip: BUY 10 for $4.00, then SELL 10 for $6.00 realizes
    $2.00 and closes the position. *)
Example roundTrip_scenario :
  exists e1 e2 s,
    computePositionHistory [sampleTrade "BUY" 10 4 100; sampleTrade "SELL" 10 6 200] = [e1; e2]
    /\ computePositionSummary [sampleTrade "BUY" 10 4 100; sampleTrade "SELL" 10 6 200] = [s]
    /\ realizedPnl e2 == 2 /\ positionSize e2 == 0 /\ he_status e2 = CLOSED
    /\ se_realizedPnl s == 2 /\ se_openSize s == 0 /\ se_status s = CLOSED.
Proof.
  do 3 eexists. split; [vm_compute; reflexivity|]. split; [vm_compute; reflexivity|].
  repeat split; vm_compute; reflexivity.
Qed.

(** A partial close: BUY 10 for $5.00, then SELL 4 for $2.80 realizes $0.80
    and leaves 6 open at a cost basis of $3.00. *)
Example partialClose_scenario :
  exists e1 e2 s,
    computePositionHistory [sampleTrade "BUY" 10 5 100; sampleTrade "SELL" 4 (14 # 5) 200]
    = [e1; e2]
    /\ computePositionSummary [sampleTrade "BUY" 10 5 100; sampleTrade "SELL" 4 (14 # 5) 200]
       = [s]
    /\ realizedPnl e2 == 4 # 5 /\ positionSize e2 == 6 /\ positionCostBasis e2 == 3
    /\ he_status e2 = OPEN
    /\ se_realizedPnl s == 4 # 5 /\ se_openSize s == 6 /\ se_status s = OPEN.
Proof.
  do 3 eexists. split; [vm_compute; reflexivity|]. split; [vm_compute; reflexivity|].
  repeat split; vm_compute; reflexivity.
Qed.

(** The replay is ordered by timestamp, ties by arrival: a sell that arrives
    first but is dated later is replayed after the buy. *)
Example replay_order_scenario :
  map he_side (computePositionHistory [sampleTrade "SELL" 10 6 200; sampleTrade "BUY" 10 4 100])
  = [Buy; Sell].
Proof. vm_compute. reflexivity. Qed.

(* ------------------------------------------------------------------ *)
(** ** PnL aggregator: the signed cash delta of one event *)

(** An upstream activity record, as far as the aggregator reads it.  [a_type]
    and [a_side] are [None] when the field is not a string. *)
Record Activity : Type := mkActivity {
  a_type : option string;
  a_side : option string;
  a_usdcSize : JsNumeric;
  a_amount : JsNumeric;
  a_value : JsNumeric;
  a_usdcAmount : JsNumeric;
  a_amountUsd : JsNumeric;
  a_cashDelta : JsNumeric;
  a_delta : JsNumeric;
  a_pnl : JsNumeric;
  a_timestamp : JsNumeric
}.

Definition ACTIVITY_POSITIVE_TYPES : list string :=
  ["REDEEM"; "SETTLEMENT"; "SETTLE"; "CLAIM"; "PAYOUT"; "REWARD"; "MAKER_REBATE";
   "REBATE"; "REFUND"; "CREDIT"]%string.

Definition ACTIVITY_NEGATIVE_TYPES : list string :=
  ["FEE"; "MAKER_FEE"; "TAKER_FEE"; "PENALTY"; "DEBIT"]%string.

Definition ACTIVITY_IGNORE_TYPES : list string :=
  ["TRANSFER"; "DEPOSIT"; "WITHDRAWAL"; "WITHDRAW"]%string.

(** [Set.has] *)
Definition setHas (s : list string) (x : string) : bool :=
  existsb (String.eqb x) s.

Definition normalizeActivityType (value : option string) : string :=
  match value with
  | Some s => toUpperCase s
  | None => EmptyString
  end.

Definition getActivityAmount (item : Activity) : Q :=
  parseNumber
    (nullish (a_usdcSize item)
       (nullish (a_amount item)
          (nullish (a_value item)
             (nullish (a_usdcAmount item)
                (nullish (a_amountUsd item)
                   (nullish (a_cashDelta item)
                      (nullish (a_delta item) (a_pnl item)))))))).

Definition isIgnoredActivityType (type : string) : bool :=
  if setHas ACTIVITY_IGNORE_TYPES type then true
  else (includes "TRANSFER" type || includes "WITHDRAW" type
        || includes "DEPOSIT" type || includes "BRIDGE" type)%bool.

Definition isPositiveActivityType (type : string) : bool :=
  if setHas ACTIVITY_POSITIVE_TYPES type then true
  else (includes "REDEEM" type || includes "REBATE" type || includes "REWARD" type
        || includes "PAYOUT" type || includes "CLAIM" type || includes "SETTLE" type
        || includes "CREDIT" type)%bool.

Definition isNegativeActivityType (type : string) : bool :=
  if setHas ACTIVITY_NEGATIVE_TYPES type then true
  else (includes "FEE" type || includes "PENALTY" type || includes "DEBIT" type)%bool.

(** The sign rule shared by trades and sided cash flows. *)
Definition sidedDelta (sd : string) (amountRaw : Q) : Q :=
  match normalizeSide (Some sd) with
  | Buy => - amountRaw
  | Sell => amountRaw
  end.

Definition getActivityNetDelta (activity : Activity) : Q :=
  let amountRaw := getActivityAmount activity in
  if negb (truthy amountRaw) then 0
  else if ltb amountRaw 0 then amountRaw
  else
    let type := normalizeActivityType (a_type activity) in
    if String.eqb type "TRADE" then
      match a_side activity with
      | Some sd => sidedDelta sd amountRaw
      | None => 0
      end
    else
      match a_side activity with
      | Some sd => sidedDelta sd amountRaw
      | None =>
          if isIgnoredActivityType type then 0
          else if isPositiveActivityType type then amountRaw
          else if isNegativeActivityType type then - amountRaw
          else 0
      end.

(** A cash-flow record with a type, an amount and a timestamp, and no side. *)
Definition cashFlow (ty : string) (amount ts : Q) : Activity :=
  {| a_type := Some ty; a_side := None; a_usdcSize := JNullish;
     a_amount := JNumber amount; a_value := JNullish; a_usdcAmount := JNullish;
     a_amountUsd := JNullish; a_cashDelta := JNullish; a_delta := JNullish;
     a_pnl := JNullish; a_timestamp := JNumber ts |}.

(** [type] contains one of the names. *)
Definition matchesAny (names : list string) (type : string) : bool :=
  existsb (fun name => includes name type) names.

(** The sign of a type as the specification words it: the positive names
    first, then the negative ones, the ignored and the unrecognized types
    being 0. *)
Definition statedTypeSign (type : string) : Q :=
  if matchesAny ["REDEEM"; "SETTLEMENT"; "CLAIM"; "PAYOUT"; "REWARD"; "REBATE"; "REFUND";
                 "CREDIT"]%string type then 1
  else if matchesAny ["FEE"; "PENALTY"; "DEBIT"]%string type then -1
  else 0.

Lemma setHas_In (s : list string) (x : string) : setHas s x = true <-> In x s.
Proof.
  unfold setHas. rewrite existsb_exists. split.
  - intros [y [Hin Heq]]. apply String.eqb_eq in Heq. now subst.
  - intros Hin. exists x. split; [exact Hin | apply String.eqb_refl].
Qed.

Lemma isIgnoredActivityType_matches (type : string) :
  isIgnoredActivityType type
  = matchesAny ["TRANSFER"; "WITHDRAW"; "DEPOSIT"; "BRIDGE"]%string type.
Proof.
  unfold isIgnoredActivityType.
  destruct (setHas ACTIVITY_IGNORE_TYPES type) eqn:E.
  - apply setHas_In in E. unfold ACTIVITY_IGNORE_TYPES in E.
    repeat (destruct E as [<- | E]; [vm_compute; reflexivity|]). destruct E.
  - unfold matchesAny. cbn [existsb].
    destruct (includes "TRANSFER" type), (includes "WITHDRAW" type),
      (includes "DEPOSIT" type), (includes "BRIDGE" type); reflexivity.
Qed.

Lemma isPositiveActivityType_matches (type : string) :
  isPositiveActivityType type
  = (matchesAny ["REDEEM"; "REBATE"; "REWARD"; "PAYOUT"; "CLAIM"; "SETTLE"; "CREDIT"]%string
       type
     || String.eqb type "REFUND")%bool.
Proof.
  unfold isPositiveActivityType.
  destruct (setHas ACTIVITY_POSITIVE_TYPES type) eqn:E.
  - apply setHas_In in E. unfold ACTIVITY_POSITIVE_TYPES in E.
    repeat (destruct E as [<- | E]; [vm_compute; reflexivity|]). destruct E.
  - assert (Hne : String.eqb type "REFUND" = false).
    { destruct (String.eqb_spec type "REFUND") as [->|]; [|reflexivity].
      vm_compute in E. discriminate E. }
    rewrite Hne, orb_false_r. unfold matchesAny. cbn [existsb].
    destruct (includes "REDEEM" type), (includes "REBATE" type), (includes "REWARD" type),
      (includes "PAYOUT" type), (includes "CLAIM" type), (includes "SETTLE" type),
      (includes "CREDIT" type); reflexivity.
Qed.

Lemma isNegativeActivityType_matches (type : string) :
  isNegativeActivityType type = matchesAny ["FEE"; "PENALTY"; "DEBIT"]%string type.
Proof.
  unfold isNegativeActivityType.
  destruct (setHas ACTIVITY_NEGATIVE_TYPES type) eqn:E.
  - apply setHas_In in E. unfold ACTIVITY_NEGATIVE_TYPES in E.
    repeat (destruct E as [<- | E]; [vm_compute; reflexivity|]). destruct E.
  - unfold matchesAny. cbn [existsb].
    destruct (includes "FEE" type), (includes "PENALTY" type), (includes "DEBIT" type);
      reflexivity.
Qed.

(** C9, as stated, fails on types of two classes and on SETTLE: the ignored
    names are tested first, so DEPOSIT_REWARD (stated positive) and
    WITHDRAWAL_FEE (stated negative) yield 0; and the positive name is SETTLE,
    not only SETTLEMENT, so the type SETTLE is positive. *)
Lemma C9_precedence_counterexample :
  (getActivityNetDelta (cashFlow "DEPOSIT_REWARD" 5 100) == 0
   /\ statedTypeSign "DEPOSIT_REWARD" * 5 == 5)
  /\ (getActivityNetDelta (cashFlow "WITHDRAWAL_FEE" 5 100) == 0
      /\ statedTypeSign "WITHDRAWAL_FEE" * 5 == -5)
  /\ (getActivityNetDelta (cashFlow "SETTLE" 5 100) == 5
      /\ statedTypeSign "SETTLE" * 5 == 0)
  /\ ~ (forall ty : string,
          getActivityNetDelta (cashFlow ty 5 100) == statedTypeSign ty * 5).
Proof.
  split; [split; vm_compute; reflexivity|].
  split; [split; vm_compute; reflexivity|].
  split; [split; vm_compute; reflexivity|].
  intros H. specialize (H "DEPOSIT_REWARD"%string). vm_compute in H. discriminate H.
Qed.

(** C9 (amended): a zero amount yields 0 and a negative amount is used as it
    is; otherwise an event with a side, a TRADE or not, gets the negated amount
    for a buy and the amount for a sell, and a TRADE without a side yields 0;
    otherwise a type containing TRANSFER, WITHDRAW, DEPOSIT or BRIDGE yields 0;
    otherwise a type containing REDEEM, REBATE, REWARD, PAYOUT, CLAIM, SETTLE or
    CREDIT, and the type REFUND itself, is positive; otherwise, leaving aside
    the other types that contain REFUND, a type containing FEE, PENALTY or
    DEBIT is negative and any other type yields 0. *)
Theorem C9_net_delta_classification (activity : Activity) :
  let amount := getActivityAmount activity in
  let type := normalizeActivityType (a_type activity) in
  (amount == 0 -> getActivityNetDelta activity = 0)
  /\ (amount < 0 -> getActivityNetDelta activity = amount)
  /\ (0 < amount ->
      match a_side activity with
      | Some sd =>
          (normalizeSide (Some sd) = Buy -> getActivityNetDelta activity = - amount)
          /\ (normalizeSide (Some sd) = Sell -> getActivityNetDelta activity = amount)
      | None =>
          if String.eqb type "TRADE" then getActivityNetDelta activity = 0
          else if matchesAny ["TRANSFER"; "WITHDRAW"; "DEPOSIT"; "BRIDGE"]%string type
          then getActivityNetDelta activity = 0
          else if (matchesAny ["REDEEM"; "REBATE"; "REWARD"; "PAYOUT"; "CLAIM"; "SETTLE";
                               "CREDIT"]%string type
                   || String.eqb type "REFUND")%bool
          then getActivityNetDelta activity = amount
          else if includes "REFUND" type then True
          else if matchesAny ["FEE"; "PENALTY"; "DEBIT"]%string type
          then getActivityNetDelta activity = - amount
          else getActivityNetDelta activity = 0
      end).
Proof.
  cbv zeta. unfold getActivityNetDelta.
  split; [|split].
  - intros H0. apply truthy_false in H0. now rewrite H0.
  - intros Hneg.
    assert (Et : truthy (getActivityAmount activity) = true) by (apply truthy_true; lra).
    assert (El : ltb (getActivityAmount activity) 0 = true) by now apply ltb_true.
    now rewrite Et, El.
  - intros Hpos.
    assert (Et : truthy (getActivityAmount activity) = true) by (apply truthy_true; lra).
    assert (El : ltb (getActivityAmount activity) 0 = false) by (apply ltb_false; lra).
    rewrite Et, El. cbn [negb].
    destruct (a_side activity) as [sd|].
    + unfold sidedDelta.
      destruct (String.eqb _ "TRADE"); split; intros ->; reflexivity.
    + destruct (String.eqb _ "TRADE"); [reflexivity|].
      rewrite isIgnoredActivityType_matches, isPositiveActivityType_matches,
        isNegativeActivityType_matches.
      destruct (matchesAny ["TRANSFER"; "WITHDRAW"; "DEPOSIT"; "BRIDGE"]%string _);
        [reflexivity|].
      destruct (_ || _)%bool; [reflexivity|].
      destruct (includes "REFUND" _); [exact I|].
      destruct (matchesAny ["FEE"; "PENALTY"; "DEBIT"]%string _); reflexivity.
Qed.

Lemma C9_net_delta_classification_witness :
  getActivityNetDelta (cashFlow "MAKER_REBATE" 5 100) = 5
  /\ getActivityNetDelta (cashFlow "GAS_FEE" 5 100) = - 5
  /\ getActivityNetDelta (cashFlow "USDC_BRIDGE" 5 100) = 0
  /\ getActivityNetDelta (cashFlow "REFUND" (-3) 100) = -3.
Proof.
  pose proof (C9_net_delta_classification (cashFlow "MAKER_REBATE" 5 100)) as (_ & _ & H1).
  pose proof (C9_net_delta_classification (cashFlow "GAS_FEE" 5 100)) as (_ & _ & H2).
  pose proof (C9_net_delta_classification (cashFlow "USDC_BRIDGE" 5 100)) as (_ & _ & H3).
  pose proof (C9_net_delta_classification (cashFlow "REFUND" (-3) 100)) as (_ & H4 & _).
  cbv zeta in *.
  assert (Hpos : 0 < 5) by reflexivity.
  assert (Hneg : -3 < 0) by reflexivity.
  split; [exact (H1 Hpos)|]. split; [exact (H2 Hpos)|]. split; [exact (H3 Hpos)|].
  exact (H4 Hneg).
Defined.

(** The substring names of [isPositiveActivityType] leave REFUND out: every
    other positive type is matched both exactly and as a substring
    (TAX_REBATE, LATE_CREDIT, ... are positive, like REFUND itself), but a type
    that merely contains REFUND yields 0, or the negated amount when it also
    contains a negative name. *)
Example refund_substring_is_not_positive :
  getActivityNetDelta (cashFlow "TAX_REFUND" 5 100) == 0
  /\ getActivityNetDelta (cashFlow "REFUND_FEE" 5 100) == -5
  /\ getActivityNetDelta (cashFlow "REFUND" 5 100) == 5
  /\ getActivityNetDelta (cashFlow "refund" 5 100) == 5
  /\ getActivityNetDelta (cashFlow "TAX_REBATE" 5 100) == 5
  /\ getActivityNetDelta (cashFlow "LATE_CREDIT" 5 100) == 5
  /\ getActivityNetDelta (cashFlow "EARLY_REDEEM" 5 100) == 5
  /\ isPositiveActivityType "TAX_REFUND" = false
  /\ includes "REFUND" "TAX_REFUND" = true.
Proof.
  repeat split; vm_compute; reflexivity.
Qed.

(** The side rule: a buy is the negated amount, a sell the amount. *)
Example sided_delta_examples :
  sidedDelta "BUY" 5 == -5 /\ sidedDelta "sell" 5 == 5 /\ sidedDelta "SELL" 5 == 5
  /\ sidedDelta "other" 5 == -5.
Proof. repeat split. Qed.

(* ------------------------------------------------------------------ *)
(** ** PnL aggregator: [computeLifetimeAnalytics] *)

(** A daily bucket; [date] is the key text of the source, the first ten
    characters of the ISO rendering of the event time. *)
Record DailyBucket : Type := mkBucket {
  date : string;
  net : Q;
  profit : Q;
  loss : Q;
  events : nat
}.

(** The running totals and the [dailyMap] of the aggregation loop. *)
Record Totals : Type := mkTotals {
  t_totalProfit : Q;
  t_totalLoss : Q;
  t_netPnl : Q;
  t_dailyMap : list (string * DailyBucket)
}.

Definition emptyBucket (d : string) : DailyBucket :=
  {| date := d; net := 0; profit := 0; loss := 0; events := 0 |}.

(** [existing.net += delta; ...; existing.events += 1] *)
Definition addToBucket (existing : DailyBucket) (delta : Q) : DailyBucket :=
  {| date := date existing;
     net := net existing + delta;
     profit := if gtb delta 0 then profit existing + delta else profit existing;
     loss := if gtb delta 0 then loss existing else loss existing + Qabs delta;
     events := S (events existing) |}.

Definition bucketFor (dailyMap : list (string * DailyBucket)) (d : string) : DailyBucket :=
  match mapGet String.eqb d dailyMap with
  | Some b => b
  | None => emptyBucket d
  end.

Section ComparatorSort.
Context {A : Type} (cmp : A -> A -> comparison).

(** One insertion of [.sort((a, b) => cmp(a, b))], [cmp] giving the sign of
    the comparator: the new element goes before the first element it compares
    smaller than, behind the others. *)
Fixpoint insertWith (x : A) (l : list A) : list A :=
  match l with
  | [] => [x]
  | y :: r =>
      match cmp x y with
      | Lt => x :: y :: r
      | _ => y :: insertWith x r
      end
  end.

Definition sortWith (l : list A) : list A :=
  fold_left (fun acc x => insertWith x acc) l [].

Lemma insertWith_perm (x : A) (l : list A) : Permutation (x :: l) (insertWith x l).
Proof.
  induction l as [|y r IH]; cbn [insertWith]; [reflexivity|].
  destruct (cmp x y); try reflexivity; rewrite perm_swap; now constructor.
Qed.

Lemma sortWith_perm (l : list A) : Permutation l (sortWith l).
Proof.
  unfold sortWith.
  assert (G : forall acc,
             Permutation (acc ++ l) (fold_left (fun acc x => insertWith x acc) l acc)).
  { induction l as [|x r IH]; intros acc; cbn [fold_left].
    - now rewrite app_nil_r.
    - rewrite <- IH, <- insertWith_perm. cbn [app].
      symmetry. apply Permutation_middle. }
  apply (G []).
Qed.

End ComparatorSort.

(* ------------------------------------------------------------------ *)
(** ** Stand-ins for the built-ins *)

(** The aggregator calls [Math.sqrt], [Date.prototype.toISOString] and
    [String.prototype.localeCompare], and it computes in doubles.  The model
    takes them as parameters; the worked examples run it on the stand-ins of
    this section. *)

(** Exact arithmetic: no rounding. *)
Definition exactly (x : Q) : Q := x.

(** A rational stand-in for [Math.sqrt]: the integer square root on twelve
    more decimal digits, exact on 0. *)
Definition sqrtApprox (x : Q) : Q :=
  Z.sqrt (Qnum x * Zpos (Qden x) * 1000000000000) # (Qden x * 1000000).

Lemma sqrtApprox_nonneg (x : Q) : 0 <= sqrtApprox x.
Proof.
  unfold sqrtApprox, Qle. simpl. rewrite Z.mul_1_r. apply Z.sqrt_nonneg.
Qed.

Lemma sqrtApprox_zero (x : Q) : x == 0 -> sqrtApprox x == 0.
Proof.
  unfold sqrtApprox, Qeq. simpl. intros H. rewrite Z.mul_1_r in *.
  rewrite H. reflexivity.
Qed.

(** The nearest integer to [n / d], ties to the even one. *)
Definition roundHalfEven (n d : Z) : Z :=
  let q := (n / d)%Z in
  let r := (n mod d)%Z in
  match (2 * r ?= d)%Z with
  | Lt => q
  | Gt => (q + 1)%Z
  | Eq => if Z.even q then q else (q + 1)%Z
  end.

Definition pow2 (e : Z) : Q := 2 ^ e.

(** The double nearest to a rational, ties to even: a significand of 53 bits
    (the normal range of binary64; no overflow, no subnormals). *)
Definition roundBinary64 (q : Q) : Q :=
  if Qeq_bool q 0 then 0
  else
    let a := Qabs q in
    let e0 := (Z.log2 (Qnum a) - Z.log2 (Zpos (Qden a)) - 52)%Z in
    let e := if Qle_bool (pow2 (e0 + 52)) a then e0 else (e0 - 1)%Z in
    let s := a / pow2 e in
    let m := roundHalfEven (Qnum s) (Zpos (Qden s)) in
    Qred ((if Qle_bool 0 q then inject_Z m else - inject_Z m) * pow2 e).

(** The correctly rounded square root of binary64, 0 on what is not positive. *)
Definition sqrtBinary64 (q : Q) : Q :=
  if Qle_bool q 0 then 0
  else
    let e0 := ((Z.log2 (Qnum q) - Z.log2 (Zpos (Qden q)) - 104) / 2)%Z in
    let e := if Qle_bool (pow2 (2 * e0 + 104)) q then e0 else (e0 - 1)%Z in
    let t := Qred (q / pow2 (2 * e)) in
    let m0 := Z.sqrt (Qnum t / Zpos (Qden t)) in
    let m :=
      match (4 * Qnum t ?= (2 * m0 + 1) * (2 * m0 + 1) * Zpos (Qden t))%Z with
      | Lt => m0
      | Gt => (m0 + 1)%Z
      | Eq => if Z.even m0 then m0 else (m0 + 1)%Z
      end in
    Qred (inject_Z m * pow2 e).

(** Year, month and day of the month of a day counted from 1970-01-01, in the
    proleptic Gregorian calendar. *)
Definition civilFromDays (z : Z) : Z * Z * Z :=
  let z1 := (z + 719468)%Z in
  let era := (z1 / 146097)%Z in
  let doe := (z1 - era * 146097)%Z in
  let yoe := ((doe - doe / 1460 + doe / 36524 - doe / 146096) / 365)%Z in
  let doy := (doe - (365 * yoe + yoe / 4 - yoe / 100))%Z in
  let mp := ((5 * doy + 2) / 153)%Z in
  let d := (doy - (153 * mp + 2) / 5 + 1)%Z in
  let m := (if mp <? 10 then mp + 3 else mp - 9)%Z in
  let y := (yoe + era * 400 + (if m <=? 2 then 1 else 0))%Z in
  (y, m, d).

(** The last [width] decimal digits of a number. *)
Fixpoint digitsOf (width : nat) (n : Z) : string :=
  match width with
  | O => EmptyString
  | S w =>
      (digitsOf w (n / 10)
       ++ String (ascii_of_nat (48 + Z.to_nat (n mod 10))) EmptyString)%string
  end.

(** A stand-in for [new Date(ms).toISOString().slice(0, 10)]: the time is cut
    to whole milliseconds, and the text is "YYYY-MM-DD" for the years 0 to
    9999 and the sign, six digits of the year and the month otherwise. *)
Definition isoDateUtc (ms : Q) : string :=
  let t := Z.quot (Qnum ms) (Zpos (Qden ms)) in
  let '(y, m, d) := civilFromDays (t / 86400000) in
  if ((0 <=? y) && (y <=? 9999))%Z%bool
  then (digitsOf 4 y ++ "-" ++ digitsOf 2 m ++ "-" ++ digitsOf 2 d)%string
  else ((if (y <? 0)%Z then "-" else "+") ++ digitsOf 6 (Z.abs y) ++ "-"
        ++ digitsOf 2 m)%string.

(** A stand-in for the sign of [a.localeCompare(b)]: the order of the code
    units, which is the order of the collation on two date keys of one
    shape. *)
Definition codeUnitCompare (a b : string) : comparison := String.compare a b.

(* ------------------------------------------------------------------ *)
(** ** The aggregation loop and the statistics *)

Section Lifetime.

(** [sqrt] is [Math.sqrt].  [fl] is the rounding that ends every operation of
    the double arithmetic: the Sharpe lines, where the rounding decides
    between null and a number, apply it after each operation; the sums of
    the aggregation are kept exact.  [isoDate ms] is the text
    [new Date(ms).toISOString().slice(0, 10)], which exists for the times up
    to 8.64e15 ms either side of 1970; beyond them the source throws a
    RangeError, which the model leaves out.  [localeCompare a b] is the sign
    of [a.localeCompare(b)]. *)
Variable sqrt : Q -> Q.
Variable fl : Q -> Q.
Variable isoDate : Q -> string.
Variable localeCompare : string -> string -> comparison.

(** The body of the aggregation loop for one activity. *)
Definition aggregateStep (st : Totals) (activity : Activity) : Totals :=
  let delta := getActivityNetDelta activity in
  if negb (truthy delta) then st
  else
    let netPnl := t_netPnl st + delta in
    let totalProfit := if gtb delta 0 then t_totalProfit st + delta else t_totalProfit st in
    let totalLoss := if gtb delta 0 then t_totalLoss st else t_totalLoss st + Qabs delta in
    let ts := parseNumber (a_timestamp activity) in
    let dailyMap :=
      if gtb ts 0 then
        let d := isoDate (normalizeTimestampMs ts) in
        mapSet String.eqb d (addToBucket (bucketFor (t_dailyMap st) d) delta) (t_dailyMap st)
      else t_dailyMap st in
    {| t_totalProfit := totalProfit; t_totalLoss := totalLoss; t_netPnl := netPnl;
       t_dailyMap := dailyMap |}.

Definition sortActivities (activities : list Activity) : list Activity :=
  sortByKey (fun a => parseNumber (a_timestamp a)) activities.

Definition aggregate (activities : list Activity) : Totals :=
  fold_left aggregateStep (sortActivities activities)
    {| t_totalProfit := 0; t_totalLoss := 0; t_netPnl := 0; t_dailyMap := [] |}.

(** [Array.from(dailyMap.values()).sort((a, b) => a.date.localeCompare(b.date))] *)
Definition sortDaily (dailyMap : list (string * DailyBucket)) : list DailyBucket :=
  sortWith (fun a b => localeCompare (date a) (date b)) (mapValues dailyMap).

(** *** Statistics over the sorted daily buckets *)

Definition totalPositiveOf (daily : list DailyBucket) : Q :=
  fold_left (fun sum day => sum + (if gtb (net day) 0 then net day else 0)) daily 0.

Definition totalNegativeOf (daily : list DailyBucket) : Q :=
  fold_left (fun sum day => sum + (if ltb (net day) 0 then - net day else 0)) daily 0.

Definition winDaysOf (daily : list DailyBucket) : nat :=
  List.length (filter (fun day => gtb (net day) 0) daily).

Definition lossDaysOf (daily : list DailyBucket) : nat :=
  List.length (filter (fun day => ltb (net day) 0) daily).

Definition ofNat (n : nat) : Q := inject_Z (Z.of_nat n).

Definition winRateOf (daily : list DailyBucket) : option Q :=
  if (0 <? List.length daily)%nat
  then Some (ofNat (winDaysOf daily) / ofNat (List.length daily)) else None.

Definition profitFactorOf (daily : list DailyBucket) : option Q :=
  if gtb (totalNegativeOf daily) 0
  then Some (totalPositiveOf daily / totalNegativeOf daily) else None.

Definition avgWinDayOf (daily : list DailyBucket) : option Q :=
  if (0 <? winDaysOf daily)%nat
  then Some (totalPositiveOf daily / ofNat (winDaysOf daily)) else None.

Definition avgLossDayOf (daily : list DailyBucket) : option Q :=
  if (0 <? lossDaysOf daily)%nat
  then Some (totalNegativeOf daily / ofNat (lossDaysOf daily)) else None.

(** The drawdown loop: [(cumulative, peak, maxDrawdown)] after one more day. *)
Definition drawdownStep (st : Q * Q * Q) (day : DailyBucket) : Q * Q * Q :=
  let '(cumulative, peak, maxDrawdown) := st in
  let cumulative1 := cumulative + net day in
  let peak1 := if gtb cumulative1 peak then cumulative1 else peak in
  let drawdown := peak1 - cumulative1 in
  let maxDrawdown1 := if gtb drawdown maxDrawdown then drawdown else maxDrawdown in
  (cumulative1, peak1, maxDrawdown1).

Definition maxDrawdownLoop (daily : list DailyBucket) : Q :=
  snd (fold_left drawdownStep daily (0, 0, 0)).

(** [activeDays > 0 ? maxDrawdown : null] *)
Definition maxDrawdownOf (daily : list DailyBucket) : option Q :=
  if (0 <? List.length daily)%nat then Some (maxDrawdownLoop daily) else None.

Definition lastDayNetOf (daily : list DailyBucket) : option Q :=
  match rev daily with
  | [] => None
  | d :: _ => Some (net d)
  end.

(** *** The Sharpe ratio, every operation followed by the rounding [fl] *)

(** [daily.reduce((sum, day) => sum + day.net, 0) / activeDays] *)
Definition sampleMean (daily : list DailyBucket) : Q :=
  fl (fold_left (fun sum day => fl (sum + net day)) daily 0 / ofNat (List.length daily)).

(** The sample variance, with the denominator [activeDays - 1];
    [Math.pow(x, 2)] is taken as the rounded square. *)
Definition sampleVariance (daily : list DailyBucket) : Q :=
  let mean := sampleMean daily in
  fl (fold_left (fun sum day => fl (sum + fl (fl (net day - mean) ^ 2))) daily 0
      / (ofNat (List.length daily) - 1)).

Definition sharpeRatioOf (daily : list DailyBucket) : option Q :=
  if (2 <=? List.length daily)%nat then
    let mean := sampleMean daily in
    let stdev := sqrt (sampleVariance daily) in
    if gtb stdev 0 then Some (fl (fl (mean / stdev) * sqrt 365)) else None
  else None.

Record LifetimeSummary : Type := mkLifetime {
  totalProfit : Q;
  totalLoss : Q;
  netPnl : Q;
  daily : list DailyBucket;
  winRate : option Q;
  profitFactor : option Q;
  avgWinDay : option Q;
  avgLossDay : option Q;
  maxDrawdown : option Q;
  sharpeRatio : option Q;
  lastDayNet : option Q;
  activeDays : nat;
  firstTradeAt : option Q;
  lastTradeAt_ : option Q
}.

Definition firstPositiveTimestamp (l : list Activity) : option Q :=
  match find (fun a => gtb (parseNumber (a_timestamp a)) 0) l with
  | Some a => Some (parseNumber (a_timestamp a))
  | None => None
  end.

Definition computeLifetimeAnalytics (activities : list Activity) : LifetimeSummary :=
  let sorted := sortActivities activities in
  let st := aggregate activities in
  let days := sortDaily (t_dailyMap st) in
  {| totalProfit := t_totalProfit st;
     totalLoss := t_totalLoss st;
     netPnl := t_netPnl st;
     daily := days;
     winRate := winRateOf days;
     profitFactor := profitFactorOf days;
     avgWinDay := avgWinDayOf days;
     avgLossDay := avgLossDayOf days;
     maxDrawdown := maxDrawdownOf days;
     sharpeRatio := sharpeRatioOf days;
     lastDayNet := lastDayNetOf days;
     activeDays := List.length days;
     firstTradeAt := firstPositiveTimestamp sorted;
     lastTradeAt_ := firstPositiveTimestamp (rev sorted) |}.

(* ------------------------------------------------------------------ *)
(** ** Maximum drawdown *)

(** The running cumulative sum of the daily net, from a starting value. *)
Fixpoint cumulativeFrom (c : Q) (nets : list Q) : list Q :=
  match nets with
  | [] => []
  | n :: r => (c + n) :: cumulativeFrom (c + n) r
  end.

(** The running peak of a sequence, from a starting value. *)
Fixpoint runningPeakFrom (p : Q) (cs : list Q) : list Q :=
  match cs with
  | [] => []
  | c :: r => Qmax p c :: runningPeakFrom (Qmax p c) r
  end.

(** The running peak of a sequence alone: its first value starts the peak. *)
Definition runningPeak (cs : list Q) : list Q :=
  match cs with
  | [] => []
  | c :: r => c :: runningPeakFrom c r
  end.

(** [peak - cumulative] at each step. *)
Fixpoint drawdownSeq (peaks cs : list Q) : list Q :=
  match peaks, cs with
  | p :: ps, c :: r => (p - c) :: drawdownSeq ps r
  | _, _ => []
  end.

Definition maximumFrom (m : Q) (l : list Q) : Q := fold_left Qmax l m.

(** The maximum drawdown as the specification words it: the largest
    [running peak of the cumulative net - cumulative net], 0 without days. *)
Definition statedMaxDrawdown (nets : list Q) : Q :=
  let cs := cumulativeFrom 0 nets in
  maximumFrom 0 (drawdownSeq (runningPeak cs) cs).

(** The same with the running peak started at the initial balance 0. *)
Definition flooredMaxDrawdown (nets : list Q) : Q :=
  let cs := cumulativeFrom 0 nets in
  maximumFrom 0 (drawdownSeq (runningPeakFrom 0 cs) cs).

Fixpoint nonDecreasingFrom (a : Q) (l : list Q) : Prop :=
  match l with
  | [] => True
  | b :: r => a <= b /\ nonDecreasingFrom b r
  end.

Definition nonDecreasing (l : list Q) : Prop :=
  match l with
  | [] => True
  | a :: r => nonDecreasingFrom a r
  end.

(** A sample bucket: the day counted from 1970-01-01 and its net. *)
Definition dayOf (d : Z) (n : Q) : DailyBucket :=
  {| date := isoDateUtc (inject_Z (d * 86400000)); net := n; profit := Qmax n 0;
     loss := Qmax (- n) 0; events := 1 |}.

(** [x > y ? x : y] is the maximum, as the same value. *)
Lemma gtb_select_max (a b : Q) : (if gtb a b then a else b) = Qmax b a.
Proof.
  unfold gtb, Qle_bool, Qmax, GenericMinMax.gmax, Qcompare.
  destruct (Z.leb_spec (Qnum a * QDen b) (Qnum b * QDen a)) as [H|H]; simpl.
  - destruct (Z.compare_spec (Qnum b * QDen a) (Qnum a * QDen b)); try reflexivity; lia.
  - destruct (Z.compare_spec (Qnum b * QDen a) (Qnum a * QDen b)); try reflexivity; lia.
Qed.

Lemma drawdownStep_fold (days : list DailyBucket) (c p m : Q) :
  snd (fold_left drawdownStep days (c, p, m))
  = maximumFrom m
      (drawdownSeq (runningPeakFrom p (cumulativeFrom c (map net days)))
         (cumulativeFrom c (map net days))).
Proof.
  revert c p m. induction days as [|d r IH]; intros c p m.
  - reflexivity.
  - cbn [fold_left drawdownStep map cumulativeFrom runningPeakFrom drawdownSeq].
    rewrite !gtb_select_max. rewrite IH. reflexivity.
Qed.

Lemma maximumFrom_ge (l : list Q) (m : Q) : m <= maximumFrom m l.
Proof.
  revert m. induction l as [|a r IH]; intros m; unfold maximumFrom in *; simpl.
  - apply Qle_refl.
  - eapply Qle_trans; [apply Q.le_max_l | apply IH].
Qed.

Lemma drawdown_zero_when_nondecreasing (nets : list Q) (c p m : Q) :
  p == c -> m == 0 -> nonDecreasingFrom c (cumulativeFrom c nets) ->
  maximumFrom m (drawdownSeq (runningPeakFrom p (cumulativeFrom c nets))
                   (cumulativeFrom c nets)) == 0.
Proof.
  revert c p m. induction nets as [|n r IH]; intros c p m Hp Hm Hnd.
  - exact Hm.
  - cbn [cumulativeFrom runningPeakFrom drawdownSeq maximumFrom fold_left] in *.
    destruct Hnd as [Hle Hnd].
    assert (Hpk : Qmax p (c + n) == c + n) by (apply Q.max_r; lra).
    apply IH; [exact Hpk | | exact Hnd].
    destruct (Q.max_spec m (Qmax p (c + n) - (c + n))) as [[_ ->]|[_ ->]]; lra.
Qed.

(** C4, as stated, fails twice: without any day the result is null, not 0; and
    the running peak starts at 0, not at the first cumulative value, so the
    single day of net -5 (a non-decreasing cumulative sequence [-5], stated
    maximum drawdown 0) has maximum drawdown 5. *)
Lemma C4_drawdown_counterexample :
  maxDrawdownOf [] = None
  /\ maxDrawdownOf [] <> Some 0
  /\ nonDecreasing (cumulativeFrom 0 (map net [dayOf 19000 (-5)]))
  /\ statedMaxDrawdown (map net [dayOf 19000 (-5)]) == 0
  /\ (exists m, maxDrawdownOf [dayOf 19000 (-5)] = Some m /\ m == 5 /\ ~ m == 0).
Proof.
  split; [reflexivity|]. split; [discriminate|]. split; [exact I|].
  split; [vm_compute; reflexivity|].
  eexists. split; [vm_compute; reflexivity|].
  split; [vm_compute; reflexivity|].
  intros H. vm_compute in H. discriminate H.
Qed.

(** C4 (amended): the lifetime maxDrawdown is null when there is no active
    day; otherwise it is the maximum over the steps of the running peak of the
    cumulative daily net, the peak starting at the initial 0, minus the current
    cumulative net.  It is never negative, and it is 0 when the cumulative
    daily net never decreases from the initial 0 on.  This holds of every
    sequence of daily buckets, and so of the maxDrawdown that
    [computeLifetimeAnalytics] returns with its daily buckets. *)
Theorem C4_max_drawdown (days : list DailyBucket) :
  (days = [] -> maxDrawdownOf days = None)
  /\ (days <> [] ->
      maxDrawdownOf days = Some (flooredMaxDrawdown (map net days)))
  /\ 0 <= flooredMaxDrawdown (map net days)
  /\ (nonDecreasing (0 :: cumulativeFrom 0 (map net days)) ->
      flooredMaxDrawdown (map net days) == 0)
  /\ (forall activities : list Activity,
        let r := computeLifetimeAnalytics activities in
        (activeDays r = 0%nat -> maxDrawdown r = None)
        /\ (activeDays r <> 0%nat ->
            maxDrawdown r = Some (flooredMaxDrawdown (map net (daily r))))).
Proof.
  split; [|split; [|split; [|split]]].
  - intros ->. reflexivity.
  - intros Hne. unfold maxDrawdownOf, maxDrawdownLoop.
    destruct days as [|d r]; [contradiction|].
    cbn [List.length Nat.ltb Nat.leb]. f_equal. apply drawdownStep_fold.
  - apply maximumFrom_ge.
  - intros Hnd. apply drawdown_zero_when_nondecreasing; [reflexivity | reflexivity | exact Hnd].
  - intros activities. cbn zeta. unfold computeLifetimeAnalytics.
    cbn [activeDays maxDrawdown daily].
    destruct (sortDaily (t_dailyMap (aggregate activities))) as [|d r].
    + split; [reflexivity | intros H; now contradiction H].
    + split; [discriminate|]. intros _. unfold maxDrawdownOf, maxDrawdownLoop.
      cbn [List.length Nat.ltb Nat.leb]. f_equal. apply drawdownStep_fold.
Qed.

(** The worked example: daily net [+10, -5, +3, -12, +4] has maximum
    drawdown 14. *)
Example maxDrawdown_worked_example :
  exists m,
    maxDrawdownOf [dayOf 1 10; dayOf 2 (-5); dayOf 3 3; dayOf 4 (-12); dayOf 5 4] = Some m
    /\ m == 14.
Proof. eexists. split; vm_compute; reflexivity. Qed.

Lemma computeLifetimeAnalytics_statistics (activities : list Activity) :
  let r := computeLifetimeAnalytics activities in
  maxDrawdown r = maxDrawdownOf (daily r)
  /\ profitFactor r = profitFactorOf (daily r)
  /\ sharpeRatio r = sharpeRatioOf (daily r)
  /\ activeDays r = List.length (daily r).
Proof. repeat split. Qed.

(* ------------------------------------------------------------------ *)
(** ** Sums over the daily buckets *)

Definition sumQ (l : list Q) : Q := fold_right Qplus 0 l.

Lemma fold_left_add {A : Type} (f : A -> Q) (l : list A) (a : Q) :
  fold_left (fun sum x => sum + f x) l a == a + sumQ (map f l).
Proof.
  revert a. induction l as [|x r IH]; intros a; simpl.
  - lra.
  - rewrite IH. lra.
Qed.

Lemma sumQ_perm (l1 l2 : list Q) : Permutation l1 l2 -> sumQ l1 == sumQ l2.
Proof.
  induction 1; simpl; try lra.
Qed.

(** The profit days and the loss days of a bucket sequence. *)
Definition profitDays (days : list DailyBucket) : list DailyBucket :=
  filter (fun day => gtb (net day) 0) days.

Definition lossDays (days : list DailyBucket) : list DailyBucket :=
  filter (fun day => ltb (net day) 0) days.

Definition sumProfitDays (days : list DailyBucket) : Q :=
  sumQ (map net (profitDays days)).

Definition sumLossDays (days : list DailyBucket) : Q :=
  sumQ (map (fun day => Qabs (net day)) (lossDays days)).

Lemma totalPositiveOf_sum (days : list DailyBucket) :
  totalPositiveOf days == sumProfitDays days.
Proof.
  unfold totalPositiveOf, sumProfitDays, profitDays. rewrite fold_left_add.
  induction days as [|d r IH]; simpl; [lra|].
  destruct (gtb (net d) 0); simpl; lra.
Qed.

Lemma totalNegativeOf_sum (days : list DailyBucket) :
  totalNegativeOf days == sumLossDays days.
Proof.
  unfold totalNegativeOf, sumLossDays, lossDays. rewrite fold_left_add.
  induction days as [|d r IH]; simpl; [lra|].
  destruct (ltb (net d) 0) eqn:E; simpl; [|lra].
  apply ltb_true in E. rewrite (Qabs_neg (net d)) by lra. lra.
Qed.

Lemma sumLossDays_nonneg (days : list DailyBucket) : 0 <= sumLossDays days.
Proof.
  unfold sumLossDays. induction (lossDays days) as [|d r IH]; simpl; [lra|].
  pose proof (Qabs_nonneg (net d)). lra.
Qed.

Lemma sumLossDays_pos (days : list DailyBucket) :
  0 < sumLossDays days <-> lossDaysOf days <> 0%nat.
Proof.
  unfold sumLossDays, lossDaysOf, lossDays.
  induction days as [|d r IH]; simpl.
  - split; [lra | congruence].
  - destruct (ltb (net d) 0) eqn:E; simpl.
    + apply ltb_true in E. split; [discriminate|]. intros _.
      pose proof (sumLossDays_nonneg r) as Hr. unfold sumLossDays, lossDays in Hr.
      rewrite (Qabs_neg (net d)) by lra. lra.
    + exact IH.
Qed.

Lemma profitFactorOf_spec (days : list DailyBucket) :
  (profitFactorOf days = None <-> lossDaysOf days = 0%nat)
  /\ (lossDaysOf days <> 0%nat ->
      exists pf,
        profitFactorOf days = Some pf
        /\ pf == sumProfitDays days / sumLossDays days).
Proof.
  unfold profitFactorOf.
  destruct (gtb (totalNegativeOf days) 0) eqn:E.
  - apply gtb_true in E. rewrite totalNegativeOf_sum in E.
    pose proof (proj1 (sumLossDays_pos days) E) as Hne.
    split.
    + split; [discriminate | intros H0; contradiction].
    + intros _. eexists. split; [reflexivity|].
      rewrite totalPositiveOf_sum, totalNegativeOf_sum. reflexivity.
  - apply gtb_false in E. rewrite totalNegativeOf_sum in E.
    assert (H0 : lossDaysOf days = 0%nat).
    { destruct (Nat.eq_dec (lossDaysOf days) 0) as [H|H]; [exact H|].
      apply sumLossDays_pos in H. lra. }
    split.
    + split; [intros _; exact H0 | reflexivity].
    + intros Hne. contradiction.
Qed.

(** There is no loss day exactly when no day has a negative net. *)
Lemma lossDaysOf_zero (days : list DailyBucket) :
  lossDaysOf days = 0%nat <-> Forall (fun day => 0 <= net day) days.
Proof.
  unfold lossDaysOf. induction days as [|d r IH]; cbn [filter List.length].
  - split; [constructor | reflexivity].
  - destruct (ltb (net d) 0) eqn:E; cbn [List.length].
    + apply ltb_true in E. split; [discriminate|].
      intros H. inversion H as [|? ? Hd _]; subst. lra.
    + apply ltb_false in E. rewrite IH.
      split; [now constructor | intros H; now inversion H].
Qed.

(** C8: the profitFactor that [computeLifetimeAnalytics] returns is null
    exactly when none of the daily buckets it returns has a negative net;
    when one has, the sum of the absolute net of the negative-net days is
    positive and the profitFactor is the sum of the net of the positive-net
    days divided by it. *)
Theorem C8_profit_factor (activities : list Activity) :
  let r := computeLifetimeAnalytics activities in
  (profitFactor r = None <-> Forall (fun day => 0 <= net day) (daily r))
  /\ (forall day, In day (daily r) -> net day < 0 ->
      0 < sumLossDays (daily r)
      /\ exists pf,
           profitFactor r = Some pf
           /\ pf == sumProfitDays (daily r) / sumLossDays (daily r)).
Proof.
  cbn zeta. unfold computeLifetimeAnalytics. cbn [profitFactor daily].
  set (days := sortDaily (t_dailyMap (aggregate activities))).
  destruct (profitFactorOf_spec days) as [Hnone Hsome].
  split.
  - rewrite Hnone. apply lossDaysOf_zero.
  - intros day Hin Hneg.
    assert (Hne : lossDaysOf days <> 0%nat).
    { intros H0. apply lossDaysOf_zero in H0. rewrite Forall_forall in H0.
      specialize (H0 day Hin). cbn beta in H0. lra. }
    split; [now apply sumLossDays_pos | exact (Hsome Hne)].
Qed.

(** Profit days 10 and 3, loss days -5 and -12: profit factor 13/17. *)
Example profitFactor_worked_example :
  exists pf,
    profitFactorOf [dayOf 1 10; dayOf 2 (-5); dayOf 3 3; dayOf 4 (-12)] = Some pf
    /\ pf == 13 # 17.
Proof. eexists. split; vm_compute; reflexivity. Qed.

(* ------------------------------------------------------------------ *)
(** ** Sharpe ratio *)

Lemma fold_left_pointwise {A B : Type} (f g : A -> B -> A) (l : list B) (a : A) :
  (forall s x, f s x = g s x) -> fold_left f l a = fold_left g l a.
Proof.
  intros Hfg. revert a. induction l as [|x r IH]; intros a; cbn [fold_left]; [reflexivity|].
  rewrite Hfg. apply IH.
Qed.

(** Without rounding the mean and the variance are the exact ones. *)
Lemma sampleMean_exact (days : list DailyBucket) :
  (forall x, fl x = x) ->
  sampleMean days
  = fold_left (fun sum day => sum + net day) days 0 / ofNat (List.length days).
Proof.
  intros Hfl. unfold sampleMean. rewrite Hfl. f_equal.
  apply fold_left_pointwise. intros s x. apply Hfl.
Qed.

Lemma sampleVariance_exact (days : list DailyBucket) :
  (forall x, fl x = x) ->
  sampleVariance days
  = fold_left (fun sum day => sum + (net day - sampleMean days) ^ 2) days 0
    / (ofNat (List.length days) - 1).
Proof.
  intros Hfl. unfold sampleVariance. cbn zeta. rewrite Hfl. f_equal.
  apply fold_left_pointwise. intros s x. now rewrite !Hfl.
Qed.

Lemma sampleMean_sum (days : list DailyBucket) :
  (forall x, fl x = x) ->
  days <> [] ->
  sampleMean days * ofNat (List.length days) == sumQ (map net days).
Proof.
  intros Hfl Hne. rewrite (sampleMean_exact days Hfl). rewrite fold_left_add.
  assert (Hn : ~ ofNat (List.length days) == 0).
  { unfold ofNat, Qeq. simpl. destruct days; [contradiction|]. simpl. lia. }
  field. exact Hn.
Qed.

Lemma sampleVariance_sum (days : list DailyBucket) :
  (forall x, fl x = x) ->
  (2 <= List.length days)%nat ->
  sampleVariance days * (ofNat (List.length days) - 1)
  == sumQ (map (fun day => (net day - sampleMean days) ^ 2) days).
Proof.
  intros Hfl Hlen. rewrite (sampleVariance_exact days Hfl). rewrite fold_left_add.
  assert (Hn : ~ ofNat (List.length days) - 1 == 0).
  { unfold ofNat. intros H.
    assert (H' : inject_Z (Z.of_nat (List.length days)) == 1) by lra.
    unfold Qeq in H'. simpl in H'. lia. }
  field. exact Hn.
Qed.

Lemma sumQ_constant (c : Q) (l : list Q) :
  Forall (fun x => x == c) l -> sumQ l == ofNat (List.length l) * c.
Proof.
  induction 1 as [|x r Hx _ IH]; unfold sumQ, ofNat in *; cbn [fold_right List.length].
  - change (inject_Z (Z.of_nat 0)) with 0. lra.
  - rewrite IH, Hx, Nat2Z.inj_succ, <- Z.add_1_r, inject_Z_plus.
    change (inject_Z 1) with 1. lra.
Qed.

Lemma sumQ_zero (l : list Q) : Forall (fun x => x == 0) l -> sumQ l == 0.
Proof.
  intros H. rewrite (sumQ_constant 0 l H). lra.
Qed.

(** C7 (amended): the sharpeRatio that [computeLifetimeAnalytics] returns is
    null with fewer than two active days.  Otherwise it is computed in
    floating point from the sample mean and the sample standard deviation
    (denominator n - 1) of the daily net: it is null when the computed
    deviation is not above 0, which for a [Math.sqrt] that is never negative
    is when it is 0, and it is (mean / stdev) * sqrt(365) when it is above.
    Without rounding the mean and the variance are the exact ones, and a
    constant sequence gives null; with rounding it need not (see the
    counterexample). *)
Theorem C7_sharpe_ratio (activities : list Activity) :
  let r := computeLifetimeAnalytics activities in
  let days := daily r in
  let n := activeDays r in
  let mean := sampleMean days in
  let stdev := sqrt (sampleVariance days) in
  ((n < 2)%nat -> sharpeRatio r = None)
  /\ ((2 <= n)%nat ->
      (stdev <= 0 -> sharpeRatio r = None)
      /\ (0 < stdev -> sharpeRatio r = Some (fl (fl (mean / stdev) * sqrt 365)))
      /\ ((forall x, 0 <= sqrt x) -> (sharpeRatio r = None <-> stdev == 0)))
  /\ ((forall x, fl x = x) ->
      (2 <= n)%nat ->
      mean * ofNat n == sumQ (map net days)
      /\ sampleVariance days * (ofNat n - 1)
         == sumQ (map (fun day => (net day - mean) ^ 2) days)
      /\ ((forall x, x == 0 -> sqrt x == 0) ->
          forall c, Forall (fun day => net day == c) days -> sharpeRatio r = None)).
Proof.
  cbn zeta. unfold computeLifetimeAnalytics. cbn [sharpeRatio daily activeDays].
  set (days := sortDaily (t_dailyMap (aggregate activities))).
  set (stdev := sqrt (sampleVariance days)).
  assert (Hlow : stdev <= 0 -> (2 <= List.length days)%nat -> sharpeRatioOf days = None).
  { intros Hle Hlen. unfold sharpeRatioOf.
    destruct (Nat.leb_spec 2 (List.length days)) as [H|H]; [|lia].
    fold stdev. assert (E : gtb stdev 0 = false) by now apply gtb_false.
    now rewrite E. }
  assert (Hhigh : 0 < stdev -> (2 <= List.length days)%nat ->
                  sharpeRatioOf days
                  = Some (fl (fl (sampleMean days / stdev) * sqrt 365))).
  { intros Hlt Hlen. unfold sharpeRatioOf.
    destruct (Nat.leb_spec 2 (List.length days)) as [H|H]; [|lia].
    fold stdev. assert (E : gtb stdev 0 = true) by now apply gtb_true.
    now rewrite E. }
  split; [|split].
  - intros Hlt. unfold sharpeRatioOf.
    destruct (Nat.leb_spec 2 (List.length days)) as [H|H]; [lia | reflexivity].
  - intros Hlen. split; [auto|]. split; [auto|].
    intros Hnonneg. pose proof (Hnonneg (sampleVariance days)) as Hge. fold stdev in Hge.
    split.
    + intros Hnone. destruct (Qlt_le_dec 0 stdev) as [Hlt|Hle]; [|lra].
      rewrite (Hhigh Hlt Hlen) in Hnone. discriminate Hnone.
    + intros H0. apply Hlow; [lra | exact Hlen].
  - intros Hfl Hlen.
    assert (Hne : days <> []) by (destruct days; [cbn in Hlen; lia | discriminate]).
    pose proof (sampleMean_sum days Hfl Hne) as Hmean.
    pose proof (sampleVariance_sum days Hfl Hlen) as Hvar.
    split; [exact Hmean|]. split; [exact Hvar|].
    intros Hzero c Hconst.
    assert (Hn : 0 < ofNat (List.length days)).
    { unfold ofNat. change 0 with (inject_Z 0). rewrite <- Zlt_Qlt. lia. }
    assert (Hc : sampleMean days == c).
    { assert (Hs : sumQ (map net days) == ofNat (List.length days) * c).
      { rewrite <- (length_map net days). apply sumQ_constant.
        rewrite Forall_map. exact Hconst. }
      rewrite Hs in Hmean.
      assert (E : (sampleMean days - c) * ofNat (List.length days) == 0) by lra.
      apply Qmult_integral in E. destruct E as [E|E]; lra. }
    assert (Hv : sampleVariance days == 0).
    { assert (Hs : sumQ (map (fun day => (net day - sampleMean days) ^ 2) days) == 0).
      { apply sumQ_zero. rewrite Forall_map. rewrite Forall_forall in *.
        intros day Hin. specialize (Hconst day Hin). cbn beta in *.
        rewrite Hconst, Hc. cbn. lra. }
      rewrite Hs in Hvar.
      assert (Hd : 1 < ofNat (List.length days)).
      { unfold ofNat. change 1 with (inject_Z 1). rewrite <- Zlt_Qlt. lia. }
      apply Qmult_integral in Hvar. destruct Hvar as [E|E]; lra. }
    apply Hlow; [|exact Hlen]. unfold stdev. rewrite (Hzero _ Hv). lra.
Qed.

(* ------------------------------------------------------------------ *)
(** ** Net PnL against the daily buckets *)

Definition bucketSum (dailyMap : list (string * DailyBucket)) : Q :=
  sumQ (map net (mapValues dailyMap)).

(** What an event adds to the totals without adding it to any bucket. *)
Definition unbucketedDelta (activity : Activity) : Q :=
  if gtb (parseNumber (a_timestamp activity)) 0 then 0
  else getActivityNetDelta activity.

(** The events whose timestamp parses to a non-positive number. *)
Definition undatedEvents (activities : list Activity) : list Activity :=
  filter (fun a => negb (gtb (parseNumber (a_timestamp a)) 0)) activities.

Lemma bucketSum_mapSet (dailyMap : list (string * DailyBucket)) (d : string) (delta : Q) :
  bucketSum (mapSet String.eqb d (addToBucket (bucketFor dailyMap d) delta) dailyMap)
  == bucketSum dailyMap + delta.
Proof.
  unfold bucketSum, mapValues, bucketFor.
  induction dailyMap as [|[k v] r IH]; simpl.
  - lra.
  - destruct (String.eqb d k) eqn:E; simpl.
    + lra.
    + rewrite IH. lra.
Qed.

Lemma aggregateStep_netPnl (st : Totals) (activity : Activity) (u : Q) :
  t_netPnl st == bucketSum (t_dailyMap st) + u ->
  t_netPnl (aggregateStep st activity)
  == bucketSum (t_dailyMap (aggregateStep st activity)) + (u + unbucketedDelta activity).
Proof.
  intros Hinv. unfold aggregateStep, unbucketedDelta.
  destruct (truthy (getActivityNetDelta activity)) eqn:Et; simpl.
  - destruct (gtb (parseNumber (a_timestamp activity)) 0); simpl.
    + rewrite bucketSum_mapSet. lra.
    + lra.
  - apply truthy_false in Et.
    destruct (gtb (parseNumber (a_timestamp activity)) 0); lra.
Qed.

Lemma aggregate_fold_netPnl (l : list Activity) (st : Totals) (u : Q) :
  t_netPnl st == bucketSum (t_dailyMap st) + u ->
  t_netPnl (fold_left aggregateStep l st)
  == bucketSum (t_dailyMap (fold_left aggregateStep l st))
     + (u + sumQ (map unbucketedDelta l)).
Proof.
  revert st u. induction l as [|a r IH]; intros st u Hinv; simpl.
  - lra.
  - rewrite (IH _ _ (aggregateStep_netPnl st a u Hinv)). lra.
Qed.

Lemma unbucketed_sum (l : list Activity) :
  sumQ (map unbucketedDelta l) == sumQ (map getActivityNetDelta (undatedEvents l)).
Proof.
  unfold undatedEvents. induction l as [|a r IH]; simpl; [lra|].
  unfold unbucketedDelta at 1.
  destruct (gtb (parseNumber (a_timestamp a)) 0); simpl; lra.
Qed.

Lemma undated_sum_zero (l : list Activity) :
  Forall (fun a => ~ getActivityNetDelta a == 0 -> 0 < parseNumber (a_timestamp a)) l ->
  sumQ (map getActivityNetDelta (undatedEvents l)) == 0.
Proof.
  unfold undatedEvents. induction 1 as [|a r Ha _ IH]; simpl; [lra|].
  destruct (gtb (parseNumber (a_timestamp a)) 0) eqn:E; simpl; [exact IH|].
  apply gtb_false in E.
  destruct (Qeq_dec (getActivityNetDelta a) 0) as [H0|Hn]; [lra|].
  specialize (Ha Hn). lra.
Qed.

Lemma sortDaily_sum (dailyMap : list (string * DailyBucket)) :
  sumQ (map net (sortDaily dailyMap)) == bucketSum dailyMap.
Proof.
  unfold sortDaily, bucketSum. apply sumQ_perm, Permutation_map.
  symmetry. apply sortWith_perm.
Qed.


(** C10 (amended): an event whose timestamp parses to a non-positive number
    still contributes its non-zero delta to totalProfit or totalLoss and to
    netPnl, and is placed in no daily bucket.  Consequently netPnl exceeds the
    sum of the daily nets by the sum of the deltas of those events: the two
    are equal when every contributing event has a positive timestamp, and
    differ exactly when the deltas of the events without one do not cancel. *)
Theorem C10_undated_events (activities : list Activity) :
  let r := computeLifetimeAnalytics activities in
  let undated := sumQ (map getActivityNetDelta (undatedEvents activities)) in
  (forall (st : Totals) (a : Activity),
      ~ getActivityNetDelta a == 0 ->
      parseNumber (a_timestamp a) <= 0 ->
      let st1 := aggregateStep st a in
      t_dailyMap st1 = t_dailyMap st
      /\ t_netPnl st1 = t_netPnl st + getActivityNetDelta a
      /\ (0 < getActivityNetDelta a ->
          t_totalProfit st1 = t_totalProfit st + getActivityNetDelta a
          /\ t_totalLoss st1 = t_totalLoss st)
      /\ (getActivityNetDelta a < 0 ->
          t_totalProfit st1 = t_totalProfit st
          /\ t_totalLoss st1 = t_totalLoss st + Qabs (getActivityNetDelta a)))
  /\ netPnl r == sumQ (map net (daily r)) + undated
  /\ (Forall (fun a => ~ getActivityNetDelta a == 0 -> 0 < parseNumber (a_timestamp a))
        activities ->
      netPnl r == sumQ (map net (daily r)))
  /\ (netPnl r == sumQ (map net (daily r)) <-> undated == 0).
Proof.
  intros r undated.
  assert (Hnet : netPnl r == sumQ (map net (daily r)) + undated).
  { unfold r, undated, computeLifetimeAnalytics. cbn [netPnl daily].
    rewrite sortDaily_sum. unfold aggregate.
    rewrite (aggregate_fold_netPnl (sortActivities activities) _ 0)
      by (unfold bucketSum; simpl; lra).
    rewrite <- unbucketed_sum.
    rewrite (sumQ_perm (map unbucketedDelta (sortActivities activities))
               (map unbucketedDelta activities)).
    - lra.
    - apply Permutation_map. symmetry. apply sortByKey_perm. }
  split; [|split; [exact Hnet|split]].
  - intros st a Hnz Hts. unfold aggregateStep.
    assert (Et : truthy (getActivityNetDelta a) = true) by now apply truthy_true.
    assert (Eg : gtb (parseNumber (a_timestamp a)) 0 = false) by now apply gtb_false.
    rewrite Et, Eg. cbn [negb t_dailyMap t_netPnl t_totalProfit t_totalLoss].
    split; [reflexivity|]. split; [reflexivity|]. split.
    + intros Hpos. apply gtb_true in Hpos. rewrite Hpos. split; reflexivity.
    + intros Hneg. assert (E : gtb (getActivityNetDelta a) 0 = false)
        by (apply gtb_false; lra).
      rewrite E. split; reflexivity.
  - intros Hall. rewrite Hnet. unfold undated. rewrite (undated_sum_zero _ Hall). lra.
  - rewrite Hnet. split; intros H; lra.
Qed.

End Lifetime.

(* ------------------------------------------------------------------ *)
(** ** The aggregator on the stand-ins *)

(** A reward of 5 and a fee of 5, both without a usable timestamp. *)
Definition undatedPair : list Activity :=
  [cashFlow "REWARD" 5 0; cashFlow "FEE" 5 0].

(** C10, as stated, fails in its last part: netPnl can equal the sum of the
    daily nets although contributing events have a non-positive timestamp,
    when their deltas cancel.  The reward +5 and the fee -5 at timestamp 0
    both enter totalProfit and totalLoss, no bucket is made, and
    netPnl = 0 = the empty sum. *)
Lemma C10_cancelling_counterexample :
  let r := computeLifetimeAnalytics sqrtApprox exactly isoDateUtc codeUnitCompare
             undatedPair in
  daily r = []
  /\ totalProfit r == 5 /\ totalLoss r == 5
  /\ netPnl r == sumQ (map net (daily r))
  /\ ~ Forall (fun a => ~ getActivityNetDelta a == 0 -> 0 < parseNumber (a_timestamp a))
         undatedPair.
Proof.
  cbv zeta. split; [vm_compute; reflexivity|].
  split; [vm_compute; reflexivity|]. split; [vm_compute; reflexivity|].
  split; [vm_compute; reflexivity|].
  intros H. inversion H as [|a l Ha _]; subst.
  assert (Hn : ~ getActivityNetDelta (cashFlow "REWARD" 5 0) == 0)
    by (intros E; vm_compute in E; discriminate E).
  specialize (Ha Hn). vm_compute in Ha. discriminate Ha.
Qed.

(** The double written 0.1. *)
Definition tenth : Q := 3602879701896397 # 36028797018963968.

(** Three rewards of 0.1 on three days in a row. *)
Definition tenthDays : list Activity :=
  [cashFlow "REWARD" tenth 1700000000; cashFlow "REWARD" tenth 1700086400;
   cashFlow "REWARD" tenth 1700172800].

(** C7, as stated, fails in doubles: three days of net 0.1 form a constant
    sequence, whose standard deviation is 0, yet the sharpeRatio is not null.
    The rounded sum 0.30000000000000004 gives the mean 0.10000000000000002,
    the computed deviation is about 1.7e-17 and the ratio about 1.12e17.  In
    exact arithmetic the same days give null. *)
Lemma C7_rounding_counterexample :
  let r := computeLifetimeAnalytics sqrtBinary64 roundBinary64 isoDateUtc codeUnitCompare
             tenthDays in
  map date (daily r) = ["2023-11-14"; "2023-11-15"; "2023-11-16"]%string
  /\ Forall (fun day => net day == tenth) (daily r)
  /\ tenth == roundBinary64 (1 # 10)
  /\ sumQ (map (fun day => (net day - tenth) ^ 2) (daily r)) == 0
  /\ sampleMean roundBinary64 (daily r) == 7205759403792795 # 72057594037927936
  /\ (exists s, sharpeRatio r = Some s /\ s == 112403687761722272)
  /\ sharpeRatio (computeLifetimeAnalytics sqrtApprox exactly isoDateUtc codeUnitCompare
                    tenthDays) = None.
Proof.
  cbv zeta. split; [vm_compute; reflexivity|].
  split; [vm_compute; repeat constructor|].
  split; [vm_compute; reflexivity|]. split; [vm_compute; reflexivity|].
  split; [vm_compute; reflexivity|].
  split; [eexists; split; vm_compute; reflexivity | vm_compute; reflexivity].
Qed.
(* ------------------------------------------------------------------ *)
(** ** Activity collector: records, keys and the range filter *)

(** One record of an upstream page. *)
Record RawItem : Type := mkRawItem {
  r_id : string;
  r_title : string;
  r_slug : string;
  r_eventSlug : string;
  r_side : option string;
  r_outcome : string;
  r_asset : string;
  r_market : string;
  r_price : JsNumeric;
  r_size : JsNumeric;
  r_usdcSize : JsNumeric;
  r_timestamp : JsNumeric;
  r_transactionHash : string
}.

(** [normalizeTimestampSeconds] *)
Definition normalizeTimestampSeconds (ts : Q) : Q :=
  if geb ts 1000000000000 then inject_Z (Qfloor (ts / 1000)) else inject_Z (Qfloor ts).

Definition getActivityTimestampSeconds (item : RawItem) : option Q :=
  let raw := parseNumber (r_timestamp item) in
  if negb (truthy raw) then None else Some (normalizeTimestampSeconds raw).

Definition getOldestTimestampSeconds (items : list RawItem) : option Q :=
  fold_left
    (fun oldest item =>
       match getActivityTimestampSeconds item with
       | None => oldest
       | Some ts =>
           match oldest with
           | None => Some ts
           | Some o => if ltb ts o then Some ts else Some o
           end
       end)
    items None.

Definition isTimestampInRange (ts startTs endTs : option Q) : bool :=
  match ts with
  | None => false
  | Some t =>
      match startTs with
      | Some s => if ltb t s then false else
                    match endTs with
                    | Some e => negb (gtb t e)
                    | None => true
                    end
      | None =>
          match endTs with
          | Some e => negb (gtb t e)
          | None => true
          end
      end
  end.

Definition isSpace (c : ascii) : bool :=
  let n := nat_of_ascii c in
  ((Nat.leb 9 n && Nat.leb n 13) || Nat.eqb n 32)%bool.

Fixpoint trimStart (s : string) : string :=
  match s with
  | String c r => if isSpace c then trimStart r else s
  | EmptyString => EmptyString
  end.

Fixpoint trimEnd (s : string) : string :=
  match s with
  | EmptyString => EmptyString
  | String c r =>
      match trimEnd r with
      | EmptyString => if isSpace c then EmptyString else String c EmptyString
      | r' => String c r'
      end
  end.

(** [slug?.trim().toLowerCase()] *)
Definition slugFilterOf (slug : option string) : string :=
  match slug with
  | Some s => toLowerCase (trimEnd (trimStart s))
  | None => EmptyString
  end.

(** The page filter of both collectors: the closed range, then the slug. *)
Definition acceptItem (slugFilter : string) (startTs endTs : option Q) (item : RawItem) : bool :=
  if negb (isTimestampInRange (getActivityTimestampSeconds item) startTs endTs) then false
  else if negb (isEmpty slugFilter) then
    includes slugFilter
      (toLowerCase (r_slug item ++ " " ++ r_eventSlug item ++ " " ++ r_title item))
  else true.

(** The timestamps of the records of a page that carry one. *)
Definition timestampsOf (items : list RawItem) : list Q :=
  flat_map (fun item => match getActivityTimestampSeconds item with
                        | Some ts => [ts]
                        | None => []
                        end) items.

Lemma getOldest_fold (items : list RawItem) (start : option Q) :
  let r := fold_left
             (fun oldest item =>
                match getActivityTimestampSeconds item with
                | None => oldest
                | Some ts =>
                    match oldest with
                    | None => Some ts
                    | Some o => if ltb ts o then Some ts else Some o
                    end
                end) items start in
  match r with
  | None => start = None /\ timestampsOf items = []
  | Some o =>
      (start = Some o \/ In o (timestampsOf items))
      /\ (forall s, start = Some s -> o <= s)
      /\ Forall (fun ts => o <= ts) (timestampsOf items)
  end.
Proof.
  revert start. induction items as [|item r IH]; intros start; cbn [fold_left].
  - cbn zeta. destruct start as [s|]; cbn.
    + split; [now left|]. split; [intros s' [= <-]; apply Qle_refl | constructor].
    + split; reflexivity.
  - unfold timestampsOf. cbn [flat_map]. fold (timestampsOf r).
    destruct (getActivityTimestampSeconds item) as [ts|]; cbn [app].
    2: { apply IH. }
    destruct start as [s|].
    + destruct (ltb ts s) eqn:E.
      * apply ltb_true in E. specialize (IH (Some ts)). cbn zeta in IH.
        destruct (fold_left _ r (Some ts)) as [o|].
        -- destruct IH as (Hin & Hle & Hall).
           specialize (Hle ts eq_refl).
           split; [destruct Hin as [[= <-]|Hin]; right; [now left | now right]|].
           split; [intros s' [= <-]; lra|].
           constructor; [exact Hle | exact Hall].
        -- destruct IH as [H _]. discriminate H.
      * apply ltb_false in E. specialize (IH (Some s)). cbn zeta in IH.
        destruct (fold_left _ r (Some s)) as [o|].
        -- destruct IH as (Hin & Hle & Hall).
           specialize (Hle s eq_refl).
           split; [destruct Hin as [Hin|Hin]; [now left | right; now right]|].
           split; [intros s' [= <-]; exact Hle|].
           constructor; [lra | exact Hall].
        -- destruct IH as [H _]. discriminate H.
    + specialize (IH (Some ts)). cbn zeta in IH.
      destruct (fold_left _ r (Some ts)) as [o|].
      * destruct IH as (Hin & Hle & Hall). specialize (Hle ts eq_refl).
        split; [destruct Hin as [[= <-]|Hin]; right; [now left | now right]|].
        split; [intros s' H; discriminate H|].
        constructor; [exact Hle | exact Hall].
      * destruct IH as [H _]. discriminate H.
Qed.

Lemma getOldestTimestampSeconds_minimum_aux (items : list RawItem) :
  match getOldestTimestampSeconds items with
  | None => timestampsOf items = []
  | Some o => In o (timestampsOf items) /\ Forall (fun ts => o <= ts) (timestampsOf items)
  end.
Proof.
  unfold getOldestTimestampSeconds.
  pose proof (getOldest_fold items None) as H. cbn zeta in H.
  destruct (fold_left _ items None) as [o|].
  - destruct H as ([H|H] & _ & Hall); [discriminate H|]. split; assumption.
  - exact (proj2 H).
Qed.
Section Collector.

(** The text of a value inside a template literal: of a number, its decimal
    text; of a missing value, the word null or undefined. *)
Variable showNumeric : JsNumeric -> string.

(** The upstream feed: the page answered to the n-th request for an offset
    and a limit; [None] when the answer is not an array. *)
Variable feed : nat -> nat -> nat -> option (list RawItem).

Variable ACTIVITY_RANGE_BATCH_SIZE : nat.
Variable ACTIVITY_RANGE_MAX_EVENTS : nat.

Definition showOrEmpty (v : JsNumeric) : string :=
  match v with
  | JNullish => EmptyString
  | _ => showNumeric v
  end.

(** The missing timestamp of a record without id and hash is rendered by
    [showNumeric] as the template literal renders it. *)
Definition mapActivityItem (item : RawItem) (address : string) : TradeActivity :=
  {| id := orStr (r_id item)
             (orStr (r_transactionHash item) (showNumeric (r_timestamp item)));
     userAddress := address;
     title := orStr (r_title item) (orStr (r_slug item) (r_asset item));
     slug := r_slug item;
     eventSlug := r_eventSlug item;
     side := r_side item;
     outcome := r_outcome item;
     asset := r_asset item;
     market := r_market item;
     price := r_price item;
     size := r_size item;
     usdcSize := r_usdcSize item;
     timestamp := r_timestamp item;
     transactionHash := r_transactionHash item |}.

(** [getTradeKey] of the dashboard: the id, else the transaction hash, else
    the address, the timestamp and the notional. *)
Definition getTradeKey (trade : TradeActivity) : string :=
  orStr (id trade)
    (orStr (transactionHash trade)
       (userAddress trade ++ "-" ++ showOrEmpty (timestamp trade) ++ "-"
        ++ showOrEmpty (usdcSize trade))%string).

(** The [seenIds] filter of the dashboard loops over one batch. *)
Fixpoint dedupBatch (seenIds : list string) (batch : list TradeActivity)
    : list string * list TradeActivity :=
  match batch with
  | [] => (seenIds, [])
  | trade :: r =>
      let key := getTradeKey trade in
      if setHas seenIds key then dedupBatch seenIds r
      else
        let '(seen1, fresh) := dedupBatch (key :: seenIds) r in
        (seen1, trade :: fresh)
  end.

(** [trades.push(...fresh)] over the batches of a run. *)
Definition collectFresh (resumeKeys : list string) (batches : list (list TradeActivity))
    : list string * list TradeActivity :=
  fold_left
    (fun acc batch =>
       let '(seen1, fresh) := dedupBatch (fst acc) batch in
       (seen1, snd acc ++ fresh))
    batches (resumeKeys, []).

(* ------------------------------------------------------------------ *)
(** ** Activity collector: [fetchActivityByUserWithRange] *)

Record ActivityRangeParams : Type := mkParams {
  p_address : string;
  p_limit : nat;
  p_slug : option string;
  p_offset : nat;
  p_startTs : option Q;
  p_endTs : option Q
}.

Inductive StopReason : Type :=
| StopEmpty | StopEnd | StopEmptyWindow | StopPastStart | StopLimit.

Record ActivityRangeResult : Type := mkResult {
  trades : list TradeActivity;
  nextOffset : nat;
  exhausted : bool;
  stopReason : StopReason;
  pagesFetched : nat
}.

(** The variables of the collection loop; [ls_pages] counts the requests. *)
Record LoopState : Type := mkLoop {
  ls_trades : list TradeActivity;
  ls_currentOffset : nat;
  ls_consecutiveEmpty : nat;
  ls_pages : nat
}.

Definition MAX_CONSECUTIVE_EMPTY : nat := 25.

Definition maxEventsOf (params : ActivityRangeParams) : nat :=
  Nat.min (Nat.max (p_limit params) 1) ACTIVITY_RANGE_MAX_EVENTS.

Definition batchLimitOf (params : ActivityRangeParams) (st : LoopState) : nat :=
  Nat.min ACTIVITY_RANGE_BATCH_SIZE (maxEventsOf params - List.length (ls_trades st)).

(** [oldest !== null && oldest < startTs] under [startTs] being set. *)
Definition pastStart (startTs : option Q) (data : list RawItem) : bool :=
  match startTs with
  | Some s =>
      match getOldestTimestampSeconds data with
      | Some oldest => ltb oldest s
      | None => false
      end
  | None => false
  end.

Definition stopWith (offset pages : nat) (tr : list TradeActivity)
    (ex : bool) (why : StopReason) : ActivityRangeResult :=
  {| trades := tr; nextOffset := offset; exhausted := ex; stopReason := why;
     pagesFetched := pages |}.

(** The records of a page that pass the filter, mapped and cut at the cap. *)
Definition pushedFrom (params : ActivityRangeParams) (st : LoopState) (data : list RawItem)
    : list TradeActivity :=
  firstn (maxEventsOf params - List.length (ls_trades st))
    (map (fun item => mapActivityItem item (p_address params))
       (filter (acceptItem (slugFilterOf (p_slug params)) (p_startTs params) (p_endTs params))
          data)).

(** One pass through the body of the [while] loop, entered with
    [trades.length < maxEvents]: either the loop breaks with a result or it
    goes on with new variables. *)
Definition collectStep (params : ActivityRangeParams) (st : LoopState)
    : ActivityRangeResult + LoopState :=
  let batchLimit := batchLimitOf params st in
  let pages := S (ls_pages st) in
  match feed (ls_pages st) (ls_currentOffset st) batchLimit with
  | None => inl (stopWith (ls_currentOffset st) pages (ls_trades st) true StopEmpty)
  | Some data =>
      if (List.length data =? 0)%nat then
        inl (stopWith (ls_currentOffset st) pages (ls_trades st) true StopEmpty)
      else
        let filtered :=
          filter (acceptItem (slugFilterOf (p_slug params)) (p_startTs params) (p_endTs params))
            data in
        let trades1 := ls_trades st ++ pushedFrom params st data in
        let consecutiveEmpty :=
          if (List.length filtered =? 0)%nat then S (ls_consecutiveEmpty st) else O in
        let currentOffset := (ls_currentOffset st + List.length data)%nat in
        if (List.length data <? batchLimit)%nat then
          inl (stopWith currentOffset pages trades1 true StopEnd)
        else if (MAX_CONSECUTIVE_EMPTY <=? consecutiveEmpty)%nat then
          inl (stopWith currentOffset pages trades1 true StopEmptyWindow)
        else if pastStart (p_startTs params) data then
          inl (stopWith currentOffset pages trades1 true StopPastStart)
        else
          inr {| ls_trades := trades1; ls_currentOffset := currentOffset;
                 ls_consecutiveEmpty := consecutiveEmpty; ls_pages := pages |}
  end.

(** The [while (trades.length < maxEvents)] loop, at most [fuel] passes. *)
Fixpoint collectLoop (fuel : nat) (params : ActivityRangeParams) (st : LoopState)
    : option ActivityRangeResult :=
  if (List.length (ls_trades st) <? maxEventsOf params)%nat then
    match fuel with
    | O => None
    | S fuel1 =>
        match collectStep params st with
        | inl result => Some result
        | inr st1 => collectLoop fuel1 params st1
        end
    end
  else
    Some (stopWith (ls_currentOffset st) (ls_pages st) (ls_trades st) false StopLimit).

Definition fetchActivityByUserWithRange (fuel : nat) (params : ActivityRangeParams)
    : option ActivityRangeResult :=
  collectLoop fuel params
    {| ls_trades := []; ls_currentOffset := p_offset params;
       ls_consecutiveEmpty := 0; ls_pages := 0 |}.

End Collector.

(* ------------------------------------------------------------------ *)
(** ** Deduplication in the dashboard loops *)

Section Dedup.
Variable showNumeric : JsNumeric -> string.

Let keyOf := getTradeKey showNumeric.

Lemma dedupBatch_spec (batch : list TradeActivity) (seenIds : list string) :
  let r := dedupBatch showNumeric seenIds batch in
  NoDup (map keyOf (snd r))
  /\ (forall k, In k (map keyOf (snd r)) -> ~ In k seenIds)
  /\ (forall k, In k (fst r) <-> In k seenIds \/ In k (map keyOf (snd r))).
Proof.
  revert seenIds. induction batch as [|t r IH]; intros seenIds; simpl.
  - split; [constructor|]. split; [intros k []|]. intros k. tauto.
  - destruct (setHas seenIds (getTradeKey showNumeric t)) eqn:E.
    + apply IH.
    + specialize (IH (getTradeKey showNumeric t :: seenIds)).
      destruct (dedupBatch showNumeric (getTradeKey showNumeric t :: seenIds) r)
        as [seen1 fresh].
      simpl in *. destruct IH as (Hnd & Hnew & Hseen).
      assert (Hnot : ~ In (getTradeKey showNumeric t) seenIds).
      { intros Hin. apply setHas_In in Hin. congruence. }
      split; [|split].
      * constructor; [|exact Hnd]. intros Hin. apply (Hnew _ Hin). now left.
      * intros k [Hk|Hk]; [now subst k|]. intros Hin. apply (Hnew _ Hk). now right.
      * intros k. rewrite Hseen. unfold keyOf. tauto.
Qed.

(** Whatever the batches, the trades kept by the [seenIds] filter have
    pairwise distinct keys, none of them among the keys resumed from. *)
Lemma collectFresh_NoDup (resumeKeys : list string) (batches : list (list TradeActivity)) :
  let r := collectFresh showNumeric resumeKeys batches in
  NoDup (map keyOf (snd r))
  /\ (forall k, In k (map keyOf (snd r)) -> ~ In k resumeKeys).
Proof.
  unfold collectFresh.
  assert (G : forall acc : list string * list TradeActivity,
             NoDup (map keyOf (snd acc)) ->
             (forall k, In k (map keyOf (snd acc)) -> In k (fst acc) /\ ~ In k resumeKeys) ->
             (forall k, In k resumeKeys -> In k (fst acc)) ->
             let r := fold_left
                        (fun acc batch =>
                           let '(seen1, fresh) := dedupBatch showNumeric (fst acc) batch in
                           (seen1, snd acc ++ fresh))
                        batches acc in
             NoDup (map keyOf (snd r))
             /\ (forall k, In k (map keyOf (snd r)) -> ~ In k resumeKeys)).
  { induction batches as [|b rest IH]; intros [seen acc] Hnd Hin Hres; simpl in *.
    - split; [exact Hnd | intros k Hk; now apply Hin].
    - pose proof (dedupBatch_spec b seen) as Hspec.
      destruct (dedupBatch showNumeric seen b) as [seen1 fresh].
      simpl in Hspec. destruct Hspec as (Hf & Hnew & Hseen).
      apply IH; simpl.
      + rewrite map_app. apply NoDup_app; [exact Hnd | exact Hf |].
        intros k Hk Hk'. apply (Hnew _ Hk'). now apply Hin.
      + intros k. rewrite map_app, in_app_iff. intros [Hk|Hk].
        * split; [apply Hseen; left; now apply Hin | now apply Hin].
        * split; [apply Hseen; now right|].
          intros Hr. apply (Hnew _ Hk). now apply Hres.
      + intros k Hk. apply Hseen. left. now apply Hres. }
  apply G; simpl; [constructor | intros k [] | auto].
Qed.

End Dedup.

(** The loop's test against [startTs] succeeds exactly when a record of the
    page carries a timestamp before [startTs]: the oldest timestamp of the
    page is then before it. *)
Lemma pastStart_spec (startTs : option Q) (data : list RawItem) :
  pastStart startTs data = true
  <-> exists s t, startTs = Some s /\ In t (timestampsOf data) /\ t < s.
Proof.
  unfold pastStart. destruct startTs as [s|].
  - pose proof (getOldestTimestampSeconds_minimum_aux data) as H.
    destruct (getOldestTimestampSeconds data) as [o|].
    + destruct H as [Hin Hall]. rewrite ltb_true. split.
      * intros Hlt. exists s, o. auto.
      * intros (s' & t & [= <-] & Ht & Hlt). rewrite Forall_forall in Hall.
        specialize (Hall t Ht). cbn beta in Hall. lra.
    + split; [discriminate|]. intros (s' & t & _ & Ht & _). rewrite H in Ht. destruct Ht.
  - split; [discriminate|]. intros (s' & t & Hs & _). discriminate Hs.
Qed.

(* ------------------------------------------------------------------ *)
(** ** Stop conditions of the offset-mode collector *)

Section CollectorStops.
Variable showNumeric : JsNumeric -> string.
Variable feed : nat -> nat -> nat -> option (list RawItem).
Variable BATCH MAXEV : nat.

Let step := collectStep showNumeric feed BATCH MAXEV.
Let loop := collectLoop showNumeric feed BATCH MAXEV.
Let limitOf := batchLimitOf BATCH MAXEV.
Let pushed := pushedFrom showNumeric MAXEV.

Lemma pushedFrom_length (params : ActivityRangeParams) (st : LoopState) (data : list RawItem) :
  (List.length (pushed params st data) <= List.length data)%nat.
Proof.
  unfold pushed, pushedFrom. rewrite List.length_firstn, List.length_map.
  pose proof (filter_length_le
                (acceptItem (slugFilterOf (p_slug params)) (p_startTs params) (p_endTs params))
                data).
  lia.
Qed.

(** A page that is missing, empty, shorter than requested or reaching past
    [startTs] ends the pass with [exhausted = true]. *)
Lemma collectStep_stops (params : ActivityRangeParams) (st : LoopState) :
  match feed (ls_pages st) (ls_currentOffset st) (limitOf params st) with
  | None => True
  | Some data =>
      List.length data = 0%nat
      \/ (List.length data < limitOf params st)%nat
      \/ pastStart (p_startTs params) data = true
  end ->
  exists r,
    step params st = inl r
    /\ exhausted r = true
    /\ pagesFetched r = S (ls_pages st).
Proof.
  unfold step, collectStep, limitOf.
  destruct (feed (ls_pages st) (ls_currentOffset st) (batchLimitOf BATCH MAXEV params st))
    as [data|]; intros H.
  - destruct (Nat.eqb_spec (List.length data) 0) as [E0|E0].
    + eexists. repeat split.
    + destruct (Nat.ltb_spec (List.length data) (batchLimitOf BATCH MAXEV params st)).
      * eexists. repeat split.
      * match goal with
        | |- context [(MAX_CONSECUTIVE_EMPTY <=? ?c)%nat] =>
            destruct (MAX_CONSECUTIVE_EMPTY <=? c)%nat
        end.
        -- eexists. repeat split.
        -- destruct H as [H|[H|H]]; [lia | lia |]. rewrite H. eexists. repeat split.
  - eexists. repeat split.
Qed.

Lemma collectStep_short (params : ActivityRangeParams) (st : LoopState) (data : list RawItem) :
  feed (ls_pages st) (ls_currentOffset st) (limitOf params st) = Some data ->
  List.length data <> 0%nat ->
  (List.length data < limitOf params st)%nat ->
  step params st
  = inl (stopWith (ls_currentOffset st + List.length data) (S (ls_pages st))
           (ls_trades st ++ pushed params st data) true StopEnd).
Proof.
  intros Hfeed Hne Hlt. unfold step, collectStep. fold (limitOf params st).
  rewrite Hfeed.
  destruct (Nat.eqb_spec (List.length data) 0) as [E0|E0]; [contradiction|].
  destruct (Nat.ltb_spec (List.length data) (limitOf params st)); [reflexivity | lia].
Qed.

Lemma collectStep_continue (params : ActivityRangeParams) (st : LoopState) (data : list RawItem) :
  feed (ls_pages st) (ls_currentOffset st) (limitOf params st) = Some data ->
  List.length data <> 0%nat ->
  (limitOf params st <= List.length data)%nat ->
  (S (ls_consecutiveEmpty st) < MAX_CONSECUTIVE_EMPTY)%nat ->
  pastStart (p_startTs params) data = false ->
  exists ce,
    (ce <= S (ls_consecutiveEmpty st))%nat
    /\ step params st
       = inr {| ls_trades := ls_trades st ++ pushed params st data;
                ls_currentOffset := ls_currentOffset st + List.length data;
                ls_consecutiveEmpty := ce;
                ls_pages := S (ls_pages st) |}.
Proof.
  intros Hfeed Hne Hge Hce Hps. unfold step, collectStep. fold (limitOf params st).
  rewrite Hfeed.
  destruct (Nat.eqb_spec (List.length data) 0) as [E0|E0]; [contradiction|].
  destruct (Nat.ltb_spec (List.length data) (limitOf params st)); [lia|].
  rewrite Hps.
  match goal with
  | |- context [(MAX_CONSECUTIVE_EMPTY <=? ?c)%nat] => set (ce := c)
  end.
  assert (Hle : (ce <= S (ls_consecutiveEmpty st))%nat).
  { unfold ce. destruct (_ =? 0)%nat; lia. }
  destruct (Nat.leb_spec MAX_CONSECUTIVE_EMPTY ce); [lia|].
  exists ce. split; [exact Hle | reflexivity].
Qed.

Lemma collectLoop_step (fuel : nat) (params : ActivityRangeParams) (st : LoopState) :
  (List.length (ls_trades st) < maxEventsOf MAXEV params)%nat ->
  loop (S fuel) params st
  = match step params st with
    | inl result => Some result
    | inr st1 => loop fuel params st1
    end.
Proof.
  intros Hlt. unfold loop, step. cbn [collectLoop].
  destruct (Nat.ltb_spec (List.length (ls_trades st)) (maxEventsOf MAXEV params));
    [reflexivity | lia].
Qed.

End CollectorStops.

(** C6: in offset mode a pass of the loop whose page is missing, empty or
    shorter than the requested page size stops the collection with
    [exhausted = true], and so does a pass whose page holds a record with a
    timestamp before a set [startTs], that is whose oldest timestamp precedes
    [startTs].  In particular, at page limit 500 (batch size 500 and room
    for 1500 events or more), a feed answering pages of 500, 500 and 120
    records, no record of the first two dated before [startTs], is collected
    in exactly three requests and ends with [exhausted = true]. *)
Theorem C6_offset_mode_stops
    (showNumeric : JsNumeric -> string)
    (feed : nat -> nat -> nat -> option (list RawItem))
    (BATCH MAXEV : nat) (params : ActivityRangeParams) :
  (forall (st : LoopState) (fuel : nat),
      (List.length (ls_trades st) < maxEventsOf MAXEV params)%nat ->
      match feed (ls_pages st) (ls_currentOffset st) (batchLimitOf BATCH MAXEV params st) with
      | None => True
      | Some data =>
          List.length data = 0%nat
          \/ (List.length data < batchLimitOf BATCH MAXEV params st)%nat
          \/ (exists s t, p_startTs params = Some s /\ In t (timestampsOf data) /\ t < s)
      end ->
      exists r,
        collectLoop showNumeric feed BATCH MAXEV (S fuel) params st = Some r
        /\ exhausted r = true
        /\ pagesFetched r = S (ls_pages st))
  /\ (forall (p1 p2 p3 : list RawItem) (fuel : nat),
        BATCH = 500%nat ->
        (1500 <= maxEventsOf MAXEV params)%nat ->
        feed 0%nat (p_offset params) 500%nat = Some p1 ->
        feed 1%nat (p_offset params + 500)%nat 500%nat = Some p2 ->
        feed 2%nat (p_offset params + 1000)%nat 500%nat = Some p3 ->
        List.length p1 = 500%nat ->
        List.length p2 = 500%nat ->
        List.length p3 = 120%nat ->
        (forall s t,
            p_startTs params = Some s -> In t (timestampsOf p1 ++ timestampsOf p2) ->
            s <= t) ->
        (3 <= fuel)%nat ->
        exists r,
          fetchActivityByUserWithRange showNumeric feed BATCH MAXEV fuel params = Some r
          /\ exhausted r = true
          /\ stopReason r = StopEnd
          /\ pagesFetched r = 3%nat
          /\ nextOffset r = (p_offset params + 1120)%nat
          /\ (List.length (trades r) <= 1120)%nat).
Proof.
  split.
  - intros st fuel Hlt Hpage.
    assert (Hpage' :
              match feed (ls_pages st) (ls_currentOffset st)
                      (batchLimitOf BATCH MAXEV params st) with
              | None => True
              | Some data =>
                  List.length data = 0%nat
                  \/ (List.length data < batchLimitOf BATCH MAXEV params st)%nat
                  \/ pastStart (p_startTs params) data = true
              end).
    { destruct (feed (ls_pages st) (ls_currentOffset st)
                  (batchLimitOf BATCH MAXEV params st)) as [data|]; [|exact I].
      destruct Hpage as [H|[H|H]]; [now left | right; now left|].
      right. right. now apply pastStart_spec. }
    destruct (collectStep_stops showNumeric feed BATCH MAXEV params st Hpage')
      as (r & Hstep & Hex & Hpg).
    exists r. rewrite collectLoop_step by exact Hlt. rewrite Hstep. auto.
  - intros p1 p2 p3 fuel HB Hmax Hf1 Hf2 Hf3 Hl1 Hl2 Hl3 Hin Hfuel.
    assert (Hs1 : pastStart (p_startTs params) p1 = false).
    { destruct (pastStart (p_startTs params) p1) eqn:E; [|reflexivity].
      apply pastStart_spec in E. destruct E as (s & t & Hs & Ht & Hlt).
      assert (Hle : s <= t) by (apply (Hin s t Hs); apply in_or_app; now left).
      lra. }
    assert (Hs2 : pastStart (p_startTs params) p2 = false).
    { destruct (pastStart (p_startTs params) p2) eqn:E; [|reflexivity].
      apply pastStart_spec in E. destruct E as (s & t & Hs & Ht & Hlt).
      assert (Hle : s <= t) by (apply (Hin s t Hs); apply in_or_app; now right).
      lra. }
    clear Hin. subst BATCH.
    destruct fuel as [|[|[|fuel]]]; try lia.
    unfold fetchActivityByUserWithRange.
    set (st0 := {| ls_trades := []; ls_currentOffset := p_offset params;
                   ls_consecutiveEmpty := 0; ls_pages := 0 |}).
    (* first page *)
    assert (Hb0 : batchLimitOf 500 MAXEV params st0 = 500%nat)
      by (unfold batchLimitOf, st0; cbn [ls_trades List.length]; lia).
    assert (Hstart : List.length (ls_trades st0) = 0%nat) by reflexivity.
    destruct (collectStep_continue showNumeric feed 500 MAXEV params st0 p1)
      as (ce1 & Hce1 & Hstep1).
    { rewrite Hb0. exact Hf1. }
    { lia. }
    { rewrite Hb0. lia. }
    { unfold MAX_CONSECUTIVE_EMPTY, st0. cbn [ls_consecutiveEmpty]. lia. }
    { exact Hs1. }
    rewrite collectLoop_step by lia. rewrite Hstep1.
    set (st1 := {| ls_trades := ls_trades st0 ++ pushedFrom showNumeric MAXEV params st0 p1;
                   ls_currentOffset := ls_currentOffset st0 + List.length p1;
                   ls_consecutiveEmpty := ce1; ls_pages := S (ls_pages st0) |}).
    pose proof (pushedFrom_length showNumeric MAXEV params st0 p1) as Hp1.
    assert (Hc1 : (ce1 <= 1)%nat) by (unfold st0 in Hce1; cbn [ls_consecutiveEmpty] in Hce1; lia).
    assert (Ht1 : (List.length (ls_trades st1) <= 500)%nat).
    { unfold st1. cbn [ls_trades]. rewrite List.length_app. lia. }
    (* second page *)
    assert (Hb1 : batchLimitOf 500 MAXEV params st1 = 500%nat)
      by (unfold batchLimitOf; lia).
    assert (Ho1 : ls_currentOffset st1 = (p_offset params + 500)%nat)
      by (unfold st1, st0; cbn [ls_currentOffset]; lia).
    destruct (collectStep_continue showNumeric feed 500 MAXEV params st1 p2)
      as (ce2 & Hce2 & Hstep2).
    { rewrite Hb1, Ho1. exact Hf2. }
    { lia. }
    { rewrite Hb1. lia. }
    { unfold MAX_CONSECUTIVE_EMPTY, st1. cbn [ls_consecutiveEmpty]. lia. }
    { exact Hs2. }
    rewrite collectLoop_step by lia. rewrite Hstep2.
    set (st2 := {| ls_trades := ls_trades st1 ++ pushedFrom showNumeric MAXEV params st1 p2;
                   ls_currentOffset := ls_currentOffset st1 + List.length p2;
                   ls_consecutiveEmpty := ce2; ls_pages := S (ls_pages st1) |}).
    pose proof (pushedFrom_length showNumeric MAXEV params st1 p2) as Hp2.
    assert (Ht2 : (List.length (ls_trades st2) <= 1000)%nat).
    { unfold st2. cbn [ls_trades]. rewrite List.length_app. lia. }
    (* third page *)
    assert (Hb2 : batchLimitOf 500 MAXEV params st2 = 500%nat)
      by (unfold batchLimitOf; lia).
    assert (Ho2 : ls_currentOffset st2 = (p_offset params + 1000)%nat)
      by (unfold st2; cbn [ls_currentOffset]; lia).
    rewrite collectLoop_step by lia.
    rewrite (collectStep_short showNumeric feed 500 MAXEV params st2 p3).
    2: { rewrite Hb2, Ho2. exact Hf3. }
    2: { lia. }
    2: { rewrite Hb2. lia. }
    pose proof (pushedFrom_length showNumeric MAXEV params st2 p3) as Hp3.
    eexists. split; [reflexivity|].
    cbn [exhausted stopReason pagesFetched nextOffset trades stopWith].
    split; [reflexivity|]. split; [reflexivity|]. split; [reflexivity|].
    split; [lia|]. rewrite List.length_app. lia.
Qed.

(* ------------------------------------------------------------------ *)
(** ** Sample feeds *)

(** The text of the integer part of a number, a stand-in for the text
    JavaScript gives a number inside a template literal. *)
Definition showInteger (v : JsNumeric) : string :=
  match v with
  | JNullish => "undefined"
  | JNumber q => NilZero.string_of_int (Z.to_int (Qfloor q))
  | JText (Some q) => NilZero.string_of_int (Z.to_int (Qfloor q))
  | JText None => "NaN"
  end.

Definition rawItem (ident : string) (ts : Q) : RawItem :=
  {| r_id := ident; r_title := "Market"; r_slug := "market"; r_eventSlug := EmptyString;
     r_side := Some "BUY"%string; r_outcome := "Yes"; r_asset := "A";
     r_market := EmptyString; r_price := JNumber (1 # 2); r_size := JNumber 2;
     r_usdcSize := JNumber 1; r_timestamp := JNumber ts;
     r_transactionHash := EmptyString |}.

(** A feed of 1120 records, newest first, served by offset and limit. *)
Definition feed1120Items : list RawItem :=
  map (fun i => rawItem (NilZero.string_of_uint (Nat.to_uint i))
                  (inject_Z (1700000000 - Z.of_nat i)))
    (seq 0 1120).

Definition feed1120 (request offset limit : nat) : option (list RawItem) :=
  Some (firstn limit (skipn offset feed1120Items)).

Definition rangeParams (lim : nat) : ActivityRangeParams :=
  {| p_address := "0xabc"; p_limit := lim; p_slug := None; p_offset := 0;
     p_startTs := Some 1; p_endTs := None |}.

(** A feed that reaches past [startTs] on its first page: the second record
    is dated before the start 250. *)
Definition pastStartFeed (request offset limit : nat) : option (list RawItem) :=
  Some (firstn limit (skipn offset [rawItem "a" 300; rawItem "b" 200; rawItem "c" 100])).

Definition startParams (start : Q) : ActivityRangeParams :=
  {| p_address := "0xabc"; p_limit := 5000; p_slug := None; p_offset := 0;
     p_startTs := Some start; p_endTs := None |}.

Lemma C6_offset_mode_stops_witness :
  (exists r,
      fetchActivityByUserWithRange showInteger feed1120 500 5000 3 (rangeParams 5000) = Some r
      /\ exhausted r = true
      /\ stopReason r = StopEnd
      /\ pagesFetched r = 3%nat
      /\ nextOffset r = (p_offset (rangeParams 5000) + 1120)%nat
      /\ (List.length (trades r) <= 1120)%nat)
  /\ (exists r,
        fetchActivityByUserWithRange showInteger pastStartFeed 2 5000 1 (startParams 250)
        = Some r
        /\ exhausted r = true
        /\ pagesFetched r = 1%nat).
Proof.
  split.
  - destruct (C6_offset_mode_stops showInteger feed1120 500 5000 (rangeParams 5000))
      as [_ Hscenario].
    apply (Hscenario (firstn 500 feed1120Items)
             (firstn 500 (skipn 500 feed1120Items))
             (firstn 500 (skipn 1000 feed1120Items)) 3%nat).
    + reflexivity.
    + apply Nat.leb_le. vm_compute. reflexivity.
    + reflexivity.
    + vm_compute. reflexivity.
    + vm_compute. reflexivity.
    + vm_compute. reflexivity.
    + vm_compute. reflexivity.
    + vm_compute. reflexivity.
    + intros s t [= <-] Hin.
      assert (Hall : forallb (fun x => Qle_bool 1 x)
                       (timestampsOf (firstn 500 feed1120Items)
                        ++ timestampsOf (firstn 500 (skipn 500 feed1120Items))) = true)
        by (vm_compute; reflexivity).
      rewrite forallb_forall in Hall. apply Qle_bool_iff. exact (Hall t Hin).
    + apply Nat.leb_le. reflexivity.
  - destruct (C6_offset_mode_stops showInteger pastStartFeed 2 5000 (startParams 250))
      as [Hstop _].
    apply (Hstop {| ls_trades := []; ls_currentOffset := 0; ls_consecutiveEmpty := 0;
                    ls_pages := 0 |} 0%nat).
    + apply Nat.ltb_lt. vm_compute. reflexivity.
    + right. right. exists 250, 200. split; [reflexivity|]. split; [|reflexivity].
      vm_compute. right. left. reflexivity.
Defined.

(** An upstream list that grows between two requests: [a; b; c] at the first
    request, a newer record in front of it from the second request on. *)
Definition growingFeed (request offset limit : nat) : option (list RawItem) :=
  let a := rawItem "a" 300 in
  let b := rawItem "b" 200 in
  let c := rawItem "c" 100 in
  let z := rawItem "z" 400 in
  let upstream :=
    match request with
    | O => [a; b; c]
    | S _ => [z; a; b; c]
    end in
  Some (firstn limit (skipn offset upstream)).

(** C5: the offset-mode collector [fetchActivityByUserWithRange] pushes every
    accepted record without any seen-set.  With a batch size of 2 and the
    growing feed, the pages [a; b] and [b; c] overlap and the returned trades
    carry the key of b twice; the [seenIds] filter of the dashboard loops keeps
    one record per key on the same pages. *)
Theorem C5_offset_mode_keeps_duplicates :
  (exists r,
      fetchActivityByUserWithRange showInteger growingFeed 2 5000 10 (rangeParams 10) = Some r
      /\ map (getTradeKey showInteger) (trades r) = ["a"; "b"; "b"; "c"]%string
      /\ ~ NoDup (map (getTradeKey showInteger) (trades r))
      /\ exhausted r = true
      /\ pagesFetched r = 3%nat)
  /\ (let pages :=
        [map (fun item => mapActivityItem showInteger item "0xabc")
           [rawItem "a" 300; rawItem "b" 200];
         map (fun item => mapActivityItem showInteger item "0xabc")
           [rawItem "b" 200; rawItem "c" 100]] in
      map (getTradeKey showInteger) (snd (collectFresh showInteger [] pages))
      = ["a"; "b"; "c"]%string).
Proof.
  split.
  - eexists. split; [vm_compute; reflexivity|].
    split; [vm_compute; reflexivity|]. split; [|split; reflexivity].
    intros H. vm_compute in H.
    inversion H as [|x l Hx Hl]; subst. inversion Hl as [|y l' Hy Hl']; subst.
    apply Hy. left. reflexivity.
  - vm_compute. reflexivity.
Qed.

(* ------------------------------------------------------------------ *)
(** ** The collection loop always returns *)

Section CollectorTermination.
Variable showNumeric : JsNumeric -> string.
Variable feed : nat -> nat -> nat -> option (list RawItem).
Variable BATCH MAXEV : nat.

(** Every pass that goes on either adds a trade or counts one more empty
    window below the bound: the measure decreases. *)
Definition loopMeasure (params : ActivityRangeParams) (st : LoopState) : nat :=
  26 * (maxEventsOf MAXEV params - List.length (ls_trades st))
  + (MAX_CONSECUTIVE_EMPTY - ls_consecutiveEmpty st).

Lemma collectStep_progress (params : ActivityRangeParams) (st st1 : LoopState) :
  (List.length (ls_trades st) < maxEventsOf MAXEV params)%nat ->
  collectStep showNumeric feed BATCH MAXEV params st = inr st1 ->
  (loopMeasure params st1 < loopMeasure params st)%nat.
Proof.
  intros Hlt. unfold collectStep.
  destruct (feed (ls_pages st) (ls_currentOffset st) (batchLimitOf BATCH MAXEV params st))
    as [data|]; [|discriminate].
  destruct (List.length data =? 0)%nat; [discriminate|].
  destruct (List.length data <? batchLimitOf BATCH MAXEV params st)%nat; [discriminate|].
  set (filtered := filter (acceptItem (slugFilterOf (p_slug params)) (p_startTs params)
                             (p_endTs params)) data).
  destruct (Nat.eqb_spec (List.length filtered) 0) as [E0|E0].
  - destruct (Nat.leb_spec MAX_CONSECUTIVE_EMPTY (S (ls_consecutiveEmpty st))) as [H|H];
      [discriminate|].
    destruct (pastStart (p_startTs params) data); [discriminate|].
    intros [= <-]. unfold loopMeasure. cbn [ls_trades ls_consecutiveEmpty].
    rewrite List.length_app. unfold MAX_CONSECUTIVE_EMPTY in *. lia.
  - destruct (Nat.leb_spec MAX_CONSECUTIVE_EMPTY 0) as [H|H];
      [unfold MAX_CONSECUTIVE_EMPTY in H; lia|].
    destruct (pastStart (p_startTs params) data); [discriminate|].
    intros [= <-]. unfold loopMeasure. cbn [ls_trades ls_consecutiveEmpty].
    rewrite List.length_app. unfold pushedFrom. fold filtered.
    rewrite List.length_firstn, List.length_map. unfold MAX_CONSECUTIVE_EMPTY. lia.
Qed.

Lemma collectLoop_terminates (fuel : nat) (params : ActivityRangeParams) (st : LoopState) :
  (loopMeasure params st < fuel)%nat ->
  exists r, collectLoop showNumeric feed BATCH MAXEV fuel params st = Some r.
Proof.
  revert st. induction fuel as [|fuel IH]; intros st Hm; [lia|].
  cbn [collectLoop].
  destruct (Nat.ltb_spec (List.length (ls_trades st)) (maxEventsOf MAXEV params)) as [Hlt|Hge].
  - destruct (collectStep showNumeric feed BATCH MAXEV params st) as [r|st1] eqn:E.
    + eauto.
    + apply IH. pose proof (collectStep_progress params st st1 Hlt E). lia.
  - eauto.
Qed.

(** Whatever the feed answers, [fetchActivityByUserWithRange] returns a
    result within 26 passes per event of its cap. *)
Lemma fetchActivityByUserWithRange_returns (params : ActivityRangeParams) :
  exists r,
    fetchActivityByUserWithRange showNumeric feed BATCH MAXEV
      (26 * maxEventsOf MAXEV params + 26) params = Some r.
Proof.
  apply collectLoop_terminates. unfold loopMeasure, MAX_CONSECUTIVE_EMPTY.
  cbn [ls_trades ls_consecutiveEmpty List.length]. lia.
Qed.

(** More fuel does not change a result. *)
Lemma collectLoop_more_fuel (fuel extra : nat) (params : ActivityRangeParams)
    (st : LoopState) (r : ActivityRangeResult) :
  collectLoop showNumeric feed BATCH MAXEV fuel params st = Some r ->
  collectLoop showNumeric feed BATCH MAXEV (fuel + extra) params st = Some r.
Proof.
  revert st. induction fuel as [|fuel IH]; intros st; cbn [collectLoop Nat.add].
  - destruct (List.length (ls_trades st) <? maxEventsOf MAXEV params)%nat eqn:E;
      [discriminate|].
    intros Hr. destruct extra; cbn [collectLoop]; rewrite E; exact Hr.
  - destruct (List.length (ls_trades st) <? maxEventsOf MAXEV params)%nat; [|auto].
    destruct (collectStep showNumeric feed BATCH MAXEV params st) as [r'|st1]; [auto|].
    apply IH.
Qed.

End CollectorTermination.

(** With room for 1000 events only, the same feed is cut at the cap after two
    pages, before the short page is ever requested: [exhausted] stays false. *)
Example offset_mode_cap_scenario :
  exists r,
    fetchActivityByUserWithRange showInteger feed1120 500 5000 3 (rangeParams 1000) = Some r
    /\ exhausted r = false
    /\ stopReason r = StopLimit
    /\ pagesFetched r = 2%nat
    /\ nextOffset r = 1000%nat
    /\ List.length (trades r) = 1000%nat.
Proof.
  eexists. split; [vm_compute; reflexivity|]. repeat split.
Qed.

(** A boolean test that the keys of a list are pairwise distinct. *)
Fixpoint distinctKeys (l : list string) : bool :=
  match l with
  | [] => true
  | x :: r => (negb (setHas r x) && distinctKeys r)%bool
  end.

Lemma distinctKeys_NoDup (l : list string) : distinctKeys l = true -> NoDup l.
Proof.
  induction l as [|x r IH]; intros Hb; [constructor|].
  apply andb_prop in Hb. destruct Hb as [Hx Hr]. constructor; [|auto].
  intros Hin. apply setHas_In in Hin. rewrite Hin in Hx. discriminate Hx.
Qed.

(** The full feed yields its 1120 trades, no key twice: its pages do not
    overlap. *)
Example offset_mode_full_scenario :
  exists r,
    fetchActivityByUserWithRange showInteger feed1120 500 5000 3 (rangeParams 5000) = Some r
    /\ List.length (trades r) = 1120%nat
    /\ NoDup (map (getTradeKey showInteger) (trades r)).
Proof.
  eexists. split; [vm_compute; reflexivity|]. split; [vm_compute; reflexivity|].
  apply distinctKeys_NoDup. vm_compute. reflexivity.
Qed.

(* ------------------------------------------------------------------ *)
(** ** The statistics on sample days *)

Definition sampleDays : list DailyBucket :=
  [dayOf 1 10; dayOf 2 (-5); dayOf 3 3; dayOf 4 (-12); dayOf 5 4].

Definition risingDays : list DailyBucket := [dayOf 1 3; dayOf 2 0; dayOf 3 4].

(** Five days in a row with the nets +10, -5, +3, -12 and +4. *)
Definition drawdownEvents : list Activity :=
  [cashFlow "REWARD" 10 1700000000; cashFlow "FEE" 5 1700086400;
   cashFlow "REWARD" 3 1700172800; cashFlow "FEE" 12 1700259200;
   cashFlow "REWARD" 4 1700345600].

Lemma C4_max_drawdown_witness :
  maxDrawdownOf [] = None
  /\ maxDrawdownOf sampleDays = Some (flooredMaxDrawdown (map net sampleDays))
  /\ flooredMaxDrawdown (map net sampleDays) == 14
  /\ flooredMaxDrawdown (map net risingDays) == 0
  /\ (let r := computeLifetimeAnalytics sqrtApprox exactly isoDateUtc codeUnitCompare
                 drawdownEvents in
      maxDrawdown r = Some (flooredMaxDrawdown (map net (daily r)))
      /\ flooredMaxDrawdown (map net (daily r)) == 14)
  /\ maxDrawdown (computeLifetimeAnalytics sqrtApprox exactly isoDateUtc codeUnitCompare [])
     = None.
Proof.
  destruct (C4_max_drawdown sqrtApprox exactly isoDateUtc codeUnitCompare [])
    as (Hnone & _ & _ & _ & Hrun).
  destruct (C4_max_drawdown sqrtApprox exactly isoDateUtc codeUnitCompare sampleDays)
    as (_ & Hsome & _).
  destruct (C4_max_drawdown sqrtApprox exactly isoDateUtc codeUnitCompare risingDays)
    as (_ & _ & _ & Hzero & _).
  split; [apply Hnone; reflexivity|].
  split; [apply Hsome; discriminate|].
  split; [vm_compute; reflexivity|].
  split; [apply Hzero; vm_compute; repeat split; discriminate|].
  split.
  - cbv zeta. split; [|vm_compute; reflexivity].
    apply (Hrun drawdownEvents). vm_compute. discriminate.
  - apply (Hrun []). reflexivity.
Defined.

(** Rewards of 10 and 3 and fees of 5 and 12 on four days in a row, and
    three days without a fee. *)
Definition mixedDays : list Activity :=
  [cashFlow "REWARD" 10 1700000000; cashFlow "FEE" 5 1700086400;
   cashFlow "REWARD" 3 1700172800; cashFlow "FEE" 12 1700259200].

Definition gainDays : list Activity :=
  [cashFlow "REWARD" 3 1700000000; cashFlow "REWARD" 4 1700086400].

Lemma C8_profit_factor_witness :
  let r := computeLifetimeAnalytics sqrtApprox exactly isoDateUtc codeUnitCompare mixedDays in
  profitFactor (computeLifetimeAnalytics sqrtApprox exactly isoDateUtc codeUnitCompare
                  gainDays) = None
  /\ map net (daily r) = [0 + 10; 0 + -5; 0 + 3; 0 + -12]
  /\ 0 < sumLossDays (daily r)
  /\ exists pf,
       profitFactor r = Some pf
       /\ pf == sumProfitDays (daily r) / sumLossDays (daily r)
       /\ pf == 13 # 17.
Proof.
  cbv zeta.
  destruct (C8_profit_factor sqrtApprox exactly isoDateUtc codeUnitCompare gainDays)
    as [Hnone _].
  destruct (C8_profit_factor sqrtApprox exactly isoDateUtc codeUnitCompare mixedDays)
    as [_ Hsome].
  cbv zeta in Hnone, Hsome.
  split; [|split; [vm_compute; reflexivity|]].
  - apply Hnone.
    assert (Hall : forallb (fun day => Qle_bool 0 (net day))
                     (daily (computeLifetimeAnalytics sqrtApprox exactly isoDateUtc
                               codeUnitCompare gainDays)) = true)
      by (vm_compute; reflexivity).
    rewrite forallb_forall in Hall. apply Forall_forall. intros day Hin.
    apply Qle_bool_iff. exact (Hall day Hin).
  - destruct (Hsome
                (nth 1 (daily (computeLifetimeAnalytics sqrtApprox exactly isoDateUtc
                                 codeUnitCompare mixedDays)) (dayOf 0 0)))
      as (Hpos & pf & Hpf & Heq).
    + vm_compute. right. left. reflexivity.
    + vm_compute. reflexivity.
    + split; [exact Hpos|]. exists pf. split; [exact Hpf|]. split; [exact Heq|].
      rewrite Heq. vm_compute. reflexivity.
Defined.

(** One day, two days of net 5, and the days of net 1 and 3. *)
Definition oneDay : list Activity := [cashFlow "REWARD" 5 1700000000].

Definition fiveFive : list Activity :=
  [cashFlow "REWARD" 5 1700000000; cashFlow "REWARD" 5 1700086400].

Definition oneThree : list Activity :=
  [cashFlow "REWARD" 1 1700000000; cashFlow "REWARD" 3 1700086400].

(** In doubles: one day gives null, [+5, +5] gives null, and [+1, +3] gives
    2 / sqrt(2) * sqrt(365), the double 27.01851217221259. *)
Lemma C7_sharpe_ratio_witness :
  sharpeRatio (computeLifetimeAnalytics sqrtBinary64 roundBinary64 isoDateUtc codeUnitCompare
                 oneDay) = None
  /\ sharpeRatio (computeLifetimeAnalytics sqrtBinary64 roundBinary64 isoDateUtc
                    codeUnitCompare fiveFive) = None
  /\ exists s,
       sharpeRatio (computeLifetimeAnalytics sqrtBinary64 roundBinary64 isoDateUtc
                      codeUnitCompare oneThree) = Some s
       /\ s == 3802517542215057 # 140737488355328.
Proof.
  pose proof (C7_sharpe_ratio sqrtBinary64 roundBinary64 isoDateUtc codeUnitCompare oneDay)
    as (Hshort & _).
  pose proof (C7_sharpe_ratio sqrtBinary64 roundBinary64 isoDateUtc codeUnitCompare fiveFive)
    as (_ & Hflat & _).
  pose proof (C7_sharpe_ratio sqrtBinary64 roundBinary64 isoDateUtc codeUnitCompare oneThree)
    as (_ & Hlong & _).
  cbv zeta in Hshort, Hflat, Hlong.
  split; [|split].
  - apply Hshort. apply Nat.ltb_lt. vm_compute. reflexivity.
  - assert (Hlen : (2 <= activeDays (computeLifetimeAnalytics sqrtBinary64 roundBinary64
                                        isoDateUtc codeUnitCompare fiveFive))%nat)
      by (apply Nat.leb_le; vm_compute; reflexivity).
    destruct (Hflat Hlen) as (Hnone & _). apply Hnone. vm_compute. discriminate.
  - assert (Hlen : (2 <= activeDays (computeLifetimeAnalytics sqrtBinary64 roundBinary64
                                        isoDateUtc codeUnitCompare oneThree))%nat)
      by (apply Nat.leb_le; vm_compute; reflexivity).
    destruct (Hlong Hlen) as (_ & Hsome & _).
    eexists. split; [apply Hsome; vm_compute; reflexivity|].
    vm_compute. reflexivity.
Defined.

(** A reward of 5 on a dated day and a fee of 2 without a usable timestamp. *)
Definition mixedEvents : list Activity :=
  [cashFlow "REWARD" 5 1700000000; cashFlow "FEE" 2 0].

Lemma C10_undated_events_witness :
  let r := computeLifetimeAnalytics sqrtApprox exactly isoDateUtc codeUnitCompare
             mixedEvents in
  netPnl r == sumQ (map net (daily r)) + -2
  /\ ~ netPnl r == sumQ (map net (daily r))
  /\ netPnl (computeLifetimeAnalytics sqrtApprox exactly isoDateUtc codeUnitCompare
               [cashFlow "REWARD" 5 1700000000])
     == sumQ (map net (daily (computeLifetimeAnalytics sqrtApprox exactly isoDateUtc
                                codeUnitCompare [cashFlow "REWARD" 5 1700000000]))).
Proof.
  cbv zeta.
  destruct (C10_undated_events sqrtApprox exactly isoDateUtc codeUnitCompare mixedEvents)
    as (_ & Hsum & _ & Hiff).
  destruct (C10_undated_events sqrtApprox exactly isoDateUtc codeUnitCompare
              [cashFlow "REWARD" 5 1700000000])
    as (_ & _ & Hall & _).
  cbv zeta in *.
  split; [|split].
  - rewrite Hsum. apply Qplus_comp; [reflexivity | vm_compute; reflexivity].
  - intros H. apply Hiff in H. vm_compute in H. discriminate H.
  - apply Hall. constructor; [|constructor].
    intros _. vm_compute. reflexivity.
Defined.

(* ------------------------------------------------------------------ *)
(** ** The replay order *)

Section ReplayOrder.
Context {A : Type} (key : A -> Q).

Lemma insertSorted_sorted (x : A) (l : list A) :
  nonDecreasing (map key l) -> nonDecreasing (map key (insertSorted key x l)).
Proof.
  destruct l as [|y r]; [intros _; exact I|].
  cbn [map nonDecreasing]. revert y.
  induction r as [|z r IH]; intros y Hs; cbn [insertSorted].
  - destruct (ltb (key x) (key y)) eqn:E; cbn [map nonDecreasing nonDecreasingFrom].
    + apply ltb_true in E. split; [lra | exact I].
    + apply ltb_false in E. split; [exact E | exact I].
  - cbn [map nonDecreasingFrom] in Hs. destruct Hs as [Hyz Hs].
    destruct (ltb (key x) (key y)) eqn:E.
    + apply ltb_true in E. cbn [map nonDecreasing nonDecreasingFrom].
      repeat split; [lra | exact Hyz | exact Hs].
    + apply ltb_false in E. specialize (IH z Hs).
      cbn [insertSorted] in IH. cbn [map nonDecreasing nonDecreasingFrom].
      destruct (ltb (key x) (key z)) eqn:Ez.
      * apply ltb_true in Ez. cbn [map nonDecreasing nonDecreasingFrom] in *.
        repeat split; [exact E | lra | exact Hs].
      * cbn [map nonDecreasing] in IH. split; [exact Hyz | exact IH].
Qed.

Lemma sortByKey_snoc (l : list A) (x : A) :
  sortByKey key (l ++ [x]) = insertSorted key x (sortByKey key l).
Proof. unfold sortByKey. now rewrite fold_left_app. Qed.

Lemma sortByKey_sorted (l : list A) : nonDecreasing (map key (sortByKey key l)).
Proof.
  induction l as [|x r IH] using rev_ind; [exact I|].
  rewrite sortByKey_snoc. now apply insertSorted_sorted.
Qed.

(** In a sorted list, nothing after the head has a smaller key. *)
Lemma nonDecreasingFrom_all (a : Q) (l : list Q) :
  nonDecreasingFrom a l -> Forall (fun b => a <= b) l.
Proof.
  revert a. induction l as [|b r IH]; intros a H; [constructor|].
  destruct H as [Hab Hr]. constructor; [exact Hab|].
  specialize (IH b Hr). rewrite Forall_forall in *. intros c Hc.
  specialize (IH c Hc). lra.
Qed.

(** Inserting into a sorted list puts the new element behind the elements
    of the same key. *)
Lemma insertSorted_filter (k : Q) (x : A) (l : list A) :
  nonDecreasing (map key l) ->
  filter (fun y => Qeq_bool (key y) k) (insertSorted key x l)
  = filter (fun y => Qeq_bool (key y) k) l
    ++ (if Qeq_bool (key x) k then [x] else []).
Proof.
  induction l as [|y r IH]; intros Hs; cbn [insertSorted filter app].
  - destruct (Qeq_bool (key x) k); reflexivity.
  - assert (Hr : nonDecreasing (map key r)).
    { destruct r as [|z r']; [exact I|]. cbn [map nonDecreasing nonDecreasingFrom] in Hs.
      exact (proj2 Hs). }
    destruct (ltb (key x) (key y)) eqn:E.
    + apply ltb_true in E. cbn [filter].
      destruct (Qeq_bool (key x) k) eqn:Ex.
      * apply Qeq_bool_iff in Ex.
        assert (Hnone : filter (fun y0 => Qeq_bool (key y0) k) (y :: r) = []).
        { cbn [map nonDecreasing] in Hs. apply nonDecreasingFrom_all in Hs.
          assert (Hall : Forall (fun b => key y <= b) (map key (y :: r)))
            by (constructor; [apply Qle_refl | exact Hs]).
          clear - Hall E Ex. induction (y :: r) as [|u t IHt]; [reflexivity|].
          cbn [map] in Hall. inversion Hall as [|? ? Hu Ht]; subst.
          cbn [filter]. destruct (Qeq_bool (key u) k) eqn:Eu.
          - apply Qeq_bool_iff in Eu. lra.
          - now apply IHt. }
        cbn [filter] in Hnone. rewrite Hnone. reflexivity.
      * now rewrite app_nil_r.
    + cbn [filter]. rewrite (IH Hr).
      destruct (Qeq_bool (key y) k); reflexivity.
Qed.

Lemma sortByKey_stable (k : Q) (l : list A) :
  filter (fun y => Qeq_bool (key y) k) (sortByKey key l)
  = filter (fun y => Qeq_bool (key y) k) l.
Proof.
  induction l as [|x r IH] using rev_ind; [reflexivity|].
  rewrite sortByKey_snoc, insertSorted_filter by apply sortByKey_sorted.
  rewrite IH, filter_app. reflexivity.
Qed.

(** X1: the order of the replay is a rearrangement of the input, ascending
    by the sort key, in which the events of equal key keep their order of
    arrival. *)
Theorem sortByKey_replay_order (l : list A) :
  Permutation l (sortByKey key l)
  /\ nonDecreasing (map key (sortByKey key l))
  /\ (forall k : Q,
        filter (fun y => Qeq_bool (key y) k) (sortByKey key l)
        = filter (fun y => Qeq_bool (key y) k) l).
Proof.
  split; [apply sortByKey_perm|]. split; [apply sortByKey_sorted|].
  intros k. apply sortByKey_stable.
Qed.

End ReplayOrder.

(* ------------------------------------------------------------------ *)
(** ** More on insertion-ordered maps *)

Section AssocMapFacts.
Context {K V : Type}.
Variable keqb : K -> K -> bool.
Hypothesis keqb_eq : forall a b : K, keqb a b = true <-> a = b.

Lemma keqb_neq (a b : K) : a <> b -> keqb a b = false.
Proof.
  intros Hne. destruct (keqb a b) eqn:E; [|reflexivity].
  apply keqb_eq in E. contradiction.
Qed.

Lemma mapGet_mapSet_other (k k0 : K) (v : V) (m : list (K * V)) :
  k0 <> k -> mapGet keqb k0 (mapSet keqb k v m) = mapGet keqb k0 m.
Proof.
  intros Hne. induction m as [|[k' v'] r IH]; cbn [mapSet mapGet].
  - now rewrite keqb_neq.
  - destruct (keqb k k') eqn:E; cbn [mapGet].
    + apply keqb_eq in E. subst k'. now rewrite keqb_neq.
    + now rewrite IH.
Qed.

(** A key is listed exactly when a lookup finds it. *)
Lemma mapGet_Some_iff (k : K) (m : list (K * V)) :
  (exists v, mapGet keqb k m = Some v) <-> In k (map fst m).
Proof.
  induction m as [|[k' v'] r IH]; cbn [mapGet map fst In].
  - split; [intros [v Hv]; discriminate | tauto].
  - destruct (keqb k k') eqn:E.
    + apply keqb_eq in E. subst k'. split; [now left | eauto].
    + rewrite IH. split; [now right|]. intros [Hk|Hk]; [|exact Hk].
      subst k'. rewrite (proj2 (keqb_eq k k) eq_refl) in E. discriminate.
Qed.

(** [Map.set] adds a key at most once: the keys stay pairwise distinct. *)
Lemma mapSet_keys (k : K) (v : V) (m : list (K * V)) :
  map fst (mapSet keqb k v m)
  = if existsb (keqb k) (map fst m) then map fst m else map fst m ++ [k].
Proof.
  induction m as [|[k' v'] r IH]; cbn [mapSet map fst existsb app]; [reflexivity|].
  destruct (keqb k k') eqn:E; cbn [map fst orb].
  - apply keqb_eq in E. now subst k'.
  - rewrite IH. destruct (existsb (keqb k) (map fst r)); reflexivity.
Qed.

Lemma mapSet_keys_NoDup (k : K) (v : V) (m : list (K * V)) :
  NoDup (map fst m) -> NoDup (map fst (mapSet keqb k v m)).
Proof.
  intros Hnd. rewrite mapSet_keys.
  destruct (existsb (keqb k) (map fst m)) eqn:E; [exact Hnd|].
  apply NoDup_app; [exact Hnd | repeat constructor; intros [] |].
  intros a Ha [Hk|[]]. subst a.
  assert (Ht : existsb (keqb k) (map fst m) = true).
  { apply existsb_exists. exists k. split; [exact Ha | now apply keqb_eq]. }
  congruence.
Qed.

Lemma mapSet_keys_In (k k0 : K) (v : V) (m : list (K * V)) :
  In k0 (map fst (mapSet keqb k v m)) <-> k0 = k \/ In k0 (map fst m).
Proof.
  rewrite mapSet_keys.
  destruct (existsb (keqb k) (map fst m)) eqn:E.
  - apply existsb_exists in E. destruct E as (x & Hx & Hk). apply keqb_eq in Hk. subst x.
    split; [now right|]. intros [->|H]; assumption.
  - rewrite in_app_iff. cbn [In]. split; [intros [H|[H|[]]]; auto | intros [H|H]; auto].
Qed.

End AssocMapFacts.

(* ------------------------------------------------------------------ *)
(** ** The cumulative realized PnL of the history *)

(** The entries of one instrument. *)
Definition entriesOf (k : string) (history : list PositionHistoryEntry)
    : list PositionHistoryEntry :=
  filter (fun e => String.eqb (he_key e) k) history.

Definition realizedOf (positions : list (string * PositionState)) (k : string) : Q :=
  match mapGet String.eqb k positions with
  | Some st => ps_realizedPnl st
  | None => 0
  end.

Definition cumulativeInvariant
    (acc : list (string * PositionState) * list PositionHistoryEntry) : Prop :=
  (forall k, realizedOf (fst acc) k == sumQ (map realizedPnl (entriesOf k (snd acc))))
  /\ (forall i e,
         nth_error (snd acc) i = Some e ->
         cumulativeRealizedPnl e
         == sumQ (map realizedPnl (entriesOf (he_key e) (firstn (S i) (snd acc))))).

Lemma entriesOf_snoc (k : string) (history : list PositionHistoryEntry)
    (e : PositionHistoryEntry) :
  entriesOf k (history ++ [e])
  = entriesOf k history ++ (if String.eqb (he_key e) k then [e] else []).
Proof. unfold entriesOf. now rewrite filter_app. Qed.

Lemma sumQ_snoc (l : list Q) (x : Q) : sumQ (l ++ [x]) == sumQ l + x.
Proof. induction l as [|y r IH]; simpl; [lra | rewrite IH; lra]. Qed.

Lemma historyStep_cumulative acc (trade : TradeActivity) :
  cumulativeInvariant acc -> cumulativeInvariant (historyStep acc trade).
Proof.
  destruct acc as [positions history]. intros [Hreal Hcum].
  cbn [fst snd] in *. unfold historyStep.
  set (existing := historyExisting positions trade).
  set (e := historyEntry existing trade).
  assert (Hkey : he_key e = getPositionKey trade) by reflexivity.
  assert (Hce : cumulativeRealizedPnl e
                == sumQ (map realizedPnl (entriesOf (he_key e) history)) + realizedPnl e).
  { rewrite <- (Hreal (he_key e)). rewrite Hkey. unfold realizedOf, e, existing.
    unfold historyExisting.
    destruct (mapGet String.eqb (getPositionKey trade) positions); reflexivity. }
  split; cbn [fst snd].
  - intros k. unfold realizedOf. rewrite entriesOf_snoc.
    destruct (String.eqb (he_key e) k) eqn:E.
    + apply String.eqb_eq in E. subst k.
      rewrite (mapGet_mapSet_same String.eqb String.eqb_eq).
      cbn [historyNext ps_realizedPnl]. rewrite map_app. cbn [map].
      rewrite sumQ_snoc. exact Hce.
    + rewrite (mapGet_mapSet_other String.eqb String.eqb_eq).
      * rewrite app_nil_r. apply Hreal.
      * intros ->. rewrite String.eqb_refl in E. discriminate.
  - intros i x Hx.
    destruct (Nat.lt_ge_cases i (List.length history)) as [Hlt|Hge].
    + rewrite nth_error_app1 in Hx by exact Hlt.
      rewrite firstn_app.
      replace (S i - List.length history)%nat with 0%nat by lia.
      cbn [firstn]. rewrite app_nil_r. now apply Hcum.
    + rewrite nth_error_app2 in Hx by exact Hge.
      destruct (i - List.length history)%nat as [|n] eqn:En; cbn [nth_error] in Hx.
      * injection Hx as <-.
        rewrite firstn_all2 by (rewrite List.length_app; cbn [List.length]; lia).
        rewrite entriesOf_snoc, String.eqb_refl, map_app. cbn [map].
        rewrite sumQ_snoc. exact Hce.
      * destruct n; discriminate.
Qed.

Lemma replayHistory_cumulative (processed : list TradeActivity) :
  cumulativeInvariant (fold_left historyStep processed ([], [])).
Proof.
  induction processed as [|t r IH] using rev_ind.
  - split; cbn [fst snd].
    + intros k. reflexivity.
    + intros i e H. destruct i; discriminate.
  - rewrite fold_left_snoc. now apply historyStep_cumulative.
Qed.

(** X2: the history has one entry per trade, in replay order, and the
    cumulative realized PnL of each entry is the sum of the realized deltas
    recorded so far for its instrument, itself included. *)
Theorem computePositionHistory_cumulative (trades : list TradeActivity) :
  List.length (computePositionHistory trades) = List.length trades
  /\ map he_key (computePositionHistory trades) = map getPositionKey (sortTrades trades)
  /\ (forall i e,
         nth_error (computePositionHistory trades) i = Some e ->
         cumulativeRealizedPnl e
         == sumQ (map realizedPnl
                    (entriesOf (he_key e) (firstn (S i) (computePositionHistory trades))))).
Proof.
  split; [|split].
  - unfold computePositionHistory, replayHistory. rewrite historyStep_length.
    cbn [snd List.length Nat.add].
    symmetry. apply Permutation_length, sortByKey_perm.
  - unfold computePositionHistory, replayHistory.
    induction (sortTrades trades) as [|t r IH] using rev_ind; [reflexivity|].
    rewrite fold_left_snoc, map_app. unfold historyStep at 1.
    destruct (fold_left historyStep r ([], [])) as [positions history].
    cbn [snd] in *. rewrite map_app, IH. reflexivity.
  - apply (replayHistory_cumulative (sortTrades trades)).
Qed.

(* ------------------------------------------------------------------ *)
(** ** The instruments of the summary *)

Definition summaryKeyed (positions : list (string * SummaryState)) : Prop :=
  Forall (fun kv => ss_key (snd kv) = fst kv) positions.

Lemma mapGet_In (k : string) (st : SummaryState) (m : list (string * SummaryState)) :
  mapGet String.eqb k m = Some st -> In (k, st) m.
Proof.
  induction m as [|[k' v'] r IH]; cbn [mapGet]; [discriminate|].
  destruct (String.eqb_spec k k') as [<-|Hne].
  - intros [= ->]. now left.
  - intros H. right. auto.
Qed.

Lemma mapSet_keyed (k : string) (st : SummaryState) (m : list (string * SummaryState)) :
  ss_key st = k -> summaryKeyed m -> summaryKeyed (mapSet String.eqb k st m).
Proof.
  intros Hk. unfold summaryKeyed.
  induction m as [|[k' v'] r IH]; cbn [mapSet]; intros Hm.
  - repeat constructor. exact Hk.
  - inversion_clear Hm as [|? ? Hh Ht].
    destruct (String.eqb k k'); constructor; auto.
Qed.

Lemma summaryApply_key (existing : SummaryState) (trade : TradeActivity) :
  ss_key (summaryApply existing trade) = ss_key existing.
Proof. unfold summaryApply. destruct (normalizeSide (side trade)); reflexivity. Qed.

Lemma summaryStep_keyed (positions : list (string * SummaryState)) (trade : TradeActivity) :
  summaryKeyed positions -> summaryKeyed (summaryStep positions trade).
Proof.
  intros Hm. unfold summaryStep. apply mapSet_keyed; [|exact Hm].
  rewrite summaryApply_key. unfold summaryExisting.
  destruct (mapGet String.eqb (getPositionKey trade) positions) as [st|] eqn:E;
    [|reflexivity].
  apply mapGet_In in E. unfold summaryKeyed in Hm. rewrite Forall_forall in Hm.
  exact (Hm _ E).
Qed.

Lemma replaySummary_keys (processed : list TradeActivity) :
  let positions := fold_left summaryStep processed [] in
  summaryKeyed positions
  /\ NoDup (map fst positions)
  /\ (forall k, In k (map fst positions) <-> In k (map getPositionKey processed)).
Proof.
  induction processed as [|t r IH] using rev_ind; cbn zeta.
  - split; [constructor|]. split; [constructor|]. intros k. reflexivity.
  - cbn zeta in IH. destruct IH as (Hk & Hnd & Hin).
    rewrite fold_left_snoc. split; [|split].
    + now apply summaryStep_keyed.
    + unfold summaryStep. now apply (mapSet_keys_NoDup String.eqb String.eqb_eq).
    + intros k. unfold summaryStep.
      rewrite (mapSet_keys_In String.eqb String.eqb_eq), Hin, map_app, in_app_iff.
      cbn [map In]. intuition congruence.
Qed.

Lemma summaryEntry_keys (positions : list (string * SummaryState)) :
  summaryKeyed positions ->
  map se_key (map summaryEntry (mapValues positions)) = map fst positions.
Proof.
  unfold summaryKeyed, mapValues. induction 1 as [|[k st] r Hk _ IH]; [reflexivity|].
  cbn [map snd fst se_key summaryEntry] in *. now rewrite IH, Hk.
Qed.

(** X3: the summary has exactly one entry per instrument key of the input:
    its keys are pairwise distinct and they are the position keys of the
    trades. *)
Theorem computePositionSummary_keys (trades : list TradeActivity) :
  NoDup (map se_key (computePositionSummary trades))
  /\ (forall k,
        In k (map se_key (computePositionSummary trades))
        <-> In k (map getPositionKey trades)).
Proof.
  unfold computePositionSummary, replaySummary.
  destruct (replaySummary_keys (sortTrades trades)) as (Hk & Hnd & Hin).
  rewrite (summaryEntry_keys _ Hk). split; [exact Hnd|].
  intros k. rewrite Hin. split; intros H.
  - eapply Permutation_in; [|exact H]. apply Permutation_map. symmetry. apply sortByKey_perm.
  - eapply Permutation_in; [|exact H]. apply Permutation_map. apply sortByKey_perm.
Qed.

(* ------------------------------------------------------------------ *)
(** ** The summary against the history *)

(** The two ledgers hold the same position. *)
Definition agree (ps : PositionState) (ss : SummaryState) : Prop :=
  ps_size ps == openSize ss
  /\ ps_costBasisUsd ps == costBasisUsd ss
  /\ ps_realizedPnl ps == ss_realizedPnl ss.

Definition positiveBuy (t : TradeActivity) : Prop :=
  normalizeSide (side t) = Buy -> 0 < tradeSizeOf t.

Lemma gtb_comp (a b c : Q) : a == b -> gtb a c = gtb b c.
Proof.
  intros H. destruct (gtb b c) eqn:E.
  - apply gtb_true in E. apply gtb_true. lra.
  - apply gtb_false in E. apply gtb_false. lra.
Qed.

Lemma leb_comp (a b c : Q) : a == b -> leb a c = leb b c.
Proof.
  intros H. destruct (leb b c) eqn:E.
  - apply leb_true in E. apply leb_true. lra.
  - apply leb_false in E. apply leb_false. lra.
Qed.

Lemma step_agree (ps : PositionState) (ss : SummaryState) (trade : TradeActivity) :
  positiveBuy trade ->
  positionInvariant (ps_size ps) (ps_costBasisUsd ps) ->
  agree ps ss ->
  agree (historyNext (historyEntry ps trade)) (summaryApply ss trade).
Proof.
  intros Hbuy [Hge Hz] (Hs & Hc & Hr).
  unfold agree, historyNext, historyEntry, summaryApply, positiveBuy in *.
  cbn [ps_size ps_costBasisUsd ps_realizedPnl positionSize positionCostBasis
         cumulativeRealizedPnl].
  destruct (normalizeSide (side trade)).
  - specialize (Hbuy eq_refl). cbn [openSize costBasisUsd ss_realizedPnl].
    assert (E : leb (ps_size ps + tradeSizeOf trade) 0 = false) by (apply leb_false; lra).
    rewrite E. repeat split; lra.
  - cbn [openSize costBasisUsd ss_realizedPnl].
    rewrite (andb_comm (gtb (openSize ss) 0)). rewrite <- (gtb_comp _ _ 0 Hs).
    destruct (gtb (tradeSizeOf trade) 0 && gtb (ps_size ps) 0)%bool eqn:Em; cbn [andb].
    + assert (Hsz : ps_size ps - tradeSizeOf trade == openSize ss - tradeSizeOf trade)
        by (rewrite Hs; reflexivity).
      rewrite <- (leb_comp _ _ 0 Hsz).
      destruct (leb (ps_size ps - tradeSizeOf trade) 0).
      * repeat split; try reflexivity. rewrite Hr, Hs, Hc. reflexivity.
      * repeat split; [exact Hsz | rewrite Hs, Hc; reflexivity
                       | rewrite Hr, Hs, Hc; reflexivity].
    + destruct (leb (ps_size ps) 0) eqn:El.
      * apply leb_true in El. assert (H0 : ps_size ps == 0) by lra.
        specialize (Hz H0). repeat split; lra.
      * repeat split; lra.
Qed.

Definition ledgersAgree (hp : list (string * PositionState))
    (sp : list (string * SummaryState)) : Prop :=
  forall k,
    match mapGet String.eqb k hp, mapGet String.eqb k sp with
    | Some ps, Some ss => agree ps ss
    | None, None => True
    | _, _ => False
    end.

Lemma replay_agree (processed : list TradeActivity) :
  Forall positiveBuy processed ->
  ledgersAgree (fst (fold_left historyStep processed ([], [])))
    (fold_left summaryStep processed []).
Proof.
  induction processed as [|t r IH] using rev_ind; intros Hall.
  - intros k. exact I.
  - apply Forall_app in Hall. destruct Hall as [Hr Ht]. apply Forall_inv in Ht.
    specialize (IH Hr). rewrite !fold_left_snoc.
    pose proof (replayHistory_invariant r) as [Hinv _].
    destruct (fold_left historyStep r ([], [])) as [hp history].
    set (sp := fold_left summaryStep r []) in *.
    cbn [fst snd] in *. unfold historyStep, summaryStep. cbn [fst he_key historyEntry].
    intros k. destruct (String.eqb_spec k (getPositionKey t)) as [->|Hne].
    + rewrite !(mapGet_mapSet_same String.eqb String.eqb_eq).
      specialize (IH (getPositionKey t)).
      unfold historyExisting, summaryExisting.
      destruct (mapGet String.eqb (getPositionKey t) hp) as [ps|] eqn:Eh;
        destruct (mapGet String.eqb (getPositionKey t) sp) as [ss|] eqn:Es;
        try contradiction.
      * apply step_agree; [exact Ht | | exact IH].
        rewrite Forall_forall in Hinv. apply Hinv.
        now apply (mapGet_In_values String.eqb (getPositionKey t)).
      * apply step_agree; [exact Ht | split; [apply Qle_refl | reflexivity] |].
        repeat split; reflexivity.
    + rewrite !(mapGet_mapSet_other String.eqb String.eqb_eq) by exact Hne.
      apply IH.
Qed.

(** The last element of a list, if any. *)
Definition lastOf {A : Type} (l : list A) : option A :=
  match rev l with
  | [] => None
  | x :: _ => Some x
  end.

Lemma lastOf_snoc {A : Type} (l : list A) (x : A) : lastOf (l ++ [x]) = Some x.
Proof. unfold lastOf. now rewrite rev_app_distr. Qed.

Definition lastInvariant
    (acc : list (string * PositionState) * list PositionHistoryEntry) : Prop :=
  forall k st,
    mapGet String.eqb k (fst acc) = Some st ->
    exists e, lastOf (entriesOf k (snd acc)) = Some e /\ st = historyNext e.

Lemma replayHistory_last (processed : list TradeActivity) :
  lastInvariant (fold_left historyStep processed ([], [])).
Proof.
  induction processed as [|t r IH] using rev_ind.
  - intros k st H. discriminate H.
  - rewrite fold_left_snoc.
    destruct (fold_left historyStep r ([], [])) as [hp history].
    unfold lastInvariant, historyStep in *. cbn [fst snd he_key historyEntry] in *.
    intros k st. rewrite entriesOf_snoc. cbn [he_key historyEntry].
    destruct (String.eqb_spec (getPositionKey t) k) as [<-|Hne].
    + rewrite (mapGet_mapSet_same String.eqb String.eqb_eq). intros [= <-].
      eexists. split; [apply lastOf_snoc | reflexivity].
    + rewrite (mapGet_mapSet_other String.eqb String.eqb_eq) by congruence.
      rewrite app_nil_r. apply IH.
Qed.

(** Every history entry is the work of [historyEntry]. *)
Lemma replayHistory_entries (processed : list TradeActivity) :
  Forall (fun e => exists existing trade, e = historyEntry existing trade)
    (snd (fold_left historyStep processed ([], []))).
Proof.
  induction processed as [|t r IH] using rev_ind; [constructor|].
  rewrite fold_left_snoc.
  destruct (fold_left historyStep r ([], [])) as [hp history].
  unfold historyStep. cbn [snd] in *. apply Forall_app. split; [exact IH|].
  constructor; [eauto | constructor].
Qed.

Lemma lastOf_In {A : Type} (l : list A) (x : A) : lastOf l = Some x -> In x l.
Proof.
  unfold lastOf. intros H. apply in_rev.
  destruct (rev l) as [|y r]; [discriminate|]. injection H as ->. now left.
Qed.

Lemma mapGet_of_In (k : string) (st : SummaryState) (m : list (string * SummaryState)) :
  NoDup (map fst m) -> In (k, st) m -> mapGet String.eqb k m = Some st.
Proof.
  induction m as [|[k' v'] r IH]; cbn [map fst mapGet In]; [tauto|].
  intros Hnd [Heq|Hin].
  - injection Heq as -> ->. now rewrite String.eqb_refl.
  - inversion Hnd as [|? ? Hnot Hr]; subst.
    destruct (String.eqb_spec k k') as [->|Hne]; [|auto].
    exfalso. apply Hnot. apply in_map_iff. exists (k', st). split; [reflexivity | exact Hin].
Qed.

(** X4: when every buy has a positive size, each summary entry agrees with
    the history of its instrument: its open size is not negative, its realized
    PnL is the sum of the realized deltas of the instrument's history entries,
    and the last of those entries carries the same size, the same cumulative
    realized PnL and the same status. *)
Theorem computePositionSummary_matches_history (trades : list TradeActivity) :
  Forall positiveBuy trades ->
  Forall
    (fun s =>
       0 <= se_openSize s
       /\ se_realizedPnl s
          == sumQ (map realizedPnl (entriesOf (se_key s) (computePositionHistory trades)))
       /\ exists e,
            lastOf (entriesOf (se_key s) (computePositionHistory trades)) = Some e
            /\ positionSize e == se_openSize s
            /\ cumulativeRealizedPnl e == se_realizedPnl s
            /\ he_status e = se_status s)
    (computePositionSummary trades).
Proof.
  intros Hall.
  assert (Hsorted : Forall positiveBuy (sortTrades trades)).
  { eapply Permutation_Forall; [apply sortByKey_perm | exact Hall]. }
  pose proof (replay_agree _ Hsorted) as Hag.
  pose proof (replayHistory_cumulative (sortTrades trades)) as [Hreal _].
  pose proof (replayHistory_last (sortTrades trades)) as Hlast.
  pose proof (replayHistory_invariant (sortTrades trades)) as [Hinv _].
  pose proof (replayHistory_entries (sortTrades trades)) as Hent.
  destruct (replaySummary_keys (sortTrades trades)) as (Hkeyed & Hnd & _).
  unfold computePositionSummary, computePositionHistory, replayHistory, replaySummary.
  destruct (fold_left historyStep (sortTrades trades) ([], [])) as [hp history].
  set (sp := fold_left summaryStep (sortTrades trades) []) in *.
  cbn [fst snd] in *. unfold lastInvariant in Hlast. cbn [fst snd] in Hlast.
  rewrite Forall_forall. intros s Hs.
  apply in_map_iff in Hs. destruct Hs as (ss & <- & Hss).
  unfold mapValues in Hss. apply in_map_iff in Hss. destruct Hss as ([k ss'] & Heq & Hin).
  cbn [snd] in Heq. subst ss'.
  assert (Hk : ss_key ss = k).
  { unfold summaryKeyed in Hkeyed. rewrite Forall_forall in Hkeyed. exact (Hkeyed _ Hin). }
  pose proof (mapGet_of_In k ss sp Hnd Hin) as Hget.
  specialize (Hag k). rewrite Hget in Hag.
  destruct (mapGet String.eqb k hp) as [ps|] eqn:Eh; [|contradiction].
  destruct Hag as (Hsz & Hcb & Hrl).
  assert (Hps : positionInvariant (ps_size ps) (ps_costBasisUsd ps)).
  { rewrite Forall_forall in Hinv. apply Hinv.
    now apply (mapGet_In_values String.eqb k). }
  destruct Hps as [Hge _].
  cbn [se_openSize se_realizedPnl se_key se_status summaryEntry]. rewrite Hk.
  split; [lra|]. split.
  - rewrite <- Hrl. specialize (Hreal k). unfold realizedOf in Hreal.
    rewrite Eh in Hreal. exact Hreal.
  - destruct (Hlast k ps Eh) as (e & He & ->).
    exists e. split; [exact He|]. cbn [historyNext ps_size ps_realizedPnl] in *.
    split; [exact Hsz|]. split; [exact Hrl|].
    assert (Hst : he_status e = if truthy (positionSize e) then OPEN else CLOSED).
    { apply lastOf_In in He. unfold entriesOf in He. apply filter_In in He.
      destruct He as [He _]. rewrite Forall_forall in Hent.
      destruct (Hent _ He) as (existing & trade & ->). reflexivity. }
    rewrite Hst. rewrite <- (gtb_comp _ _ 0 Hsz).
    destruct (gtb (positionSize e) 0) eqn:Eg.
    + apply gtb_true in Eg.
      assert (Et : truthy (positionSize e) = true) by (apply truthy_true; lra).
      now rewrite Et.
    + apply gtb_false in Eg.
      assert (Et : truthy (positionSize e) = false) by (apply truthy_false; lra).
      now rewrite Et.
Qed.

(** A partial close on one instrument and a buy on another. *)
Definition twoInstrumentTrades : list TradeActivity :=
  [sampleTrade "BUY" 10 5 100; sampleTrade "SELL" 4 (14 # 5) 200;
   {| id := "u"; userAddress := "0xabc"; title := "Other"; slug := "other";
      eventSlug := EmptyString; side := Some "BUY"%string; outcome := "No";
      asset := EmptyString; market := EmptyString; price := JNumber (1 # 4);
      size := JNullish; usdcSize := JNumber 2; timestamp := JNumber 150;
      transactionHash := EmptyString |}].

Lemma twoInstrumentTrades_positive : Forall positiveBuy twoInstrumentTrades.
Proof.
  repeat constructor; unfold positiveBuy; intros H;
    first [discriminate H | vm_compute; reflexivity].
Qed.

Lemma computePositionSummary_matches_history_witness :
  Forall
    (fun s =>
       0 <= se_openSize s
       /\ se_realizedPnl s
          == sumQ (map realizedPnl
                     (entriesOf (se_key s) (computePositionHistory twoInstrumentTrades)))
       /\ exists e,
            lastOf (entriesOf (se_key s) (computePositionHistory twoInstrumentTrades)) = Some e
            /\ positionSize e == se_openSize s
            /\ cumulativeRealizedPnl e == se_realizedPnl s
            /\ he_status e = se_status s)
    (computePositionSummary twoInstrumentTrades).
Proof.
  apply (computePositionSummary_matches_history twoInstrumentTrades
           twoInstrumentTrades_positive).
Defined.

(* ------------------------------------------------------------------ *)
(** ** Derived size and price *)

(** X5: a trade that lacks its size or its price, with the other one and the
    notional positive, gets the missing one derived so that size times price
    is the notional; a size and a price that are both present are kept. *)
Theorem trade_size_price_notional (trade : TradeActivity) :
  let p := parseNumber (price trade) in
  let s := parseNumber (size trade) in
  let u := tradeUsdcOf trade in
  (s == 0 -> 0 < p -> 0 < u ->
     tradePriceOf trade = p /\ tradeSizeOf trade * tradePriceOf trade == u)
  /\ (p == 0 -> 0 < s -> 0 < u ->
      tradeSizeOf trade = s /\ tradeSizeOf trade * tradePriceOf trade == u)
  /\ (~ s == 0 -> ~ p == 0 -> tradeSizeOf trade = s /\ tradePriceOf trade = p)
  /\ (s == 0 -> p == 0 -> tradeSizeOf trade = s /\ tradePriceOf trade = p).
Proof.
  cbv zeta. unfold tradePriceOf, tradeSizeOf.
  set (p := parseNumber (price trade)). set (s := parseNumber (size trade)).
  set (u := tradeUsdcOf trade).
  split; [|split; [|split]].
  - intros Hs Hp Hu.
    assert (E1 : truthy s = false) by now apply truthy_false.
    assert (E2 : gtb p 0 = true) by now apply gtb_true.
    assert (E3 : gtb u 0 = true) by now apply gtb_true.
    assert (E4 : truthy p = true) by (apply truthy_true; lra).
    rewrite E1, E2, E3, E4. cbn [negb andb]. split; [reflexivity|].
    field. lra.
  - intros Hp Hs Hu.
    assert (E1 : truthy s = true) by (apply truthy_true; lra).
    assert (E2 : truthy p = false) by now apply truthy_false.
    assert (E3 : gtb s 0 = true) by now apply gtb_true.
    assert (E4 : gtb u 0 = true) by now apply gtb_true.
    rewrite E1. cbn [negb andb]. rewrite E2, E3, E4. cbn [negb andb].
    split; [reflexivity|]. field. lra.
  - intros Hs Hp.
    assert (E1 : truthy s = true) by now apply truthy_true.
    assert (E2 : truthy p = true) by now apply truthy_true.
    rewrite E1. cbn [negb andb]. rewrite E2. cbn [negb andb]. split; reflexivity.
  - intros Hs Hp.
    assert (E1 : truthy s = false) by now apply truthy_false.
    assert (E2 : truthy p = false) by now apply truthy_false.
    assert (E3 : gtb p 0 = false) by (apply gtb_false; lra).
    rewrite E1, E3. cbn [negb andb]. rewrite E2.
    assert (E4 : gtb s 0 = false) by (apply gtb_false; lra).
    rewrite E4. cbn [negb andb]. split; reflexivity.
Qed.

Lemma trade_size_price_notional_witness :
  let t := nth 2 twoInstrumentTrades (sampleTrade "BUY" 1 1 1) in
  tradeSizeOf t * tradePriceOf t == 2 /\ tradeSizeOf t == 8.
Proof.
  cbv zeta.
  destruct (trade_size_price_notional (nth 2 twoInstrumentTrades (sampleTrade "BUY" 1 1 1)))
    as (Hderive & _).
  cbv zeta in Hderive.
  assert (Hs : parseNumber (size (nth 2 twoInstrumentTrades (sampleTrade "BUY" 1 1 1))) == 0)
    by reflexivity.
  assert (Hp : 0 < parseNumber (price (nth 2 twoInstrumentTrades (sampleTrade "BUY" 1 1 1))))
    by reflexivity.
  assert (Hu : 0 < tradeUsdcOf (nth 2 twoInstrumentTrades (sampleTrade "BUY" 1 1 1)))
    by reflexivity.
  destruct (Hderive Hs Hp Hu) as [_ Hprod].
  split; [exact Hprod | vm_compute; reflexivity].
Defined.

(* ------------------------------------------------------------------ *)
(** ** Totals and buckets of the aggregation *)

Definition bucketOk (b : DailyBucket) : Prop :=
  net b == profit b - loss b /\ 0 <= profit b /\ 0 <= loss b /\ (1 <= events b)%nat.

Definition bucketsKeyed (dailyMap : list (string * DailyBucket)) : Prop :=
  Forall (fun kv => date (snd kv) = fst kv) dailyMap.

Lemma addToBucket_ok (b : DailyBucket) (delta : Q) :
  net b == profit b - loss b /\ 0 <= profit b /\ 0 <= loss b ->
  bucketOk (addToBucket b delta).
Proof.
  intros (Hn & Hp & Hl). unfold bucketOk, addToBucket. cbn [net profit loss events].
  destruct (gtb delta 0) eqn:E.
  - apply gtb_true in E. repeat split; try lra. lia.
  - apply gtb_false in E. rewrite (Qabs_neg delta E).
    repeat split; try lra. lia.
Qed.

Lemma bucketFor_ok (dailyMap : list (string * DailyBucket)) (d : string) :
  Forall bucketOk (mapValues dailyMap) ->
  let b := bucketFor dailyMap d in
  net b == profit b - loss b /\ 0 <= profit b /\ 0 <= loss b.
Proof.
  intros Hall. cbn zeta. unfold bucketFor.
  destruct (mapGet String.eqb d dailyMap) as [b|] eqn:E.
  - rewrite Forall_forall in Hall.
    destruct (Hall b (mapGet_In_values String.eqb d b dailyMap E)) as (H1 & H2 & H3 & _). auto.
  - cbn [emptyBucket net profit loss]. repeat split; lra.
Qed.

Lemma bucketFor_date (dailyMap : list (string * DailyBucket)) (d : string) :
  bucketsKeyed dailyMap -> date (bucketFor dailyMap d) = d.
Proof.
  intros Hk. unfold bucketFor.
  destruct (mapGet String.eqb d dailyMap) as [b|] eqn:E; [|reflexivity].
  unfold bucketsKeyed in Hk. rewrite Forall_forall in Hk.
  assert (Hin : In (d, b) dailyMap).
  { clear Hk. induction dailyMap as [|[k v] r IH]; cbn [mapGet] in E; [discriminate|].
    destruct (String.eqb_spec d k) as [<-|Hne].
    - injection E as ->. now left.
    - right. auto. }
  exact (Hk _ Hin).
Qed.

Lemma mapSet_bucketsKeyed (d : string) (b : DailyBucket) (m : list (string * DailyBucket)) :
  date b = d -> bucketsKeyed m -> bucketsKeyed (mapSet String.eqb d b m).
Proof.
  intros Hd. unfold bucketsKeyed.
  induction m as [|[k v] r IH]; cbn [mapSet]; intros Hm.
  - repeat constructor. exact Hd.
  - inversion_clear Hm as [|? ? Hh Ht].
    destruct (String.eqb d k); constructor; auto.
Qed.

(** The events that reach a bucket: a non-zero delta and a positive timestamp. *)
Definition bucketed (a : Activity) : bool :=
  (truthy (getActivityNetDelta a) && gtb (parseNumber (a_timestamp a)) 0)%bool.

Lemma filter_perm {A : Type} (f : A -> bool) (l1 l2 : list A) :
  Permutation l1 l2 -> Permutation (filter f l1) (filter f l2).
Proof.
  induction 1 as [|x l l' _ IH|x y l|l l' l'' _ IH1 _ IH2]; cbn [filter].
  - constructor.
  - destruct (f x); [now constructor | exact IH].
  - destruct (f x), (f y); try reflexivity. apply perm_swap.
  - now transitivity (filter f l').
Qed.

Section ComparatorSorted.
Context {A : Type} (cmp : A -> A -> comparison).

(** The comparator is consistent: swapping its arguments swaps its sign, and
    not comparing larger is transitive. *)
Hypothesis cmp_antisym : forall a b, cmp a b = CompOpp (cmp b a).
Hypothesis cmp_trans : forall a b c, cmp a b <> Gt -> cmp b c <> Gt -> cmp a c <> Gt.

Lemma insertWith_sorted (x : A) (l : list A) :
  StronglySorted (fun a b => cmp a b <> Gt) l ->
  StronglySorted (fun a b => cmp a b <> Gt) (insertWith cmp x l).
Proof.
  induction l as [|y r IH]; intros Hs; cbn [insertWith].
  - repeat constructor.
  - apply StronglySorted_inv in Hs. destruct Hs as [Hr Hy].
    destruct (cmp x y) eqn:E.
    + constructor; [now apply IH|].
      eapply Permutation_Forall; [apply insertWith_perm|].
      constructor; [|exact Hy]. rewrite cmp_antisym, E. discriminate.
    + constructor; [now constructor|].
      assert (Hxy : cmp x y <> Gt) by (rewrite E; discriminate).
      constructor; [exact Hxy|].
      eapply Forall_impl; [|exact Hy]. intros z Hz. now apply (cmp_trans x y z).
    + constructor; [now apply IH|].
      eapply Permutation_Forall; [apply insertWith_perm|].
      constructor; [|exact Hy]. rewrite cmp_antisym, E. discriminate.
Qed.

Lemma sortWith_sorted (l : list A) :
  StronglySorted (fun a b => cmp a b <> Gt) (sortWith cmp l).
Proof.
  induction l as [|x r IH] using rev_ind; [constructor|].
  unfold sortWith in *. rewrite fold_left_app. cbn [fold_left].
  now apply insertWith_sorted.
Qed.

End ComparatorSorted.

Section AssocMapLookup.
Context {K V : Type}.
Variable keqb : K -> K -> bool.
Hypothesis keqb_eq : forall a b : K, keqb a b = true <-> a = b.

(** With pairwise distinct keys a listed pair is the one a lookup finds. *)
Lemma mapGet_listed (k : K) (v : V) (m : list (K * V)) :
  NoDup (map fst m) -> In (k, v) m -> mapGet keqb k m = Some v.
Proof.
  induction m as [|[k' v'] r IH]; cbn [map fst mapGet In]; intros Hnd Hin; [destruct Hin|].
  inversion_clear Hnd as [|? ? Hk' Hr].
  destruct Hin as [Heq|Hin].
  - injection Heq as -> ->. now rewrite (proj2 (keqb_eq k k) eq_refl).
  - destruct (keqb k k') eqn:E; [|now apply IH].
    apply keqb_eq in E. subst k'. exfalso. apply Hk'.
    apply in_map_iff. exists (k, v). split; [reflexivity | exact Hin].
Qed.

Lemma mapValues_listed (v : V) (m : list (K * V)) :
  In v (mapValues m) -> exists k, In (k, v) m.
Proof.
  unfold mapValues. rewrite in_map_iff. intros ([k v'] & Hv & Hin).
  cbn [snd] in Hv. subst v'. now exists k.
Qed.

End AssocMapLookup.

(* ------------------------------------------------------------------ *)
(** ** What a bucket holds *)

(** The part of a delta that goes to [profit] and the part that goes to
    [loss]. *)
Definition gainOf (delta : Q) : Q := if gtb delta 0 then delta else 0.
Definition lossOf (delta : Q) : Q := if gtb delta 0 then 0 else Qabs delta.

Lemma sumQ_app (a b : list Q) : sumQ (a ++ b) == sumQ a + sumQ b.
Proof.
  unfold sumQ. induction a as [|x r IH]; cbn [app fold_right]; [lra|].
  rewrite IH. lra.
Qed.

Section BucketFill.
Context {E : Type}.

(** The events that reach a bucket, the key of their bucket and what they
    add to it. *)
Variable counted : E -> bool.
Variable keyOf : E -> string.
Variable deltaOf : E -> Q.

(** The bucket update shared by the two daily aggregations. *)
Definition bucketStep (m : list (string * DailyBucket)) (e : E)
    : list (string * DailyBucket) :=
  if counted e
  then mapSet String.eqb (keyOf e) (addToBucket (bucketFor m (keyOf e)) (deltaOf e)) m
  else m.

(** The events of a list that belong to the bucket of a key. *)
Definition eventsOn (d : string) (l : list E) : list E :=
  filter (fun e => (counted e && String.eqb (keyOf e) d)%bool) l.

Definition bucketHolds (l : list E) (b : DailyBucket) : Prop :=
  net b == sumQ (map deltaOf (eventsOn (date b) l))
  /\ profit b == sumQ (map (fun e => gainOf (deltaOf e)) (eventsOn (date b) l))
  /\ loss b == sumQ (map (fun e => lossOf (deltaOf e)) (eventsOn (date b) l))
  /\ events b = List.length (eventsOn (date b) l).

(** The map after the events [l]: its keys are pairwise distinct, and under
    each key lies the bucket of the events of that key, of which there is at
    least one. *)
Definition filled (l : list E) (m : list (string * DailyBucket)) : Prop :=
  NoDup (map fst m)
  /\ forall d,
       match mapGet String.eqb d m with
       | Some b => date b = d /\ bucketHolds l b /\ eventsOn d l <> []
       | None => eventsOn d l = []
       end.

Lemma eventsOn_snoc (d : string) (l : list E) (e : E) :
  eventsOn d (l ++ [e])
  = eventsOn d l ++ (if (counted e && String.eqb (keyOf e) d)%bool then [e] else []).
Proof. unfold eventsOn. rewrite filter_app. reflexivity. Qed.

Lemma addToBucket_holds (l : list E) (e : E) (b : DailyBucket) :
  bucketHolds l b ->
  counted e = true ->
  keyOf e = date b ->
  bucketHolds (l ++ [e]) (addToBucket b (deltaOf e)).
Proof.
  intros (Hn & Hp & Hl & He) Hc Hk. unfold bucketHolds.
  cbn [addToBucket date net profit loss events].
  rewrite eventsOn_snoc, Hc, Hk, String.eqb_refl. cbn [andb].
  rewrite !map_app, !sumQ_app, List.length_app. cbn [map List.length].
  rewrite <- Hn, <- Hp, <- Hl, <- He.
  unfold sumQ, gainOf, lossOf. cbn [fold_right].
  destruct (gtb (deltaOf e) 0); repeat split; try lra; lia.
Qed.

Lemma bucketStep_filled (l : list E) (m : list (string * DailyBucket)) (e : E) :
  filled l m -> filled (l ++ [e]) (bucketStep m e).
Proof.
  intros [Hnd Hall]. unfold bucketStep. destruct (counted e) eqn:Ec.
  - split; [now apply (mapSet_keys_NoDup String.eqb String.eqb_eq)|].
    intros d. destruct (String.eqb_spec d (keyOf e)) as [->|Hne].
    + rewrite (mapGet_mapSet_same String.eqb String.eqb_eq).
      specialize (Hall (keyOf e)). unfold bucketFor.
      destruct (mapGet String.eqb (keyOf e) m) as [b|].
      * destruct Hall as (Hd & Hb & _). split; [exact Hd|]. split.
        -- now apply addToBucket_holds.
        -- rewrite eventsOn_snoc, Ec, String.eqb_refl. cbn [andb].
           intros H. now apply app_eq_nil in H.
      * split; [reflexivity|]. split.
        -- apply addToBucket_holds; [|exact Ec | reflexivity].
           unfold bucketHolds. cbn [emptyBucket date net profit loss events].
           rewrite Hall. cbn. repeat split; lra.
        -- rewrite eventsOn_snoc, Ec, String.eqb_refl. cbn [andb].
           intros H. now apply app_eq_nil in H.
    + rewrite (mapGet_mapSet_other String.eqb String.eqb_eq) by exact Hne.
      assert (Hsame : eventsOn d (l ++ [e]) = eventsOn d l).
      { rewrite eventsOn_snoc.
        assert (En : String.eqb (keyOf e) d = false).
        { apply String.eqb_neq. intros H. now apply Hne. }
        rewrite En, andb_false_r. apply app_nil_r. }
      specialize (Hall d). destruct (mapGet String.eqb d m) as [b|].
      * destruct Hall as (Hd & Hb & Hnil). split; [exact Hd|]. split.
        -- unfold bucketHolds in *. rewrite Hd, Hsame. rewrite Hd in Hb. exact Hb.
        -- now rewrite Hsame.
      * now rewrite Hsame.
  - split; [exact Hnd|]. intros d.
    assert (Hsame : forall d', eventsOn d' (l ++ [e]) = eventsOn d' l).
    { intros d'. rewrite eventsOn_snoc, Ec. cbn [andb]. apply app_nil_r. }
    specialize (Hall d). destruct (mapGet String.eqb d m) as [b|].
    + destruct Hall as (Hd & Hb & Hnil). split; [exact Hd|]. split.
      * unfold bucketHolds in *. rewrite Hsame. exact Hb.
      * now rewrite Hsame.
    + now rewrite Hsame.
Qed.

Lemma fold_filled (l : list E) : filled l (fold_left bucketStep l []).
Proof.
  induction l as [|e r IH] using rev_ind.
  - split; [constructor | intros d; reflexivity].
  - rewrite fold_left_snoc. now apply bucketStep_filled.
Qed.

Lemma filled_value (l : list E) (m : list (string * DailyBucket)) (b : DailyBucket) :
  filled l m -> In b (mapValues m) ->
  In (date b, b) m /\ bucketHolds l b /\ eventsOn (date b) l <> [].
Proof.
  intros [Hnd Hall] Hin. destruct (mapValues_listed b m Hin) as [d Hd].
  pose proof (mapGet_listed String.eqb String.eqb_eq d b m Hnd Hd) as Hget.
  specialize (Hall d). rewrite Hget in Hall. destruct Hall as (<- & Hb & Hne).
  auto.
Qed.

Lemma filled_dates (l : list E) (m : list (string * DailyBucket)) :
  filled l m -> map date (mapValues m) = map fst m.
Proof.
  intros Hf. unfold mapValues. rewrite map_map. apply map_ext_in.
  intros [k v] Hin. cbn [fst snd].
  destruct Hf as [Hnd Hall].
  pose proof (mapGet_listed String.eqb String.eqb_eq k v m Hnd Hin) as Hget.
  specialize (Hall k). rewrite Hget in Hall. exact (proj1 Hall).
Qed.

Lemma filled_keys (l : list E) (m : list (string * DailyBucket)) (d : string) :
  filled l m ->
  (In d (map date (mapValues m))
   <-> exists e, In e l /\ counted e = true /\ keyOf e = d).
Proof.
  intros Hf. split.
  - rewrite in_map_iff. intros (b & <- & Hin).
    destruct (filled_value l m b Hf Hin) as (_ & _ & Hne).
    destruct (eventsOn (date b) l) as [|e r] eqn:Ev; [contradiction|].
    assert (He : In e (eventsOn (date b) l)) by (rewrite Ev; now left).
    unfold eventsOn in He. apply filter_In in He. destruct He as [Hl Hc].
    apply andb_prop in Hc. destruct Hc as [Hc Hk]. apply String.eqb_eq in Hk.
    exists e. auto.
  - intros (e & Hl & Hc & Hk).
    assert (He : In e (eventsOn d l)).
    { unfold eventsOn. apply filter_In. split; [exact Hl|].
      rewrite Hc, Hk, String.eqb_refl. reflexivity. }
    destruct Hf as [Hnd Hall]. specialize (Hall d).
    destruct (mapGet String.eqb d m) as [b|] eqn:Hget.
    + destruct Hall as (Hd & _). apply in_map_iff. exists b. split; [exact Hd|].
      exact (mapGet_In_values String.eqb d b m Hget).
    + rewrite Hall in He. destruct He.
Qed.

Lemma bucketHolds_perm (l l' : list E) (b : DailyBucket) :
  Permutation l l' -> bucketHolds l b -> bucketHolds l' b.
Proof.
  intros Hperm (Hn & Hp & Hl & He).
  assert (Hev : Permutation (eventsOn (date b) l) (eventsOn (date b) l'))
    by now apply filter_perm.
  unfold bucketHolds.
  rewrite <- (sumQ_perm _ _ (Permutation_map deltaOf Hev)).
  rewrite <- (sumQ_perm _ _ (Permutation_map (fun e => gainOf (deltaOf e)) Hev)).
  rewrite <- (sumQ_perm _ _ (Permutation_map (fun e => lossOf (deltaOf e)) Hev)).
  rewrite <- (Permutation_length Hev). auto.
Qed.

End BucketFill.

(* ------------------------------------------------------------------ *)
(** ** The lifetime totals and daily buckets *)

(** The times for which the ISO rendering exists: up to 8.64e15 ms either
    side of 1970. *)
Definition inDateRange (ms : Q) : Prop := Qabs ms <= 8640000000000000.

Section LifetimeBuckets.
Variable sqrt : Q -> Q.
Variable fl : Q -> Q.
Variable isoDate : Q -> string.
Variable localeCompare : string -> string -> comparison.

(** The date key of an activity. *)
Definition dateOfActivity (a : Activity) : string :=
  isoDate (normalizeTimestampMs (parseNumber (a_timestamp a))).

(** What the aggregation loop keeps true of its variables. *)
Definition totalsInvariant (st : Totals) : Prop :=
  t_netPnl st == t_totalProfit st - t_totalLoss st
  /\ 0 <= t_totalProfit st
  /\ 0 <= t_totalLoss st
  /\ Forall bucketOk (mapValues (t_dailyMap st))
  /\ bucketsKeyed (t_dailyMap st)
  /\ NoDup (map fst (t_dailyMap st)).

Lemma aggregateStep_invariant (st : Totals) (activity : Activity) :
  totalsInvariant st -> totalsInvariant (aggregateStep isoDate st activity).
Proof.
  intros (Hn & Hp & Hl & Hb & Hk & Hnd). unfold aggregateStep.
  destruct (truthy (getActivityNetDelta activity)); cbn [negb];
    [|repeat split; assumption].
  set (delta := getActivityNetDelta activity).
  unfold totalsInvariant. cbn [t_netPnl t_totalProfit t_totalLoss t_dailyMap].
  assert (Htot : t_netPnl st + delta
                 == (if gtb delta 0 then t_totalProfit st + delta else t_totalProfit st)
                    - (if gtb delta 0 then t_totalLoss st else t_totalLoss st + Qabs delta)
                 /\ 0 <= (if gtb delta 0 then t_totalProfit st + delta else t_totalProfit st)
                 /\ 0 <= (if gtb delta 0 then t_totalLoss st else t_totalLoss st + Qabs delta)).
  { destruct (gtb delta 0) eqn:E.
    - apply gtb_true in E. repeat split; lra.
    - apply gtb_false in E. rewrite (Qabs_neg delta E). repeat split; lra. }
  destruct Htot as (H1 & H2 & H3).
  split; [exact H1|]. split; [exact H2|]. split; [exact H3|].
  destruct (gtb (parseNumber (a_timestamp activity)) 0); [|repeat split; assumption].
  set (d := isoDate (normalizeTimestampMs (parseNumber (a_timestamp activity)))).
  split; [|split].
  - rewrite Forall_forall. intros b Hin. apply mapSet_values_In in Hin.
    destruct Hin as [->|Hin]; [|rewrite Forall_forall in Hb; auto].
    apply addToBucket_ok. now apply bucketFor_ok.
  - apply mapSet_bucketsKeyed; [|exact Hk].
    cbn [addToBucket date]. now apply bucketFor_date.
  - now apply (mapSet_keys_NoDup String.eqb String.eqb_eq).
Qed.

Lemma aggregate_invariant (activities : list Activity) :
  totalsInvariant (aggregate isoDate activities).
Proof.
  unfold aggregate.
  induction (sortActivities activities) as [|a r IH] using rev_ind.
  - unfold totalsInvariant. cbn. repeat split; try lra; constructor.
  - rewrite fold_left_snoc. now apply aggregateStep_invariant.
Qed.

(** X6: the lifetime totals are consistent: netPnl is totalProfit minus
    totalLoss, and neither total is negative. *)
Theorem computeLifetimeAnalytics_totals (activities : list Activity) :
  let r := computeLifetimeAnalytics sqrt fl isoDate localeCompare activities in
  netPnl r == totalProfit r - totalLoss r
  /\ 0 <= totalProfit r
  /\ 0 <= totalLoss r.
Proof.
  destruct (aggregate_invariant activities) as (Hn & Hp & Hl & _).
  cbn zeta. unfold computeLifetimeAnalytics. cbn [netPnl totalProfit totalLoss].
  auto.
Qed.

(** The [dailyMap] of the loop is filled by the shared bucket update. *)
Lemma aggregateStep_dailyMap (st : Totals) (a : Activity) :
  t_dailyMap (aggregateStep isoDate st a)
  = bucketStep bucketed dateOfActivity getActivityNetDelta (t_dailyMap st) a.
Proof.
  unfold aggregateStep, bucketStep, bucketed, dateOfActivity.
  destruct (truthy (getActivityNetDelta a)); cbn [negb andb]; [|reflexivity].
  cbn [t_dailyMap]. destruct (gtb (parseNumber (a_timestamp a)) 0); reflexivity.
Qed.

Lemma aggregate_dailyMap (l : list Activity) (st : Totals) :
  t_dailyMap (fold_left (aggregateStep isoDate) l st)
  = fold_left (bucketStep bucketed dateOfActivity getActivityNetDelta) l (t_dailyMap st).
Proof.
  revert st. induction l as [|a r IH]; intros st; cbn [fold_left]; [reflexivity|].
  now rewrite IH, aggregateStep_dailyMap.
Qed.

Lemma aggregate_filled (activities : list Activity) :
  filled bucketed dateOfActivity getActivityNetDelta (sortActivities activities)
    (t_dailyMap (aggregate isoDate activities)).
Proof.
  unfold aggregate. rewrite aggregate_dailyMap. cbn [t_dailyMap]. apply fold_filled.
Qed.

(** X7: for a consistent [localeCompare] and event times inside the range of
    [Date], the daily buckets come one per date key, in the ascending order
    of [localeCompare]; the keys are those of the activities with a non-zero
    delta and a positive timestamp; and each bucket holds the activities of
    its key: its net is the sum of their deltas, its profit the sum of the
    positive ones, its loss the sum of the absolute negative ones and its
    event count their number, which is at least one; so its net is its
    profit minus its loss. *)
Theorem computeLifetimeAnalytics_daily (activities : list Activity) :
  (forall a b, localeCompare a b = CompOpp (localeCompare b a)) ->
  (forall a b c,
      localeCompare a b <> Gt -> localeCompare b c <> Gt -> localeCompare a c <> Gt) ->
  Forall (fun a => bucketed a = true ->
                   inDateRange (normalizeTimestampMs (parseNumber (a_timestamp a))))
    activities ->
  let r := computeLifetimeAnalytics sqrt fl isoDate localeCompare activities in
  NoDup (map date (daily r))
  /\ StronglySorted (fun a b => localeCompare (date a) (date b) <> Gt) (daily r)
  /\ (forall d,
        In d (map date (daily r))
        <-> exists a, In a activities /\ bucketed a = true /\ dateOfActivity a = d)
  /\ Forall
       (fun b =>
          let evs :=
            filter (fun a => (bucketed a && String.eqb (dateOfActivity a) (date b))%bool)
              activities in
          net b == sumQ (map getActivityNetDelta evs)
          /\ profit b == sumQ (map (fun a => gainOf (getActivityNetDelta a)) evs)
          /\ loss b == sumQ (map (fun a => lossOf (getActivityNetDelta a)) evs)
          /\ events b = List.length evs
          /\ (1 <= events b)%nat
          /\ net b == profit b - loss b)
       (daily r).
Proof.
  intros Hanti Htrans _. cbn zeta. unfold computeLifetimeAnalytics. cbn [daily].
  unfold sortDaily.
  pose proof (aggregate_filled activities) as Hf.
  destruct (aggregate_invariant activities) as (_ & _ & _ & Hok & _).
  set (m := t_dailyMap (aggregate isoDate activities)) in *.
  set (cmp := fun a b : DailyBucket => localeCompare (date a) (date b)).
  pose proof (sortWith_perm cmp (mapValues m)) as Hperm.
  assert (Hsorted : Permutation (sortActivities activities) activities).
  { symmetry. apply sortByKey_perm. }
  split; [|split; [|split]].
  - eapply Permutation_NoDup; [apply Permutation_map; exact Hperm|].
    rewrite (filled_dates _ _ _ _ _ Hf). exact (proj1 Hf).
  - apply sortWith_sorted.
    + intros a b. apply Hanti.
    + intros a b c. apply Htrans.
  - intros d. split.
    + intros Hin.
      assert (Hin' : In d (map date (mapValues m))).
      { eapply Permutation_in; [|exact Hin]. apply Permutation_map. symmetry. exact Hperm. }
      apply (filled_keys _ _ _ _ m d Hf) in Hin'. destruct Hin' as (a & Ha & Hrest).
      exists a. split; [|exact Hrest]. eapply Permutation_in; [exact Hsorted | exact Ha].
    + intros (a & Ha & Hrest).
      assert (Hex : exists a, In a (sortActivities activities)
                              /\ bucketed a = true /\ dateOfActivity a = d).
      { exists a. split; [|exact Hrest]. eapply Permutation_in; [|exact Ha].
        symmetry. exact Hsorted. }
      apply (filled_keys _ _ _ _ m d Hf) in Hex.
      eapply Permutation_in; [|exact Hex]. apply Permutation_map. exact Hperm.
  - eapply Permutation_Forall; [exact Hperm|].
    rewrite Forall_forall. intros b Hin.
    destruct (filled_value _ _ _ _ m b Hf Hin) as (_ & Hb & Hne).
    apply (bucketHolds_perm _ _ _ _ _ b Hsorted) in Hb.
    destruct Hb as (Hn & Hp & Hl & He).
    rewrite Forall_forall in Hok.
    destruct (Hok b Hin) as (Hnet & _ & _ & Hone).
    cbn zeta. unfold eventsOn in *. auto 10.
Qed.

(* ------------------------------------------------------------------ *)
(** ** The event count of the buckets *)

Definition eventCount (dailyMap : list (string * DailyBucket)) : nat :=
  list_sum (map events (mapValues dailyMap)).

Lemma eventCount_mapSet (dailyMap : list (string * DailyBucket)) (d : string) (delta : Q) :
  eventCount (mapSet String.eqb d (addToBucket (bucketFor dailyMap d) delta) dailyMap)
  = S (eventCount dailyMap).
Proof.
  unfold eventCount, mapValues, bucketFor.
  induction dailyMap as [|[k v] r IH]; cbn [mapGet mapSet map snd list_sum fold_right].
  - reflexivity.
  - destruct (String.eqb d k) eqn:E; cbn [map snd list_sum fold_right addToBucket events].
    + reflexivity.
    + unfold list_sum in IH. rewrite IH. lia.
Qed.

Lemma aggregate_fold_events (l : list Activity) (st : Totals) :
  eventCount (t_dailyMap (fold_left (aggregateStep isoDate) l st))
  = (eventCount (t_dailyMap st) + List.length (filter bucketed l))%nat.
Proof.
  revert st. induction l as [|a r IH]; intros st; cbn [fold_left filter]; [cbn; lia|].
  rewrite IH. unfold aggregateStep. unfold bucketed at 2.
  destruct (truthy (getActivityNetDelta a)); cbn [negb andb]; [|reflexivity].
  cbn [t_dailyMap].
  destruct (gtb (parseNumber (a_timestamp a)) 0); cbn [List.length]; [|reflexivity].
  rewrite eventCount_mapSet. lia.
Qed.

(** X9: the event counts of the daily buckets add up to the number of
    activities with a non-zero delta and a positive timestamp, and there are
    at most that many active days. *)
Theorem computeLifetimeAnalytics_events (activities : list Activity) :
  let r := computeLifetimeAnalytics sqrt fl isoDate localeCompare activities in
  list_sum (map events (daily r)) = List.length (filter bucketed activities)
  /\ (activeDays r <= List.length (filter bucketed activities))%nat.
Proof.
  cbn zeta. unfold computeLifetimeAnalytics. cbn [daily activeDays].
  pose proof (aggregate_fold_events (sortActivities activities)
                {| t_totalProfit := 0; t_totalLoss := 0; t_netPnl := 0; t_dailyMap := [] |})
    as Hev.
  fold (aggregate isoDate activities) in Hev. cbn [t_dailyMap] in Hev.
  change (eventCount []) with 0%nat in Hev. cbn [Nat.add] in Hev.
  assert (Hfilter : List.length (filter bucketed (sortActivities activities))
                    = List.length (filter bucketed activities)).
  { apply Permutation_length. apply filter_perm. symmetry. apply sortByKey_perm. }
  rewrite Hfilter in Hev.
  pose proof (sortWith_perm (fun a b => localeCompare (date a) (date b))
                (mapValues (t_dailyMap (aggregate isoDate activities)))) as Hperm.
  assert (Hsum : list_sum (map events
                             (sortDaily localeCompare
                                (t_dailyMap (aggregate isoDate activities))))
                 = eventCount (t_dailyMap (aggregate isoDate activities))).
  { unfold eventCount, sortDaily.
    assert (G : forall l1 l2 : list nat, Permutation l1 l2 -> list_sum l1 = list_sum l2).
    { unfold list_sum. induction 1; cbn [fold_right]; lia. }
    apply G. apply Permutation_map. symmetry. exact Hperm. }
  split; [now rewrite Hsum|].
  rewrite <- Hev, <- Hsum.
  destruct (aggregate_invariant activities) as (_ & _ & _ & Hb & _).
  assert (Hok : Forall bucketOk
                  (sortDaily localeCompare (t_dailyMap (aggregate isoDate activities)))).
  { eapply Permutation_Forall; [exact Hperm | exact Hb]. }
  unfold list_sum. revert Hok.
  generalize (sortDaily localeCompare (t_dailyMap (aggregate isoDate activities))).
  intros l Hok.
  induction Hok as [|b l (_ & _ & _ & He) _ IH]; cbn [List.length map fold_right]; lia.
Qed.

(* ------------------------------------------------------------------ *)
(** ** Win rate and daily averages *)

Lemma ofNat_le (a b : nat) : (a <= b)%nat -> ofNat a <= ofNat b.
Proof. intros H. unfold ofNat. rewrite <- Zle_Qle. lia. Qed.

Lemma ofNat_pos (a : nat) : (0 < a)%nat -> 0 < ofNat a.
Proof. intros H. unfold ofNat. change 0 with (inject_Z 0). rewrite <- Zlt_Qlt. lia. Qed.

Lemma winLoss_disjoint (days : list DailyBucket) :
  (winDaysOf days + lossDaysOf days <= List.length days)%nat.
Proof.
  unfold winDaysOf, lossDaysOf. induction days as [|d r IH]; cbn [filter List.length]; [lia|].
  destruct (gtb (net d) 0) eqn:Eg; destruct (ltb (net d) 0) eqn:El; cbn [List.length]; try lia.
  apply gtb_true in Eg. apply ltb_true in El. lra.
Qed.

Lemma sumProfitDays_pos (days : list DailyBucket) :
  (0 < winDaysOf days)%nat -> 0 < sumProfitDays days.
Proof.
  unfold sumProfitDays, winDaysOf, profitDays.
  induction days as [|d r IH]; cbn [filter List.length]; [lia|].
  destruct (gtb (net d) 0) eqn:E; [|exact IH].
  intros _. apply gtb_true in E. cbn [map sumQ fold_right].
  assert (Hr : 0 <= sumQ (map net (filter (fun day => gtb (net day) 0) r))).
  { clear. induction r as [|x r IH]; cbn [filter]; [cbn; lra|].
    destruct (gtb (net x) 0) eqn:E; [|exact IH].
    apply gtb_true in E. cbn [map sumQ fold_right]. unfold sumQ in IH. lra. }
  unfold sumQ in Hr. lra.
Qed.


Lemma dayRates (days : list DailyBucket) :
  (winDaysOf days + lossDaysOf days <= List.length days)%nat
  /\ (winRateOf days = None <-> days = [])
  /\ (forall w, winRateOf days = Some w -> 0 <= w /\ w <= 1)
  /\ (forall a, avgWinDayOf days = Some a -> 0 < a)
  /\ (forall a, avgLossDayOf days = Some a -> 0 < a).
Proof.
  pose proof (winLoss_disjoint days) as Hwl.
  split; [exact Hwl|]. split; [|split; [|split]].
  - unfold winRateOf. destruct days as [|d r]; cbn [List.length Nat.ltb Nat.leb].
    + split; reflexivity.
    + split; discriminate.
  - intros w. unfold winRateOf.
    destruct (Nat.ltb_spec 0 (List.length days)) as [Hn|Hn]; [|discriminate].
    intros [= <-].
    pose proof (ofNat_pos _ Hn) as Hpos.
    assert (Hle : ofNat (winDaysOf days) <= ofNat (List.length days))
      by (apply ofNat_le; lia).
    assert (Hge : 0 <= ofNat (winDaysOf days))
      by (change 0 with (ofNat 0); apply ofNat_le; lia).
    split.
    + apply Qle_shift_div_l; [exact Hpos | lra].
    + apply Qle_shift_div_r; [exact Hpos | lra].
  - intros a. unfold avgWinDayOf.
    destruct (Nat.ltb_spec 0 (winDaysOf days)) as [Hn|Hn]; [|discriminate].
    intros [= <-].
    pose proof (ofNat_pos _ Hn) as Hpos. pose proof (sumProfitDays_pos days Hn) as Hs.
    rewrite <- totalPositiveOf_sum in Hs.
    apply Qlt_shift_div_l; [exact Hpos | lra].
  - intros a. unfold avgLossDayOf.
    destruct (Nat.ltb_spec 0 (lossDaysOf days)) as [Hn|Hn]; [|discriminate].
    intros [= <-].
    pose proof (ofNat_pos _ Hn) as Hpos.
    assert (Hs : 0 < sumLossDays days) by (apply sumLossDays_pos; lia).
    rewrite <- totalNegativeOf_sum in Hs.
    apply Qlt_shift_div_l; [exact Hpos | lra].
Qed.

(** X8: the win rate, when there is one, lies between 0 and 1; a day is
    never both a win and a loss; and the average win day and the average loss
    day, when there are such days, are strictly positive.  This holds of every
    sequence of daily buckets, and so of the rates that
    [computeLifetimeAnalytics] returns. *)
Theorem lifetime_rates (days : list DailyBucket) :
  (winDaysOf days + lossDaysOf days <= List.length days)%nat
  /\ (winRateOf days = None <-> days = [])
  /\ (forall w, winRateOf days = Some w -> 0 <= w /\ w <= 1)
  /\ (forall a, avgWinDayOf days = Some a -> 0 < a)
  /\ (forall a, avgLossDayOf days = Some a -> 0 < a)
  /\ (forall activities : list Activity,
        let r := computeLifetimeAnalytics sqrt fl isoDate localeCompare activities in
        (winRate r = None <-> activeDays r = 0%nat)
        /\ (forall w, winRate r = Some w -> 0 <= w /\ w <= 1)
        /\ (forall a, avgWinDay r = Some a -> 0 < a)
        /\ (forall a, avgLossDay r = Some a -> 0 < a)).
Proof.
  destruct (dayRates days) as (H1 & H2 & H3 & H4 & H5).
  repeat (split; [assumption|]).
  intros activities. cbn zeta. unfold computeLifetimeAnalytics.
  cbn [winRate activeDays avgWinDay avgLossDay].
  destruct (dayRates (sortDaily localeCompare (t_dailyMap (aggregate isoDate activities))))
    as (_ & G2 & G3 & G4 & G5).
  split; [|auto].
  rewrite G2. split; [intros ->; reflexivity | apply length_zero_iff_nil].
Qed.

End LifetimeBuckets.

(* ------------------------------------------------------------------ *)
(** ** The buckets on the stand-ins *)

Lemma codeUnitCompare_antisym (a b : string) :
  codeUnitCompare a b = CompOpp (codeUnitCompare b a).
Proof. apply String.compare_antisym. Qed.

Lemma codeUnitCompare_trans (a b c : string) :
  codeUnitCompare a b <> Gt -> codeUnitCompare b c <> Gt -> codeUnitCompare a c <> Gt.
Proof.
  unfold codeUnitCompare. revert b c.
  induction a as [|x a IH]; intros [|y b] [|z c]; cbn [String.compare];
    intros H1 H2; try discriminate; try (exfalso; now (apply H1 || apply H2)).
  unfold Ascii.compare in *.
  destruct (N.compare_spec (N_of_ascii x) (N_of_ascii y)) as [Exy|Lxy|Gxy];
    [| |exfalso; now apply H1];
    destruct (N.compare_spec (N_of_ascii y) (N_of_ascii z)) as [Eyz|Lyz|Gyz];
    try (exfalso; now apply H2);
    destruct (N.compare_spec (N_of_ascii x) (N_of_ascii z)) as [Exz|Lxz|Gxz];
    try lia; try discriminate.
  now apply (IH b c).
Qed.

Lemma computeLifetimeAnalytics_daily_witness :
  let r := computeLifetimeAnalytics sqrtApprox exactly isoDateUtc codeUnitCompare mixedDays in
  map date (daily r) = ["2023-11-14"; "2023-11-15"; "2023-11-16"; "2023-11-17"]%string
  /\ NoDup (map date (daily r))
  /\ StronglySorted (fun a b => codeUnitCompare (date a) (date b) <> Gt) (daily r).
Proof.
  cbv zeta. split; [vm_compute; reflexivity|].
  destruct (computeLifetimeAnalytics_daily sqrtApprox exactly isoDateUtc codeUnitCompare
              mixedDays codeUnitCompare_antisym codeUnitCompare_trans) as (Hnd & Hs & _).
  - unfold mixedDays.
    repeat (apply Forall_cons; [intros _; vm_compute; discriminate|]). apply Forall_nil.
  - split; assumption.
Defined.

(* ------------------------------------------------------------------ *)
(** ** Daily trade PnL: [computeTradeDailyPnl] *)

(** [normalizeSide(trade.side) === 'sell' ? usdcSize : -usdcSize] *)
Definition signedNotional (trade : TradeActivity) : Q :=
  match normalizeSide (side trade) with
  | Sell => parseNumber (usdcSize trade)
  | Buy => - parseNumber (usdcSize trade)
  end.

(** The trades that carry a timestamp. *)
Definition datedTrades (trades : list TradeActivity) : list TradeActivity :=
  filter (fun t => truthy (parseNumber (timestamp t))) trades.

(** The trades that reach an entry: a timestamp and a signed notional that
    are not 0. *)
Definition tradeCounted (t : TradeActivity) : bool :=
  (truthy (parseNumber (timestamp t)) && truthy (signedNotional t))%bool.

Definition dailyMapOk (m : list (string * DailyBucket)) : Prop :=
  Forall bucketOk (mapValues m) /\ bucketsKeyed m /\ NoDup (map fst m).

Section TradeDaily.
Variable isoDate : Q -> string.
Variable localeCompare : string -> string -> comparison.

(** The body of the [forEach] of [computeTradeDailyPnl]; its entries have the
    shape of the lifetime buckets, [events] counting the trades. *)
Definition tradeDailyStep (dailyMap : list (string * DailyBucket)) (trade : TradeActivity)
    : list (string * DailyBucket) :=
  let ts := parseNumber (timestamp trade) in
  if negb (truthy ts) then dailyMap
  else
    let n := signedNotional trade in
    if negb (truthy n) then dailyMap
    else
      let d := isoDate (normalizeTimestampMs ts) in
      mapSet String.eqb d (addToBucket (bucketFor dailyMap d) n) dailyMap.

(** [Array.from(daily.values()).sort((a, b) => a.date.localeCompare(b.date))] *)
Definition computeTradeDailyPnl (trades : list TradeActivity) : list DailyBucket :=
  sortDaily localeCompare (fold_left tradeDailyStep trades []).

(** The date key of a trade. *)
Definition dateOfTrade (t : TradeActivity) : string :=
  isoDate (normalizeTimestampMs (parseNumber (timestamp t))).

Lemma tradeDailyStep_ok (m : list (string * DailyBucket)) (trade : TradeActivity) :
  dailyMapOk m -> dailyMapOk (tradeDailyStep m trade).
Proof.
  intros (Hb & Hk & Hnd). unfold tradeDailyStep.
  destruct (truthy (parseNumber (timestamp trade))); cbn [negb]; [|repeat split; assumption].
  destruct (truthy (signedNotional trade)); cbn [negb]; [|repeat split; assumption].
  split; [|split].
  - rewrite Forall_forall. intros b Hin. apply mapSet_values_In in Hin.
    destruct Hin as [->|Hin]; [|rewrite Forall_forall in Hb; auto].
    apply addToBucket_ok. now apply bucketFor_ok.
  - apply mapSet_bucketsKeyed; [|exact Hk].
    cbn [addToBucket date]. now apply bucketFor_date.
  - now apply (mapSet_keys_NoDup String.eqb String.eqb_eq).
Qed.

Lemma tradeDailyStep_sum (m : list (string * DailyBucket)) (trade : TradeActivity) :
  bucketSum (tradeDailyStep m trade)
  == bucketSum m
     + (if truthy (parseNumber (timestamp trade)) then signedNotional trade else 0).
Proof.
  unfold tradeDailyStep.
  destruct (truthy (parseNumber (timestamp trade))); cbn [negb]; [|lra].
  destruct (truthy (signedNotional trade)) eqn:E; cbn [negb].
  - apply bucketSum_mapSet.
  - apply truthy_false in E. lra.
Qed.

Lemma tradeDaily_fold (trades : list TradeActivity) (m : list (string * DailyBucket)) :
  dailyMapOk m ->
  dailyMapOk (fold_left tradeDailyStep trades m)
  /\ bucketSum (fold_left tradeDailyStep trades m)
     == bucketSum m + sumQ (map signedNotional (datedTrades trades)).
Proof.
  revert m. induction trades as [|t r IH]; intros m Hm; cbn [fold_left].
  - split; [exact Hm | cbn; lra].
  - destruct (IH _ (tradeDailyStep_ok m t Hm)) as [Hok Hsum].
    split; [exact Hok|]. rewrite Hsum, tradeDailyStep_sum.
    unfold datedTrades. cbn [filter].
    unfold sumQ.
    destruct (truthy (parseNumber (timestamp t))); cbn [map fold_right]; lra.
Qed.

(** The [forEach] fills its map by the shared bucket update. *)
Lemma tradeDailyStep_bucketStep (m : list (string * DailyBucket)) (t : TradeActivity) :
  tradeDailyStep m t = bucketStep tradeCounted dateOfTrade signedNotional m t.
Proof.
  unfold tradeDailyStep, bucketStep, tradeCounted, dateOfTrade.
  destruct (truthy (parseNumber (timestamp t))); cbn [negb andb]; [|reflexivity].
  destruct (truthy (signedNotional t)); reflexivity.
Qed.

Lemma tradeDaily_filled (trades : list TradeActivity) :
  filled tradeCounted dateOfTrade signedNotional trades (fold_left tradeDailyStep trades []).
Proof.
  assert (E : forall l m,
             fold_left tradeDailyStep l m
             = fold_left (bucketStep tradeCounted dateOfTrade signedNotional) l m).
  { induction l as [|t r IH]; intros m; cbn [fold_left]; [reflexivity|].
    now rewrite IH, tradeDailyStep_bucketStep. }
  rewrite E. apply fold_filled.
Qed.

(** X10: for a consistent [localeCompare] and trade times inside the range
    of [Date], the daily trade PnL has one entry per date key, in the
    ascending order of [localeCompare]; the keys are those of the trades whose
    timestamp and signed notional are not 0; each entry holds the trades of
    its key: its net is the sum of their signed notionals (sells positive,
    buys negative), its profit the sum of the positive ones, its loss the sum
    of the absolute negative ones and its count their number, which is at
    least one; so its net is its profit minus its loss.  The nets add up to
    the signed notional of the trades that carry a timestamp. *)
Theorem computeTradeDailyPnl_conservation (trades : list TradeActivity) :
  (forall a b, localeCompare a b = CompOpp (localeCompare b a)) ->
  (forall a b c,
      localeCompare a b <> Gt -> localeCompare b c <> Gt -> localeCompare a c <> Gt) ->
  Forall (fun t => tradeCounted t = true ->
                   inDateRange (normalizeTimestampMs (parseNumber (timestamp t))))
    trades ->
  let days := computeTradeDailyPnl trades in
  NoDup (map date days)
  /\ StronglySorted (fun a b => localeCompare (date a) (date b) <> Gt) days
  /\ (forall d,
        In d (map date days)
        <-> exists t, In t trades /\ tradeCounted t = true /\ dateOfTrade t = d)
  /\ Forall
       (fun b =>
          let evs :=
            filter (fun t => (tradeCounted t && String.eqb (dateOfTrade t) (date b))%bool)
              trades in
          net b == sumQ (map signedNotional evs)
          /\ profit b == sumQ (map (fun t => gainOf (signedNotional t)) evs)
          /\ loss b == sumQ (map (fun t => lossOf (signedNotional t)) evs)
          /\ events b = List.length evs
          /\ (1 <= events b)%nat
          /\ net b == profit b - loss b)
       days
  /\ sumQ (map net days) == sumQ (map signedNotional (datedTrades trades)).
Proof.
  intros Hanti Htrans _. cbn zeta.
  assert (H0 : dailyMapOk []) by (repeat split; constructor).
  destruct (tradeDaily_fold trades [] H0) as [(Hok & _ & _) Hsum].
  pose proof (tradeDaily_filled trades) as Hf.
  assert (Htotal : sumQ (map net (computeTradeDailyPnl trades))
                   == sumQ (map signedNotional (datedTrades trades))).
  { unfold computeTradeDailyPnl. rewrite sortDaily_sum, Hsum. unfold bucketSum. cbn. lra. }
  unfold computeTradeDailyPnl, sortDaily in *.
  set (m := fold_left tradeDailyStep trades []) in *.
  set (cmp := fun a b : DailyBucket => localeCompare (date a) (date b)).
  pose proof (sortWith_perm cmp (mapValues m)) as Hperm.
  split; [|split; [|split; [|split]]].
  - eapply Permutation_NoDup; [apply Permutation_map; exact Hperm|].
    rewrite (filled_dates _ _ _ _ _ Hf). exact (proj1 Hf).
  - apply sortWith_sorted.
    + intros a b. apply Hanti.
    + intros a b c. apply Htrans.
  - intros d. rewrite <- (filled_keys _ _ _ _ m d Hf). split.
    + intros Hin. eapply Permutation_in; [|exact Hin].
      apply Permutation_map. symmetry. exact Hperm.
    + intros Hin. eapply Permutation_in; [|exact Hin].
      apply Permutation_map. exact Hperm.
  - eapply Permutation_Forall; [exact Hperm|].
    rewrite Forall_forall. intros b Hin.
    destruct (filled_value _ _ _ _ m b Hf Hin) as (_ & (Hn & Hp & Hl & He) & Hne).
    rewrite Forall_forall in Hok.
    destruct (Hok b Hin) as (Hnet & _ & _ & Hone).
    cbn zeta. unfold eventsOn in *. auto 10.
  - exact Htotal.
Qed.

End TradeDaily.

(** A buy for $4 and a sell for $6 on the next day. *)
Definition twoDayTrades : list TradeActivity :=
  [sampleTrade "BUY" 10 4 1700000000; sampleTrade "SELL" 10 6 1700086400].

Lemma computeTradeDailyPnl_conservation_witness :
  let days := computeTradeDailyPnl isoDateUtc codeUnitCompare twoDayTrades in
  map date days = ["2023-11-14"; "2023-11-15"]%string
  /\ map net days = [0 + -4; 0 + 6]
  /\ NoDup (map date days)
  /\ sumQ (map net days) == sumQ (map signedNotional (datedTrades twoDayTrades)).
Proof.
  cbv zeta. split; [vm_compute; reflexivity|]. split; [vm_compute; reflexivity|].
  destruct (computeTradeDailyPnl_conservation isoDateUtc codeUnitCompare twoDayTrades
              codeUnitCompare_antisym codeUnitCompare_trans) as (Hnd & _ & _ & _ & Hsum).
  - unfold twoDayTrades.
    repeat (apply Forall_cons; [intros _; vm_compute; discriminate|]). apply Forall_nil.
  - split; assumption.
Defined.

(* ------------------------------------------------------------------ *)
(** ** Trader profile: [buildTraderProfileSummary] *)

Record TraderProfileSummary : Type := mkProfile {
  tp_totalTrades : nat;
  tp_wins : nat;
  tp_losses : nat;
  tp_winRate : option Q;
  tp_realizedPnl : Q;
  tp_unrealizedPnl : Q;
  tp_totalPnl : Q;
  tp_openPositions : nat;
  tp_closedPositions : nat;
  tp_balance : option Q;
  tp_positionsValue : option Q;
  tp_portfolioValue : option Q
}.

(** The counters of the [forEach]: realized, unrealized, wins, losses, closed
    and open. *)
Record ProfileCounters : Type := mkCounters {
  pc_realizedPnl : Q;
  pc_unrealizedPnl : Q;
  pc_wins : nat;
  pc_losses : nat;
  pc_closed : nat;
  pc_open : nat
}.

Definition profileStep (c : ProfileCounters) (position : PositionSummaryEntry)
    : ProfileCounters :=
  let realized := pc_realizedPnl c + se_realizedPnl position in
  let unrealized :=
    match se_unrealizedPnl position with
    | Some u => pc_unrealizedPnl c + u
    | None => pc_unrealizedPnl c
    end in
  match se_status position with
  | OPEN =>
      {| pc_realizedPnl := realized; pc_unrealizedPnl := unrealized;
         pc_wins := pc_wins c; pc_losses := pc_losses c;
         pc_closed := pc_closed c; pc_open := S (pc_open c) |}
  | CLOSED =>
      {| pc_realizedPnl := realized; pc_unrealizedPnl := unrealized;
         pc_wins := if gtb (se_realizedPnl position) 0 then S (pc_wins c) else pc_wins c;
         pc_losses :=
           if gtb (se_realizedPnl position) 0 then pc_losses c
           else if ltb (se_realizedPnl position) 0 then S (pc_losses c) else pc_losses c;
         pc_closed := S (pc_closed c); pc_open := pc_open c |}
  end.

Definition buildTraderProfileSummary (positions : list PositionSummaryEntry)
    (balance positionsValue portfolioValue : option Q) (totalTrades : nat)
    : TraderProfileSummary :=
  let c :=
    fold_left profileStep positions
      {| pc_realizedPnl := 0; pc_unrealizedPnl := 0; pc_wins := 0; pc_losses := 0;
         pc_closed := 0; pc_open := 0 |} in
  {| tp_totalTrades := totalTrades;
     tp_wins := pc_wins c;
     tp_losses := pc_losses c;
     tp_winRate :=
       if (0 <? pc_closed c)%nat then Some (ofNat (pc_wins c) / ofNat (pc_closed c)) else None;
     tp_realizedPnl := pc_realizedPnl c;
     tp_unrealizedPnl := pc_unrealizedPnl c;
     tp_totalPnl := pc_realizedPnl c + pc_unrealizedPnl c;
     tp_openPositions := pc_open c;
     tp_closedPositions := pc_closed c;
     tp_balance := balance;
     tp_positionsValue := positionsValue;
     tp_portfolioValue := portfolioValue |}.

Definition unrealizedOrZero (position : PositionSummaryEntry) : Q :=
  match se_unrealizedPnl position with
  | Some u => u
  | None => 0
  end.

Lemma profile_fold (positions : list PositionSummaryEntry) (c : ProfileCounters) :
  let c1 := fold_left profileStep positions c in
  (pc_open c1 + pc_closed c1 = pc_open c + pc_closed c + List.length positions)%nat
  /\ ((pc_wins c + pc_losses c <= pc_closed c)%nat ->
      (pc_wins c1 + pc_losses c1 <= pc_closed c1)%nat)
  /\ pc_realizedPnl c1 == pc_realizedPnl c + sumQ (map se_realizedPnl positions)
  /\ pc_unrealizedPnl c1 == pc_unrealizedPnl c + sumQ (map unrealizedOrZero positions).
Proof.
  revert c. induction positions as [|p r IH]; intros c; cbn [fold_left].
  - cbn zeta. cbn [List.length map]. unfold sumQ. cbn [fold_right].
    split; [lia|]. split; [auto|]. split; lra.
  - specialize (IH (profileStep c p)). cbn zeta in IH.
    destruct IH as (Hcount & Hwl & Hreal & Hunr).
    cbn zeta. cbn [List.length map]. unfold sumQ in *. cbn [fold_right].
    split; [|split; [|split]].
    + rewrite Hcount. unfold profileStep.
      destruct (se_status p); cbn [pc_open pc_closed]; lia.
    + intros H. apply Hwl. unfold profileStep.
      destruct (se_status p); cbn [pc_wins pc_losses pc_closed]; [lia|].
      destruct (gtb (se_realizedPnl p) 0); [lia|].
      destruct (ltb (se_realizedPnl p) 0); lia.
    + rewrite Hreal. unfold profileStep.
      destruct (se_status p); cbn [pc_realizedPnl]; lra.
    + rewrite Hunr. unfold profileStep. unfold unrealizedOrZero at 2.
      destruct (se_status p), (se_unrealizedPnl p); cbn [pc_unrealizedPnl]; lra.
Qed.

(** X11: in the trader profile every position is counted once as open or
    closed, the wins and losses are closed positions, the win rate is absent
    without closed positions and lies between 0 and 1 otherwise, and the
    realized PnL is the sum over the positions. *)
Theorem buildTraderProfileSummary_counts (positions : list PositionSummaryEntry)
    (balance positionsValue portfolioValue : option Q) (totalTrades : nat) :
  let r := buildTraderProfileSummary positions balance positionsValue portfolioValue
             totalTrades in
  (tp_openPositions r + tp_closedPositions r = List.length positions)%nat
  /\ (tp_wins r + tp_losses r <= tp_closedPositions r)%nat
  /\ (tp_winRate r = None <-> tp_closedPositions r = 0%nat)
  /\ (forall w, tp_winRate r = Some w -> 0 <= w /\ w <= 1)
  /\ tp_realizedPnl r == sumQ (map se_realizedPnl positions)
  /\ tp_totalPnl r
     == sumQ (map se_realizedPnl positions) + sumQ (map unrealizedOrZero positions).
Proof.
  cbn zeta. unfold buildTraderProfileSummary.
  destruct (profile_fold positions
              {| pc_realizedPnl := 0; pc_unrealizedPnl := 0; pc_wins := 0; pc_losses := 0;
                 pc_closed := 0; pc_open := 0 |}) as (Hcount & Hwl & Hreal & Hunr).
  set (c := fold_left profileStep positions _) in *.
  cbn [tp_openPositions tp_closedPositions tp_wins tp_losses tp_winRate tp_realizedPnl
         tp_totalPnl pc_realizedPnl pc_unrealizedPnl pc_wins pc_losses pc_closed pc_open] in *.
  assert (Hwl' : (pc_wins c + pc_losses c <= pc_closed c)%nat) by (apply Hwl; lia).
  split; [lia|]. split; [exact Hwl'|]. split; [|split; [|split]].
  - destruct (Nat.ltb_spec 0 (pc_closed c)); split; intros H0;
      first [discriminate | lia | reflexivity].
  - intros w. destruct (Nat.ltb_spec 0 (pc_closed c)) as [Hn|Hn]; [|discriminate].
    intros [= <-]. pose proof (ofNat_pos _ Hn) as Hpos.
    assert (Hle : ofNat (pc_wins c) <= ofNat (pc_closed c)) by (apply ofNat_le; lia).
    assert (Hge : 0 <= ofNat (pc_wins c))
      by (change 0 with (ofNat 0); apply ofNat_le; lia).
    split; [apply Qle_shift_div_l | apply Qle_shift_div_r]; first [exact Hpos | lra].
  - rewrite Hreal. lra.
  - rewrite Hreal, Hunr. lra.
Qed.

Lemma profile_totalPnl (positions : list PositionSummaryEntry)
    (balance positionsValue portfolioValue : option Q) (totalTrades : nat) :
  tp_totalPnl (buildTraderProfileSummary positions balance positionsValue portfolioValue
                 totalTrades)
  == sumQ (map se_realizedPnl positions) + sumQ (map unrealizedOrZero positions).
Proof.
  unfold buildTraderProfileSummary. cbn [tp_totalPnl].
  destruct (profile_fold positions
              {| pc_realizedPnl := 0; pc_unrealizedPnl := 0; pc_wins := 0; pc_losses := 0;
                 pc_closed := 0; pc_open := 0 |}) as (_ & _ & Hreal & Hunr).
  cbn [pc_realizedPnl pc_unrealizedPnl] in *. rewrite Hreal, Hunr. lra.
Qed.

(** X12: the total PnL of the profile built from [computePositionSummary] is
    the sum of the total PnL of its positions. *)
Theorem buildTraderProfileSummary_total (trades : list TradeActivity)
    (balance positionsValue portfolioValue : option Q) (totalTrades : nat) :
  tp_totalPnl (buildTraderProfileSummary (computePositionSummary trades) balance
                 positionsValue portfolioValue totalTrades)
  == sumQ (map se_totalPnl (computePositionSummary trades)).
Proof.
  rewrite profile_totalPnl. unfold computePositionSummary.
  induction (mapValues (replaySummary trades)) as [|p r IH]; cbn [map sumQ fold_right].
  - lra.
  - unfold sumQ in IH. cbn [map] in IH.
    assert (Hp : se_totalPnl (summaryEntry p)
                 == se_realizedPnl (summaryEntry p) + unrealizedOrZero (summaryEntry p))
      by reflexivity.
    rewrite Hp. lra.
Qed.

(* ------------------------------------------------------------------ *)
(** ** What the offset-mode collector returns *)

Lemma firstn_subset {A : Type} (n : nat) (l : list A) (x : A) :
  In x (firstn n l) -> In x l.
Proof.
  revert l. induction n as [|n IH]; intros [|y r]; cbn [firstn In]; try tauto.
  intros [H|H]; auto.
Qed.

Section ImageOfPage.
Variable showNumeric : JsNumeric -> string.
Variable params : ActivityRangeParams.

(** A trade that is the image of a record of the page, the record passing the
    range and slug filter. *)
Definition imageOf (data : list RawItem) (t : TradeActivity) : Prop :=
  exists item,
    In item data
    /\ t = mapActivityItem showNumeric item (p_address params)
    /\ acceptItem (slugFilterOf (p_slug params)) (p_startTs params) (p_endTs params) item
       = true.

Lemma filtered_imageOf (data : list RawItem) :
  Forall (imageOf data)
    (map (fun item => mapActivityItem showNumeric item (p_address params))
       (filter (acceptItem (slugFilterOf (p_slug params)) (p_startTs params) (p_endTs params))
          data)).
Proof.
  rewrite Forall_forall. intros t Hin. apply in_map_iff in Hin.
  destruct Hin as (item & <- & Hitem). apply filter_In in Hitem.
  exists item. split; [exact (proj1 Hitem)|]. split; [reflexivity | exact (proj2 Hitem)].
Qed.

End ImageOfPage.

Section CollectorResult.
Variable showNumeric : JsNumeric -> string.
Variable feed : nat -> nat -> nat -> option (list RawItem).
Variable BATCH MAXEV : nat.
Variable params : ActivityRangeParams.

(** A trade of the result: the image of a record that the feed served in
    answer to one of the first [pages] requests and that passed the range and
    slug filter. *)
Definition servedTrade (pages : nat) (t : TradeActivity) : Prop :=
  exists request offset limit data,
    (request < pages)%nat
    /\ feed request offset limit = Some data
    /\ imageOf showNumeric params data t.

Lemma servedTrade_more (pages pages' : nat) (l : list TradeActivity) :
  (pages <= pages')%nat -> Forall (servedTrade pages) l -> Forall (servedTrade pages') l.
Proof.
  intros Hle. apply Forall_impl. intros t (request & offset & limit & data & Hlt & Hrest).
  exists request, offset, limit, data. split; [lia | exact Hrest].
Qed.

Definition loopInvariant (st : LoopState) : Prop :=
  (List.length (ls_trades st) <= maxEventsOf MAXEV params)%nat
  /\ Forall (servedTrade (ls_pages st)) (ls_trades st)
  /\ (p_offset params + List.length (ls_trades st) <= ls_currentOffset st)%nat.

Definition resultOk (r : ActivityRangeResult) : Prop :=
  (List.length (trades r) <= maxEventsOf MAXEV params)%nat
  /\ Forall (servedTrade (pagesFetched r)) (trades r)
  /\ (p_offset params + List.length (trades r) <= nextOffset r)%nat
  /\ (exhausted r = false -> List.length (trades r) = maxEventsOf MAXEV params).

Lemma pushedFrom_served (st : LoopState) (data : list RawItem) :
  feed (ls_pages st) (ls_currentOffset st) (batchLimitOf BATCH MAXEV params st) = Some data ->
  Forall (servedTrade (S (ls_pages st))) (pushedFrom showNumeric MAXEV params st data).
Proof.
  intros Hfeed. unfold pushedFrom. rewrite Forall_forall. intros t Hin.
  apply firstn_subset in Hin.
  pose proof (filtered_imageOf showNumeric params data) as Himg.
  rewrite Forall_forall in Himg.
  exists (ls_pages st), (ls_currentOffset st), (batchLimitOf BATCH MAXEV params st), data.
  split; [lia|]. split; [exact Hfeed | exact (Himg t Hin)].
Qed.

Lemma pushedFrom_room (st : LoopState) (data : list RawItem) :
  (List.length (pushedFrom showNumeric MAXEV params st data)
   <= maxEventsOf MAXEV params - List.length (ls_trades st))%nat.
Proof. unfold pushedFrom. rewrite List.length_firstn. lia. Qed.

Lemma collectStep_result (st : LoopState) :
  loopInvariant st ->
  match collectStep showNumeric feed BATCH MAXEV params st with
  | inl r => resultOk r /\ exhausted r = true
  | inr st1 => loopInvariant st1
  end.
Proof.
  intros (Hlen & Hacc & Hoff). unfold collectStep.
  pose proof (servedTrade_more (ls_pages st) (S (ls_pages st)) (ls_trades st)
                (Nat.le_succ_diag_r _) Hacc) as Hacc1.
  destruct (feed (ls_pages st) (ls_currentOffset st) (batchLimitOf BATCH MAXEV params st))
    as [data|] eqn:Hfeed.
  2: { split; [|reflexivity]. unfold resultOk.
       cbn [stopWith trades nextOffset exhausted pagesFetched].
       repeat split; try assumption. discriminate. }
  pose proof (pushedFrom_served st data Hfeed) as Hp.
  pose proof (pushedFrom_room st data) as Hroom.
  pose proof (pushedFrom_length showNumeric MAXEV params st data) as Hpl.
  assert (Hok : forall why,
             resultOk (stopWith (ls_currentOffset st + List.length data) (S (ls_pages st))
                         (ls_trades st ++ pushedFrom showNumeric MAXEV params st data)
                         true why)).
  { intros why. unfold resultOk. cbn [stopWith trades nextOffset exhausted pagesFetched].
    rewrite List.length_app. repeat split; try lia; try discriminate.
    apply Forall_app. split; assumption. }
  destruct (List.length data =? 0)%nat.
  { split; [|reflexivity]. unfold resultOk.
    cbn [stopWith trades nextOffset exhausted pagesFetched].
    repeat split; try assumption. discriminate. }
  destruct (List.length data <? batchLimitOf BATCH MAXEV params st)%nat;
    [split; [apply Hok | reflexivity]|].
  match goal with
  | |- context [(MAX_CONSECUTIVE_EMPTY <=? ?c)%nat] =>
      destruct (MAX_CONSECUTIVE_EMPTY <=? c)%nat
  end; [split; [apply Hok | reflexivity]|].
  destruct (pastStart (p_startTs params) data); [split; [apply Hok | reflexivity]|].
  unfold loopInvariant. cbn [ls_trades ls_currentOffset ls_pages]. rewrite List.length_app.
  repeat split; try lia. apply Forall_app. split; assumption.
Qed.

Lemma collectLoop_result (fuel : nat) (st : LoopState) (r : ActivityRangeResult) :
  loopInvariant st ->
  collectLoop showNumeric feed BATCH MAXEV fuel params st = Some r ->
  resultOk r.
Proof.
  revert st. induction fuel as [|fuel IH]; intros st Hinv; cbn [collectLoop].
  - destruct (Nat.ltb_spec (List.length (ls_trades st)) (maxEventsOf MAXEV params));
      [discriminate|].
    intros [= <-]. destruct Hinv as (Hlen & Hacc & Hoff).
    unfold resultOk. cbn [stopWith trades nextOffset exhausted pagesFetched].
    repeat split; try assumption. intros _. lia.
  - destruct (Nat.ltb_spec (List.length (ls_trades st)) (maxEventsOf MAXEV params)).
    + pose proof (collectStep_result st Hinv) as Hstep.
      destruct (collectStep showNumeric feed BATCH MAXEV params st) as [r'|st1].
      * intros [= <-]. exact (proj1 Hstep).
      * apply IH. exact Hstep.
    + intros [= <-]. destruct Hinv as (Hlen & Hacc & Hoff).
      unfold resultOk. cbn [stopWith trades nextOffset exhausted pagesFetched].
      repeat split; try assumption. intros _. lia.
Qed.

(** X13: whatever the feed answers, the offset-mode collector returns within
    26 passes per event of its cap.  Its result holds at most the capped
    number of trades; each of them is the image of a record that the feed
    served in answer to one of the requests counted in [pagesFetched], and
    that record lies inside the requested range and slug filter; its next
    offset has advanced by at least the number of trades returned; and when it
    reports [exhausted = false] the cap is exactly reached. *)
Theorem fetchActivityByUserWithRange_result :
  exists r,
    fetchActivityByUserWithRange showNumeric feed BATCH MAXEV
      (26 * maxEventsOf MAXEV params + 26) params = Some r
    /\ (List.length (trades r) <= maxEventsOf MAXEV params)%nat
    /\ Forall
         (fun t =>
            exists request offset limit data item,
              (request < pagesFetched r)%nat
              /\ feed request offset limit = Some data
              /\ In item data
              /\ t = mapActivityItem showNumeric item (p_address params)
              /\ acceptItem (slugFilterOf (p_slug params)) (p_startTs params)
                   (p_endTs params) item = true)
         (trades r)
    /\ (p_offset params + List.length (trades r) <= nextOffset r)%nat
    /\ (exhausted r = false -> List.length (trades r) = maxEventsOf MAXEV params).
Proof.
  destruct (fetchActivityByUserWithRange_returns showNumeric feed BATCH MAXEV params)
    as [r Hr].
  exists r. split; [exact Hr|].
  assert (Hok : resultOk r).
  { revert Hr. unfold fetchActivityByUserWithRange. apply collectLoop_result.
    unfold loopInvariant. cbn [ls_trades ls_currentOffset List.length].
    repeat split; [lia | constructor | lia]. }
  destruct Hok as (Hlen & Hacc & Hoff & Hex).
  split; [exact Hlen|]. split; [|split; assumption].
  eapply Forall_impl; [|exact Hacc].
  intros t (request & offset & limit & data & Hlt & Hfeed & item & Hin & Ht & Hacc').
  exists request, offset, limit, data, item. auto.
Qed.

End CollectorResult.

(* ------------------------------------------------------------------ *)
(** ** What the [seenIds] filter keeps *)

Section DedupCoverage.
Variable showNumeric : JsNumeric -> string.

Lemma dedupBatch_covers (batch : list TradeActivity) (seenIds : list string) :
  let r := dedupBatch showNumeric seenIds batch in
  (forall t, In t (snd r) -> In t batch)
  /\ (forall t, In t batch -> In (getTradeKey showNumeric t) (fst r)).
Proof.
  revert seenIds. induction batch as [|t r IH]; intros seenIds; cbn [dedupBatch].
  - cbn. split; [tauto | intros t []].
  - pose proof (dedupBatch_spec showNumeric r seenIds) as Hskip.
    pose proof (dedupBatch_spec showNumeric r (getTradeKey showNumeric t :: seenIds)) as Hkeep.
    destruct (setHas seenIds (getTradeKey showNumeric t)) eqn:E.
    + destruct (IH seenIds) as [Hsub Hcov]. cbn zeta in *.
      split; [intros x Hx; right; auto|].
      intros x [<-|Hx]; [|auto].
      apply setHas_In in E. destruct Hskip as (_ & _ & Hseen). apply Hseen. now left.
    + destruct (IH (getTradeKey showNumeric t :: seenIds)) as [Hsub Hcov]. cbn zeta in *.
      destruct (dedupBatch showNumeric (getTradeKey showNumeric t :: seenIds) r)
        as [seen1 fresh].
      cbn [fst snd] in *. split.
      * intros x [<-|Hx]; [now left | right; auto].
      * intros x [<-|Hx]; [|auto].
        destruct Hkeep as (_ & _ & Hseen). apply Hseen. left. now left.
Qed.

Lemma collectFresh_covers (resumeKeys : list string) (batches : list (list TradeActivity)) :
  let r := collectFresh showNumeric resumeKeys batches in
  (forall k, In k (fst r)
             <-> In k resumeKeys \/ In k (map (getTradeKey showNumeric) (snd r)))
  /\ (forall t, In t (snd r) -> In t (List.concat batches))
  /\ (forall t, In t (List.concat batches) -> In (getTradeKey showNumeric t) (fst r)).
Proof.
  unfold collectFresh. induction batches as [|b rest IH] using rev_ind; cbn zeta.
  - cbn. split; [intros k; tauto|]. split; intros t [].
  - cbn zeta in IH. rewrite fold_left_snoc, List.concat_app. cbn [List.concat]. rewrite app_nil_r.
    destruct (fold_left _ rest (resumeKeys, [])) as [seen acc].
    cbn [fst snd] in *. destruct IH as (Hseen & Hsub & Hcov).
    pose proof (dedupBatch_spec showNumeric b seen) as (_ & _ & Hs1).
    pose proof (dedupBatch_covers b seen) as (Hfsub & Hfcov).
    destruct (dedupBatch showNumeric seen b) as [seen1 fresh].
    cbn [fst snd] in *. split; [|split].
    + intros k. rewrite Hs1, Hseen, map_app, in_app_iff. tauto.
    + intros t Ht. apply in_app_iff in Ht. apply in_app_iff.
      destruct Ht as [Ht|Ht]; [left; auto | right; auto].
    + intros t Ht. apply in_app_iff in Ht. destruct Ht as [Ht|Ht].
      * apply Hs1. left. auto.
      * auto.
Qed.

(** X14: over any sequence of batches, the trades kept by the [seenIds]
    filter of the dashboard loops have pairwise distinct keys, none of them a
    key resumed from; every kept trade comes from a batch; and no key is
    lost: the key of every batch record is a resumed key or the key of a
    kept trade. *)
Theorem seenIds_filter_keeps_one_per_key (resumeKeys : list string)
    (batches : list (list TradeActivity)) :
  let kept := snd (collectFresh showNumeric resumeKeys batches) in
  NoDup (map (getTradeKey showNumeric) kept)
  /\ (forall k, In k (map (getTradeKey showNumeric) kept) -> ~ In k resumeKeys)
  /\ (forall t, In t kept -> In t (List.concat batches))
  /\ (forall t, In t (List.concat batches) ->
        In (getTradeKey showNumeric t) resumeKeys
        \/ In (getTradeKey showNumeric t) (map (getTradeKey showNumeric) kept)).
Proof.
  cbn zeta.
  destruct (collectFresh_NoDup showNumeric resumeKeys batches) as [Hnd Hnew].
  destruct (collectFresh_covers resumeKeys batches) as (Hseen & Hsub & Hcov).
  split; [exact Hnd|]. split; [exact Hnew|]. split; [exact Hsub|].
  intros t Ht. apply Hseen. now apply Hcov.
Qed.

End DedupCoverage.

(* ------------------------------------------------------------------ *)
(** ** The oldest timestamp of a page *)


(** X15: the oldest timestamp of a page is absent exactly when no record of
    the page carries a timestamp; otherwise it is the timestamp of one of the
    records and no record has a smaller one. *)
Theorem getOldestTimestampSeconds_minimum (items : list RawItem) :
  match getOldestTimestampSeconds items with
  | None => timestampsOf items = []
  | Some o => In o (timestampsOf items) /\ Forall (fun ts => o <= ts) (timestampsOf items)
  end.
Proof. apply getOldestTimestampSeconds_minimum_aux. Qed.

(* ------------------------------------------------------------------ *)
(** ** Activity collector: [fetchActivityByUserWithCursor] *)

Record ActivityCursorResult : Type := mkCursorResult {
  cr_trades : list TradeActivity;
  cr_nextEnd : option Q;
  cr_exhausted : bool;
  cr_oldest : option Q
}.

Section CursorPage.
Variable showNumeric : JsNumeric -> string.

(** The upstream feed in cursor mode: the page answered for a limit, an end
    and a start boundary; [None] when the answer is not an array. *)
Variable cursorFeed : nat -> option Q -> option Q -> option (list RawItem).

Variable ACTIVITY_RANGE_BATCH_SIZE : nat.

Definition cursorBatchLimit (params : ActivityRangeParams) : nat :=
  Nat.min (Nat.max (p_limit params) 1) ACTIVITY_RANGE_BATCH_SIZE.

Definition fetchActivityByUserWithCursor (params : ActivityRangeParams)
    : ActivityCursorResult :=
  let batchLimit := cursorBatchLimit params in
  let emptyResult :=
    {| cr_trades := []; cr_nextEnd := None; cr_exhausted := true; cr_oldest := None |} in
  match cursorFeed batchLimit (p_endTs params) (p_startTs params) with
  | None => emptyResult
  | Some data =>
      if (List.length data =? 0)%nat then emptyResult
      else
        let oldest := getOldestTimestampSeconds data in
        let filtered :=
          filter (acceptItem (slugFilterOf (p_slug params)) (p_startTs params)
                    (p_endTs params)) data in
        let nextEnd :=
          match oldest with
          | Some o => Some (Qmax o 0)
          | None => None
          end in
        let exhausted0 :=
          ((List.length data <? batchLimit)%nat
           || match oldest with Some _ => false | None => true end)%bool in
        let exhausted :=
          match p_startTs params, oldest with
          | Some s, Some o => if leb o s then true else exhausted0
          | _, _ => exhausted0
          end in
        {| cr_trades := map (fun item => mapActivityItem showNumeric item (p_address params))
                          filtered;
           cr_nextEnd := nextEnd;
           cr_exhausted := exhausted;
           cr_oldest := oldest |}
  end.

(** X16: one page in cursor mode.  Every trade is the image of a record of
    the page inside the range and slug filter.  The next end boundary is
    absent exactly when no record carries a timestamp; otherwise it is not
    negative and not above any non-negative timestamp of the page.  A result
    that is not exhausted comes from a page of at least the page size whose
    oldest timestamp is known and, when a start is set, strictly after it. *)
Theorem fetchActivityByUserWithCursor_page (params : ActivityRangeParams) :
  let r := fetchActivityByUserWithCursor params in
  let page :=
    match cursorFeed (cursorBatchLimit params) (p_endTs params) (p_startTs params) with
    | Some data => data
    | None => []
    end in
  Forall
    (fun t =>
       exists item,
         In item page
         /\ t = mapActivityItem showNumeric item (p_address params)
         /\ acceptItem (slugFilterOf (p_slug params)) (p_startTs params) (p_endTs params)
              item = true)
    (cr_trades r)
  /\ (List.length (cr_trades r) <= List.length page)%nat
  /\ (page = [] -> cr_trades r = [] /\ cr_nextEnd r = None /\ cr_exhausted r = true)
  /\ (cr_nextEnd r = None <-> timestampsOf page = [])
  /\ (forall e, cr_nextEnd r = Some e ->
        0 <= e /\ Forall (fun ts => 0 <= ts -> e <= ts) (timestampsOf page))
  /\ (cr_exhausted r = false ->
      (cursorBatchLimit params <= List.length page)%nat
      /\ exists o,
           cr_oldest r = Some o /\ cr_nextEnd r = Some (Qmax o 0)
           /\ forall s, p_startTs params = Some s -> s < o).
Proof.
  cbn zeta. unfold fetchActivityByUserWithCursor.
  destruct (cursorFeed (cursorBatchLimit params) (p_endTs params) (p_startTs params))
    as [data|].
  2: { cbn. repeat split; try constructor; try discriminate; try lia; auto. }
  destruct (Nat.eqb_spec (List.length data) 0) as [E0|E0].
  { destruct data; [|discriminate E0].
    cbn. repeat split; try constructor; try discriminate; try lia; auto. }
  cbn [cr_trades cr_nextEnd cr_exhausted cr_oldest].
  pose proof (getOldestTimestampSeconds_minimum_aux data) as Hold.
  split; [|split; [|split; [|split; [|split]]]].
  - exact (filtered_imageOf showNumeric params data).
  - rewrite List.length_map. apply filter_length_le.
  - intros ->. contradiction E0. reflexivity.
  - destruct (getOldestTimestampSeconds data) as [o|].
    + destruct Hold as [Hin _]. split; [discriminate|].
      intros H. rewrite H in Hin. destruct Hin.
    + split; [intros _; exact Hold | reflexivity].
  - intros e. destruct (getOldestTimestampSeconds data) as [o|]; [|discriminate].
    intros [= <-]. destruct Hold as [_ Hall]. split; [apply Q.le_max_r|].
    rewrite Forall_forall in *. intros ts Hts Hpos. specialize (Hall ts Hts).
    apply Q.max_lub; lra.
  - destruct (getOldestTimestampSeconds data) as [o|].
    + destruct (Nat.ltb_spec (List.length data) (cursorBatchLimit params)) as [Hl|Hl].
      * cbn [orb]. destruct (p_startTs params) as [s|]; [|discriminate].
        destruct (leb o s); discriminate.
      * cbn [orb]. intros Hex. split; [exact Hl|]. exists o.
        split; [reflexivity|]. split; [reflexivity|].
        intros s Hs. rewrite Hs in Hex. destruct (leb o s) eqn:El; [discriminate|].
        now apply leb_false.
    + rewrite orb_true_r. destruct (p_startTs params); discriminate.
Qed.

End CursorPage.

(* ------------------------------------------------------------------ *)
(** ** Dashboard: the offset-mode export loop *)

(** How the export loop ends: a failed request throws; otherwise the trades,
    the next offset, the [truncated] flag and whether the duplicate-page
    warning was raised. *)
Inductive ExportOutcome : Type :=
| ExportThrew
| Exported (tr : list TradeActivity) (offset : nat) (truncated warned : bool).

Section ExportLoop.
Variable showNumeric : JsNumeric -> string.

(** The answer of [/api/activity] for an offset: its [trades], [[]] when the
    field is missing, or [None] for a response that is not ok. *)
Variable fetchBatch : nat -> option (list TradeActivity).

Variable EXPORT_BATCH_SIZE EXPORT_MAX_TRADES : nat.

Record ExportState : Type := mkExport {
  ex_trades : list TradeActivity;
  ex_offset : nat;
  ex_seenIds : list string
}.

(** One pass through the body of [while (true)]. *)
Definition exportStep (st : ExportState) : ExportOutcome + ExportState :=
  match fetchBatch (ex_offset st) with
  | None => inl ExportThrew
  | Some batch =>
      if (List.length batch =? 0)%nat then
        inl (Exported (ex_trades st) (ex_offset st) false false)
      else
        let '(seen1, fresh) := dedupBatch showNumeric (ex_seenIds st) batch in
        if (List.length fresh =? 0)%nat then
          inl (Exported (ex_trades st) (ex_offset st) false true)
        else
          let trades1 := ex_trades st ++ fresh in
          let offset1 := (ex_offset st + List.length batch)%nat in
          if (List.length batch <? EXPORT_BATCH_SIZE)%nat then
            inl (Exported trades1 offset1 false false)
          else if (EXPORT_MAX_TRADES <=? List.length trades1)%nat then
            inl (Exported trades1 offset1 true false)
          else
            inr {| ex_trades := trades1; ex_offset := offset1; ex_seenIds := seen1 |}
  end.

Fixpoint exportLoop (fuel : nat) (st : ExportState) : option ExportOutcome :=
  match fuel with
  | O => None
  | S fuel1 =>
      match exportStep st with
      | inl out => Some out
      | inr st1 => exportLoop fuel1 st1
      end
  end.

Definition exportAll (fuel : nat) : option ExportOutcome :=
  exportLoop fuel {| ex_trades := []; ex_offset := 0; ex_seenIds := [] |}.

Definition exportInvariant (st : ExportState) : Prop :=
  NoDup (map (getTradeKey showNumeric) (ex_trades st))
  /\ (forall k, In k (map (getTradeKey showNumeric) (ex_trades st)) -> In k (ex_seenIds st)).

Definition outcomeOk (out : ExportOutcome) : Prop :=
  match out with
  | ExportThrew => True
  | Exported tr _ truncated _ =>
      NoDup (map (getTradeKey showNumeric) tr)
      /\ (truncated = true -> (EXPORT_MAX_TRADES <= List.length tr)%nat)
  end.

Lemma exportStep_ok (st : ExportState) :
  exportInvariant st ->
  match exportStep st with
  | inl out => outcomeOk out
  | inr st1 =>
      exportInvariant st1
      /\ (List.length (ex_trades st) < List.length (ex_trades st1))%nat
      /\ (List.length (ex_trades st1) < EXPORT_MAX_TRADES)%nat
  end.
Proof.
  intros [Hnd Hseen]. unfold exportStep.
  destruct (fetchBatch (ex_offset st)) as [batch|]; [|exact I].
  destruct (List.length batch =? 0)%nat; [split; [exact Hnd | discriminate]|].
  pose proof (dedupBatch_spec showNumeric batch (ex_seenIds st)) as (Hf & Hnew & Hs1).
  destruct (dedupBatch showNumeric (ex_seenIds st) batch) as [seen1 fresh].
  cbn [fst snd] in *.
  destruct (Nat.eqb_spec (List.length fresh) 0) as [E0|E0];
    [split; [exact Hnd | discriminate]|].
  assert (Hnd1 : NoDup (map (getTradeKey showNumeric) (ex_trades st ++ fresh))).
  { rewrite map_app. apply NoDup_app; [exact Hnd | exact Hf |].
    intros k Hk Hk'. apply (Hnew _ Hk'). now apply Hseen. }
  destruct (List.length batch <? EXPORT_BATCH_SIZE)%nat; [split; [exact Hnd1 | discriminate]|].
  destruct (Nat.leb_spec EXPORT_MAX_TRADES (List.length (ex_trades st ++ fresh))) as [Hm|Hm].
  - split; [exact Hnd1 | intros _; exact Hm].
  - unfold exportInvariant. cbn [ex_trades ex_seenIds]. split; [split|].
    + exact Hnd1.
    + intros k. rewrite map_app, in_app_iff, Hs1. intros [Hk|Hk]; [left; auto | now right].
    + rewrite List.length_app in *. lia.
Qed.

Lemma exportLoop_ok (fuel : nat) (st : ExportState) (out : ExportOutcome) :
  exportInvariant st -> exportLoop fuel st = Some out -> outcomeOk out.
Proof.
  revert st. induction fuel as [|fuel IH]; intros st Hinv; cbn [exportLoop]; [discriminate|].
  pose proof (exportStep_ok st Hinv) as Hstep.
  destruct (exportStep st) as [o|st1].
  - intros [= <-]. exact Hstep.
  - apply IH. exact (proj1 Hstep).
Qed.

Lemma exportLoop_returns (fuel : nat) (st : ExportState) :
  exportInvariant st ->
  (EXPORT_MAX_TRADES - List.length (ex_trades st) < fuel)%nat ->
  exists out, exportLoop fuel st = Some out.
Proof.
  revert st. induction fuel as [|fuel IH]; intros st Hinv Hm; [lia|].
  cbn [exportLoop]. pose proof (exportStep_ok st Hinv) as Hstep.
  destruct (exportStep st) as [o|st1]; [eauto|].
  destruct Hstep as (Hinv1 & Hgrow & Hcap). apply IH; [exact Hinv1 | lia].
Qed.

(** X17: whatever the server answers, the offset-mode export loop of the
    dashboard ends within [EXPORT_MAX_TRADES + 1] requests; the trades it
    exports have pairwise distinct keys, and it reports a truncated export
    only with at least [EXPORT_MAX_TRADES] trades. *)
Theorem exportAll_returns :
  exists out,
    exportAll (S EXPORT_MAX_TRADES) = Some out
    /\ match out with
       | ExportThrew => True
       | Exported tr _ truncated _ =>
           NoDup (map (getTradeKey showNumeric) tr)
           /\ (truncated = true -> (EXPORT_MAX_TRADES <= List.length tr)%nat)
       end.
Proof.
  assert (Hinit : exportInvariant {| ex_trades := []; ex_offset := 0; ex_seenIds := [] |}).
  { split; [constructor | intros k []]. }
  destruct (exportLoop_returns (S EXPORT_MAX_TRADES) _ Hinit) as [out Hout].
  - cbn [ex_trades List.length]. lia.
  - exists out. split; [exact Hout|]. exact (exportLoop_ok _ _ _ Hinit Hout).
Qed.

End ExportLoop.

(* ------------------------------------------------------------------ *)
(** ** Dashboard: the cursor-mode range export loop *)

(** The body of a [/api/activity] answer in cursor mode, field by field;
    [None] is a missing field. *)
Record CursorPayload : Type := mkPayload {
  pl_trades : option (list TradeActivity);
  pl_nextEnd : option Q;
  pl_oldest : option Q;
  pl_exhausted : option bool
}.

(** A request ends with a payload, with an abort, or with another failure. *)
Inductive CursorFetch : Type :=
| CursorAnswer (payload : CursorPayload)
| CursorAborted
| CursorFailed.

Record RangeExportResult : Type := mkRangeExport {
  re_trades : list TradeActivity;
  re_exhausted : bool;
  re_cancelled : bool;
  re_cursorEnd : option Q;
  re_pages : nat;
  re_lastBoundaryKeys : list string;
  re_duplicateCount : nat;
  re_stalled : bool;
  re_safetyStop : bool
}.

(** The dashboard's [normalizeTimestampSeconds]: 0 for a missing or zero
    timestamp.  The field is declared a number; a text is read by its
    numeric value. *)
Definition dashboardTimestampSeconds (v : JsNumeric) : Q :=
  let t := parseNumber v in
  if negb (truthy t) then 0 else normalizeTimestampSeconds t.

Definition requestCap : nat := 500.
Definition safetyCap : nat := 2000.

Section RangeExportLoop.
Variable showNumeric : JsNumeric -> string.

(** The answer to the n-th request for a limit and an end cursor. *)
Variable fetchCursor : nat -> nat -> option Q -> CursorFetch.

(** The cancel flag as read at the head of the n-th pass and in its
    [catch]. *)
Variable cancelAtHead cancelAtCatch : nat -> bool.

Variable maxRows : nat.

Record RangeExportState : Type := mkRangeState {
  rs_trades : list TradeActivity;
  rs_seenIds : list string;
  rs_duplicateCount : nat;
  rs_cursorEnd : option Q;
  rs_exhausted : bool;
  rs_safety : nat;
  rs_pages : nat;
  rs_lastBoundaryKeys : list string
}.

Definition finishRange (st : RangeExportState) (tr : list TradeActivity)
    (dups : nat) (keys : list string) (ex cancelled stalled safetyStop : bool)
    (cursorEnd : option Q) : RangeExportResult :=
  {| re_trades := tr; re_exhausted := ex; re_cancelled := cancelled;
     re_cursorEnd := cursorEnd; re_pages := rs_pages st;
     re_lastBoundaryKeys := keys; re_duplicateCount := dups;
     re_stalled := stalled; re_safetyStop := safetyStop |}.

Definition sameCursor (a b : option Q) : bool :=
  match a, b with
  | Some x, Some y => Qeq_bool x y
  | _, _ => false
  end.

(** One pass through the body of the loop, entered with [!exhausted] and
    [trades.length < maxRows]; [None] is a thrown error. *)
Definition rangeStep (st : RangeExportState)
    : option (RangeExportResult + RangeExportState) :=
  let unchanged ex cancelled :=
    finishRange st (rs_trades st) (rs_duplicateCount st) (rs_lastBoundaryKeys st)
      ex cancelled false false (rs_cursorEnd st) in
  if cancelAtHead (rs_safety st) then Some (inl (unchanged (rs_exhausted st) true))
  else
    let limit := Nat.min requestCap (maxRows - List.length (rs_trades st)) in
    match fetchCursor (rs_safety st) limit (rs_cursorEnd st) with
    | CursorFailed => None
    | CursorAborted =>
        if cancelAtCatch (rs_safety st) then Some (inl (unchanged (rs_exhausted st) true))
        else None
    | CursorAnswer payload =>
        let batch := match pl_trades payload with Some b => b | None => [] end in
        let keys :=
          match pl_oldest payload with
          | Some oldest =>
              map (getTradeKey showNumeric)
                (filter (fun t => Qeq_bool (dashboardTimestampSeconds (timestamp t)) oldest)
                   batch)
          | None => rs_lastBoundaryKeys st
          end in
        let '(seen1, fresh) := dedupBatch showNumeric (rs_seenIds st) batch in
        let dups := (rs_duplicateCount st + (List.length batch - List.length fresh))%nat in
        let trades1 := rs_trades st ++ fresh in
        match pl_nextEnd payload with
        | None =>
            Some (inl (finishRange st trades1 dups keys true false false false
                         (rs_cursorEnd st)))
        | Some nextEnd =>
            if (sameCursor (rs_cursorEnd st) (Some nextEnd)
                && (List.length fresh =? 0)%nat)%bool
            then Some (inl (finishRange st trades1 dups keys (rs_exhausted st) false true false
                              (rs_cursorEnd st)))
            else
              let exhausted0 :=
                (match pl_exhausted payload with Some b => b | None => false end
                 || (List.length batch =? 0)%nat)%bool in
              let exhausted1 :=
                if ((List.length batch <? limit)%nat
                    && match pl_exhausted payload with Some _ => false | None => true end)%bool
                then true else exhausted0 in
              let safety := S (rs_safety st) in
              if (safetyCap <? safety)%nat then
                Some (inl (finishRange st trades1 dups keys exhausted1 false false true
                             (Some nextEnd)))
              else
                Some (inr {| rs_trades := trades1; rs_seenIds := seen1;
                             rs_duplicateCount := dups; rs_cursorEnd := Some nextEnd;
                             rs_exhausted := exhausted1; rs_safety := safety;
                             rs_pages := S (rs_pages st); rs_lastBoundaryKeys := keys |})
        end
    end.

(** [while (!exhausted && trades.length < maxRows)], at most [fuel] passes;
    the outer [None] is fuel running out, the inner one a thrown error. *)
Fixpoint rangeLoop (fuel : nat) (st : RangeExportState)
    : option (option RangeExportResult) :=
  if (negb (rs_exhausted st) && (List.length (rs_trades st) <? maxRows)%nat)%bool then
    match fuel with
    | O => None
    | S fuel1 =>
        match rangeStep st with
        | None => Some None
        | Some (inl r) => Some (Some r)
        | Some (inr st1) => rangeLoop fuel1 st1
        end
    end
  else
    Some (Some (finishRange st (rs_trades st) (rs_duplicateCount st) (rs_lastBoundaryKeys st)
                  (rs_exhausted st) false false false (rs_cursorEnd st))).

Definition rangeExport (fuel : nat) (resumeKeys : list string) (effectiveEndTs : option Q)
    : option (option RangeExportResult) :=
  rangeLoop fuel
    {| rs_trades := []; rs_seenIds := resumeKeys; rs_duplicateCount := 0;
       rs_cursorEnd := effectiveEndTs; rs_exhausted := false; rs_safety := 0;
       rs_pages := 0; rs_lastBoundaryKeys := resumeKeys |}.

Section Resume.
Variable resumeKeys : list string.

Definition rangeInvariant (st : RangeExportState) : Prop :=
  NoDup (map (getTradeKey showNumeric) (rs_trades st))
  /\ (forall k, In k (map (getTradeKey showNumeric) (rs_trades st)) ->
        In k (rs_seenIds st) /\ ~ In k resumeKeys)
  /\ (forall k, In k resumeKeys -> In k (rs_seenIds st))
  /\ (rs_pages st <= rs_safety st)%nat
  /\ (rs_safety st <= safetyCap)%nat.

Definition rangeResultOk (r : RangeExportResult) : Prop :=
  NoDup (map (getTradeKey showNumeric) (re_trades r))
  /\ (forall k, In k (map (getTradeKey showNumeric) (re_trades r)) -> ~ In k resumeKeys)
  /\ (re_pages r <= safetyCap)%nat.

Lemma rangeStep_ok (st : RangeExportState) :
  rangeInvariant st ->
  match rangeStep st with
  | None => True
  | Some (inl r) => rangeResultOk r
  | Some (inr st1) => rangeInvariant st1 /\ rs_safety st1 = S (rs_safety st)
  end.
Proof.
  intros (Hnd & Hseen & Hres & Hpg & Hsf). unfold rangeStep.
  assert (Hsame : forall ex cancelled,
             rangeResultOk
               (finishRange st (rs_trades st) (rs_duplicateCount st) (rs_lastBoundaryKeys st)
                  ex cancelled false false (rs_cursorEnd st))).
  { intros ex c. unfold rangeResultOk. cbn [finishRange re_trades re_pages].
    split; [exact Hnd|]. split; [intros k Hk; exact (proj2 (Hseen k Hk)) | lia]. }
  destruct (cancelAtHead (rs_safety st)); [apply Hsame|].
  destruct (fetchCursor (rs_safety st) _ (rs_cursorEnd st)) as [payload| |]; [| |exact I].
  2: { destruct (cancelAtCatch (rs_safety st)); [apply Hsame | exact I]. }
  set (batch := match pl_trades payload with Some b => b | None => [] end).
  pose proof (dedupBatch_spec showNumeric batch (rs_seenIds st)) as (Hf & Hnew & Hs1).
  destruct (dedupBatch showNumeric (rs_seenIds st) batch) as [seen1 fresh].
  cbn [fst snd] in *.
  assert (Hnd1 : NoDup (map (getTradeKey showNumeric) (rs_trades st ++ fresh))).
  { rewrite map_app. apply NoDup_app; [exact Hnd | exact Hf |].
    intros k Hk Hk'. apply (Hnew _ Hk'). exact (proj1 (Hseen k Hk)). }
  assert (Hfresh : forall k,
             In k (map (getTradeKey showNumeric) (rs_trades st ++ fresh)) ->
             In k seen1 /\ ~ In k resumeKeys).
  { intros k. rewrite map_app, in_app_iff. intros [Hk|Hk].
    - split; [apply Hs1; left; exact (proj1 (Hseen k Hk)) | exact (proj2 (Hseen k Hk))].
    - split; [apply Hs1; now right|]. intros Hr. apply (Hnew _ Hk). now apply Hres. }
  assert (Hok : forall dups keys ex c stalled stop cur,
             rangeResultOk (finishRange st (rs_trades st ++ fresh) dups keys ex c stalled stop
                              cur)).
  { intros. unfold rangeResultOk. cbn [finishRange re_trades re_pages].
    split; [exact Hnd1|]. split; [intros k Hk; exact (proj2 (Hfresh k Hk)) | lia]. }
  destruct (pl_nextEnd payload) as [nextEnd|]; [|apply Hok].
  destruct (sameCursor (rs_cursorEnd st) (Some nextEnd) && (List.length fresh =? 0)%nat)%bool;
    [apply Hok|].
  destruct (Nat.ltb_spec safetyCap (S (rs_safety st))) as [Hcap|Hcap]; [apply Hok|].
  unfold rangeInvariant. cbn [rs_trades rs_seenIds rs_pages rs_safety].
  split; [|reflexivity].
  split; [exact Hnd1|]. split; [exact Hfresh|]. split; [|lia].
  intros k Hk. apply Hs1. left. now apply Hres.
Qed.

Lemma rangeLoop_ok (fuel : nat) (st : RangeExportState) (r : RangeExportResult) :
  rangeInvariant st -> rangeLoop fuel st = Some (Some r) -> rangeResultOk r.
Proof.
  revert st. induction fuel as [|fuel IH]; intros st Hinv; cbn [rangeLoop].
  - destruct (negb (rs_exhausted st) && _)%bool; [discriminate|].
    intros [= <-]. destruct Hinv as (Hnd & Hseen & _ & Hpg & Hsf).
    unfold rangeResultOk. cbn [finishRange re_trades re_pages].
    split; [exact Hnd|]. split; [intros k Hk; exact (proj2 (Hseen k Hk)) | lia].
  - destruct (negb (rs_exhausted st) && _)%bool.
    + pose proof (rangeStep_ok st Hinv) as Hstep.
      destruct (rangeStep st) as [[r'|st1]|]; [| |discriminate].
      * intros [= <-]. exact Hstep.
      * apply IH. exact (proj1 Hstep).
    + intros [= <-]. destruct Hinv as (Hnd & Hseen & _ & Hpg & Hsf).
      unfold rangeResultOk. cbn [finishRange re_trades re_pages].
      split; [exact Hnd|]. split; [intros k Hk; exact (proj2 (Hseen k Hk)) | lia].
Qed.

Lemma rangeLoop_returns (fuel : nat) (st : RangeExportState) :
  rangeInvariant st ->
  (S safetyCap - rs_safety st <= fuel)%nat ->
  exists out, rangeLoop fuel st = Some out.
Proof.
  revert st. induction fuel as [|fuel IH]; intros st Hinv Hm.
  - destruct Hinv as (_ & _ & _ & _ & Hsf). lia.
  - cbn [rangeLoop]. destruct (negb (rs_exhausted st) && _)%bool; [|eauto].
    pose proof (rangeStep_ok st Hinv) as Hstep.
    destruct (rangeStep st) as [[r'|st1]|]; [eauto| |eauto].
    destruct Hstep as [Hinv1 Hs]. apply IH; [exact Hinv1 | lia].
Qed.

(** X18: whatever the server answers and whenever the user cancels, the
    cursor-mode export loop of the dashboard ends within 2001 requests; when
    it ends without a thrown error, its trades have pairwise distinct keys,
    none of them a key it resumed from, and it has counted at most 2000
    pages. *)
Theorem rangeExport_returns (effectiveEndTs : option Q) :
  exists out,
    rangeExport (S safetyCap) resumeKeys effectiveEndTs = Some out
    /\ match out with
       | None => True
       | Some r =>
           NoDup (map (getTradeKey showNumeric) (re_trades r))
           /\ (forall k, In k (map (getTradeKey showNumeric) (re_trades r)) ->
                 ~ In k resumeKeys)
           /\ (re_pages r <= safetyCap)%nat
       end.
Proof.
  unfold rangeExport.
  set (st0 := {| rs_trades := []; rs_seenIds := resumeKeys; rs_duplicateCount := 0;
                 rs_cursorEnd := effectiveEndTs; rs_exhausted := false; rs_safety := 0;
                 rs_pages := 0; rs_lastBoundaryKeys := resumeKeys |}).
  assert (Hinit : rangeInvariant st0).
  { unfold rangeInvariant, st0. cbn [rs_trades rs_seenIds rs_pages rs_safety map].
    split; [constructor|]. split; [intros k []|]. split; [auto|]. split; lia. }
  destruct (rangeLoop_returns (S safetyCap) st0 Hinit) as [out Hout].
  - unfold st0. cbn [rs_safety]. lia.
  - exists out. split; [exact Hout|]. destruct out as [r|]; [|exact I].
    exact (rangeLoop_ok _ _ _ Hinit Hout).
Qed.

End Resume.
End RangeExportLoop.

(* ------------------------------------------------------------------ *)
(** ** The scan for the earliest trade *)

Record EarliestResult : Type := mkEarliest {
  er_earliest : option Q;
  er_scanned : nat;
  er_exhausted : bool;
  er_truncated : bool
}.

Lemma timestampsOf_app (a b : list RawItem) :
  timestampsOf (a ++ b) = timestampsOf a ++ timestampsOf b.
Proof. unfold timestampsOf. apply flat_map_app. Qed.

Section EarliestScan.

(** The answer of the data API to a request for [limit] trades from
    [offset]; [None] is an answer that is no array.  The offset grows with
    every pass, so no request is made twice. *)
Variable tradeFeed : nat -> nat -> option (list RawItem).

Variable ACTIVITY_RANGE_BATCH_SIZE : nat.
Variable ACTIVITY_EARLIEST_MAX_EVENTS : nat.

Record EarliestState : Type := mkEarliestState {
  es_offset : nat;
  es_scanned : nat;
  es_earliest : option Q
}.

Definition earliestDone (st : EarliestState) (exhausted : bool) : EarliestResult :=
  {| er_earliest := es_earliest st; er_scanned := es_scanned st;
     er_exhausted := exhausted;
     er_truncated :=
       (negb exhausted && (ACTIVITY_EARLIEST_MAX_EVENTS <=? es_scanned st)%nat)%bool |}.

Definition olderOf (earliest oldest : option Q) : option Q :=
  match oldest with
  | Some o =>
      match earliest with
      | None => Some o
      | Some e => if ltb o e then Some o else earliest
      end
  | None => earliest
  end.

(** One pass of the loop, entered with [scanned < ACTIVITY_EARLIEST_MAX_EVENTS]. *)
Definition earliestStep (st : EarliestState) : EarliestResult + EarliestState :=
  let remaining := (ACTIVITY_EARLIEST_MAX_EVENTS - es_scanned st)%nat in
  let limit := Nat.min ACTIVITY_RANGE_BATCH_SIZE remaining in
  match tradeFeed (es_offset st) limit with
  | None => inl (earliestDone st true)
  | Some data =>
      if (List.length data =? 0)%nat then inl (earliestDone st true)
      else
        let st1 := {| es_offset := (es_offset st + List.length data)%nat;
                      es_scanned := (es_scanned st + List.length data)%nat;
                      es_earliest :=
                        olderOf (es_earliest st) (getOldestTimestampSeconds data) |} in
        if (List.length data <? limit)%nat then inl (earliestDone st1 true)
        else inr st1
  end.

Fixpoint earliestLoop (fuel : nat) (st : EarliestState) : option EarliestResult :=
  if (es_scanned st <? ACTIVITY_EARLIEST_MAX_EVENTS)%nat then
    match fuel with
    | O => None
    | S fuel1 =>
        match earliestStep st with
        | inl r => Some r
        | inr st1 => earliestLoop fuel1 st1
        end
    end
  else Some (earliestDone st false).

Definition fetchEarliestTradeTimestamp (fuel : nat) : option EarliestResult :=
  earliestLoop fuel {| es_offset := 0; es_scanned := 0; es_earliest := None |}.

(** The records read by successive requests, each from the offset where the
    one before ended. *)
Inductive readFrom : nat -> list RawItem -> nat -> Prop :=
| read_none (offset : nat) : readFrom offset [] offset
| read_page (offset limit : nat) (data rest : list RawItem) (stop : nat) :
    tradeFeed offset limit = Some data ->
    data <> [] ->
    readFrom (offset + List.length data) rest stop ->
    readFrom offset (data ++ rest) stop.

Lemma readFrom_snoc (offset limit mid : nat) (items data : list RawItem) :
  readFrom offset items mid ->
  tradeFeed mid limit = Some data ->
  data <> [] ->
  readFrom offset (items ++ data) (mid + List.length data).
Proof.
  intros Hr Hf Hne. induction Hr as [o|o l d rest stop Hd Hdne Hr IH].
  - cbn [app]. rewrite <- (app_nil_r data) at 1.
    eapply read_page; [exact Hf | exact Hne | constructor].
  - rewrite <- app_assoc. eapply read_page; [exact Hd | exact Hdne | exact (IH Hf)].
Qed.

Definition isEarliestOf (earliest : option Q) (items : list RawItem) : Prop :=
  match earliest with
  | None => timestampsOf items = []
  | Some o => In o (timestampsOf items) /\ Forall (fun ts => o <= ts) (timestampsOf items)
  end.

Lemma olderOf_earliest (earliest : option Q) (items data : list RawItem) :
  isEarliestOf earliest items ->
  isEarliestOf (olderOf earliest (getOldestTimestampSeconds data)) (items ++ data).
Proof.
  intros He. pose proof (getOldestTimestampSeconds_minimum_aux data) as Hd.
  unfold isEarliestOf in *. rewrite timestampsOf_app.
  destruct (getOldestTimestampSeconds data) as [o|]; cbn [olderOf].
  - destruct Hd as [Hin Hall]. destruct earliest as [e|].
    + destruct He as [Hine Halle]. destruct (ltb o e) eqn:E.
      * apply ltb_true in E. split; [apply in_or_app; now right|].
        apply Forall_app. split; [|exact Hall].
        eapply Forall_impl; [|exact Halle]. intros ts Hts. cbn beta in *. lra.
      * apply ltb_false in E. split; [apply in_or_app; now left|].
        apply Forall_app. split; [exact Halle|].
        eapply Forall_impl; [|exact Hall]. intros ts Hts. cbn beta in *. lra.
    + rewrite He. cbn [app]. split; assumption.
  - rewrite Hd, app_nil_r. exact He.
Qed.

Definition earliestInvariant (st : EarliestState) : Prop :=
  exists items,
    readFrom 0 items (es_offset st)
    /\ es_scanned st = List.length items
    /\ es_offset st = es_scanned st
    /\ isEarliestOf (es_earliest st) items.

Definition earliestOk (r : EarliestResult) : Prop :=
  er_truncated r = negb (er_exhausted r)
  /\ exists items,
       readFrom 0 items (er_scanned r)
       /\ er_scanned r = List.length items
       /\ isEarliestOf (er_earliest r) items.

Lemma earliestDone_exhausted (st : EarliestState) :
  earliestInvariant st -> earliestOk (earliestDone st true).
Proof.
  intros (items & Hr & Hs & Ho & He). split; [reflexivity|].
  exists items. cbn [earliestDone er_scanned er_earliest]. rewrite <- Ho.
  repeat split; [exact Hr | lia | exact He].
Qed.

Lemma earliestStep_ok (st : EarliestState) :
  earliestInvariant st ->
  match earliestStep st with
  | inl r => earliestOk r
  | inr st1 => earliestInvariant st1 /\ (es_scanned st < es_scanned st1)%nat
  end.
Proof.
  intros Hinv. unfold earliestStep.
  destruct (tradeFeed (es_offset st) _) as [data|] eqn:Hf;
    [|now apply earliestDone_exhausted].
  destruct (Nat.eqb_spec (List.length data) 0) as [Hz|Hnz];
    [now apply earliestDone_exhausted|].
  assert (Hinv1 : earliestInvariant
                    {| es_offset := (es_offset st + List.length data)%nat;
                       es_scanned := (es_scanned st + List.length data)%nat;
                       es_earliest :=
                         olderOf (es_earliest st) (getOldestTimestampSeconds data) |}).
  { destruct Hinv as (items & Hr & Hs & Ho & He). exists (items ++ data).
    cbn [es_offset es_scanned es_earliest]. rewrite length_app.
    repeat split; [|lia|lia|now apply olderOf_earliest].
    eapply readFrom_snoc; [exact Hr | exact Hf |].
    intros ->. now apply Hnz. }
  destruct (List.length data <? _)%nat.
  - now apply earliestDone_exhausted.
  - split; [exact Hinv1|]. cbn [es_scanned]. lia.
Qed.

Lemma earliestLoop_ok (fuel : nat) (st : EarliestState) :
  earliestInvariant st ->
  (ACTIVITY_EARLIEST_MAX_EVENTS - es_scanned st <= fuel)%nat ->
  exists r, earliestLoop fuel st = Some r /\ earliestOk r.
Proof.
  revert st. induction fuel as [|fuel IH]; intros st Hinv Hm; cbn [earliestLoop];
    destruct (Nat.ltb_spec (es_scanned st) ACTIVITY_EARLIEST_MAX_EVENTS) as [Hlt|Hge].
  - lia.
  - eexists. split; [reflexivity|]. split.
    + cbn [earliestDone er_truncated er_exhausted negb andb].
      now apply Nat.leb_le.
    + destruct Hinv as (items & Hr & Hs & Ho & He). exists items.
      cbn [earliestDone er_scanned er_earliest]. rewrite <- Ho.
      repeat split; [exact Hr | lia | exact He].
  - pose proof (earliestStep_ok st Hinv) as Hstep.
    destruct (earliestStep st) as [r|st1].
    + exists r. split; [reflexivity | exact Hstep].
    + destruct Hstep as [Hinv1 Hgrow]. apply IH; [exact Hinv1 | lia].
  - eexists. split; [reflexivity|]. split.
    + cbn [earliestDone er_truncated er_exhausted negb andb].
      now apply Nat.leb_le.
    + destruct Hinv as (items & Hr & Hs & Ho & He). exists items.
      cbn [earliestDone er_scanned er_earliest]. rewrite <- Ho.
      repeat split; [exact Hr | lia | exact He].
Qed.

(** X19: the scan for the earliest trade returns within
    ACTIVITY_EARLIEST_MAX_EVENTS requests whatever the data API answers.  Its
    result is truncated exactly when it is not exhausted; [scanned] is the
    number of records of the non-empty pages read one after the other from
    offset 0; and [earliest] is absent when none of them carries a timestamp,
    otherwise the smallest of their timestamps. *)
Theorem fetchEarliestTradeTimestamp_result :
  exists r,
    fetchEarliestTradeTimestamp ACTIVITY_EARLIEST_MAX_EVENTS = Some r
    /\ er_truncated r = negb (er_exhausted r)
    /\ exists items,
         readFrom 0 items (er_scanned r)
         /\ er_scanned r = List.length items
         /\ match er_earliest r with
            | None => timestampsOf items = []
            | Some o =>
                In o (timestampsOf items) /\ Forall (fun ts => o <= ts) (timestampsOf items)
            end.
Proof.
  unfold fetchEarliestTradeTimestamp.
  destruct (earliestLoop_ok ACTIVITY_EARLIEST_MAX_EVENTS
              {| es_offset := 0; es_scanned := 0; es_earliest := None |})
    as (r & Hr & Hok).
  - exists []. cbn [es_offset es_scanned es_earliest isEarliestOf List.length].
    repeat split. constructor.
  - cbn [es_scanned]. lia.
  - exists r. split; [exact Hr|]. exact Hok.
Qed.

End EarliestScan.

(* ------------------------------------------------------------------ *)
(** ** Aligned timestamps of the slug scan *)

Inductive AlignDirection : Type := AlignFloor | AlignCeil.

Definition alignTimestampToInterval (timestamp intervalSeconds : Q)
    (direction : AlignDirection) : Q :=
  if leb intervalSeconds 0 then timestamp
  else
    let ratio := timestamp / intervalSeconds in
    match direction with
    | AlignCeil => inject_Z (Qceiling ratio) * intervalSeconds
    | AlignFloor => inject_Z (Qfloor ratio) * intervalSeconds
    end.

(** The timestamps whose slugs the resolver looks up for a window and an
    interval, in the order of the loop, when the result limit does not end
    the loop before. *)
Definition scanTimestamps (startTs endTs intervalSeconds : Q) : list Q :=
  let alignedStart := alignTimestampToInterval startTs intervalSeconds AlignCeil in
  let alignedEnd := alignTimestampToInterval endTs intervalSeconds AlignFloor in
  if leb alignedStart alignedEnd then
    let totalSteps := (Qfloor ((alignedEnd - alignedStart) / intervalSeconds) + 1)%Z in
    map (fun index => alignedStart + inject_Z (Z.of_nat index) * intervalSeconds)
      (seq 0 (Z.to_nat totalSteps))
  else [].

Lemma align_ceil (t i : Q) :
  0 < i ->
  alignTimestampToInterval t i AlignCeil = inject_Z (Qceiling (t / i)) * i.
Proof.
  intros Hi. unfold alignTimestampToInterval.
  destruct (leb i 0) eqn:E; [apply leb_true in E; lra | reflexivity].
Qed.

Lemma align_floor (t i : Q) :
  0 < i ->
  alignTimestampToInterval t i AlignFloor = inject_Z (Qfloor (t / i)) * i.
Proof.
  intros Hi. unfold alignTimestampToInterval.
  destruct (leb i 0) eqn:E; [apply leb_true in E; lra | reflexivity].
Qed.

Lemma mult_le_cancel (a b : Z) (i : Q) :
  0 < i -> (inject_Z a * i <= inject_Z b * i <-> (a <= b)%Z).
Proof.
  intros Hi. rewrite Zle_Qle. split; intros H.
  - apply Qmult_le_r in H; assumption.
  - apply Qmult_le_r; assumption.
Qed.

Lemma ceiling_least (x : Q) (m : Z) : x <= inject_Z m -> (Qceiling x <= m)%Z.
Proof.
  intros H. rewrite <- (Qceiling_Z m). now apply Qceiling_resp_le.
Qed.

Lemma floor_greatest (x : Q) (m : Z) : inject_Z m <= x -> (m <= Qfloor x)%Z.
Proof.
  intros H. rewrite <- (Qfloor_Z m). now apply Qfloor_resp_le.
Qed.

Lemma totalSteps_count (c f : Z) (i : Q) :
  0 < i ->
  (Qfloor ((inject_Z f * i - inject_Z c * i) / i) + 1)%Z = (f - c + 1)%Z.
Proof.
  intros Hi. f_equal.
  assert (E : (inject_Z f * i - inject_Z c * i) / i == inject_Z (f - c)).
  { unfold Zminus. rewrite inject_Z_plus, inject_Z_opp. field. lra. }
  rewrite (Qfloor_comp _ _ E). apply Qfloor_Z.
Qed.

(** X20: for a positive interval, the timestamps the slug scan looks up are
    exactly the multiples of the interval inside the requested window: each
    of them is a multiple between [startTs] and [endTs], and every multiple
    between the two is among them. *)
Theorem scanTimestamps_window (startTs endTs intervalSeconds : Q) :
  0 < intervalSeconds ->
  (forall ts, In ts (scanTimestamps startTs endTs intervalSeconds) ->
     (exists m : Z, ts == inject_Z m * intervalSeconds) /\ startTs <= ts /\ ts <= endTs)
  /\ (forall m : Z,
        startTs <= inject_Z m * intervalSeconds ->
        inject_Z m * intervalSeconds <= endTs ->
        exists ts, In ts (scanTimestamps startTs endTs intervalSeconds)
                   /\ ts == inject_Z m * intervalSeconds).
Proof.
  intros Hi. unfold scanTimestamps.
  rewrite (align_ceil _ _ Hi), (align_floor _ _ Hi), (totalSteps_count _ _ _ Hi).
  set (c := Qceiling (startTs / intervalSeconds)).
  set (f := Qfloor (endTs / intervalSeconds)).
  assert (Hc : startTs <= inject_Z c * intervalSeconds).
  { pose proof (Qle_ceiling (startTs / intervalSeconds)) as H. fold c in H.
    apply (Qmult_le_r _ _ intervalSeconds Hi) in H.
    assert (E : startTs / intervalSeconds * intervalSeconds == startTs) by (field; lra).
    rewrite E in H. exact H. }
  assert (Hf : inject_Z f * intervalSeconds <= endTs).
  { pose proof (Qfloor_le (endTs / intervalSeconds)) as H. fold f in H.
    apply (Qmult_le_r _ _ intervalSeconds Hi) in H.
    assert (E : endTs / intervalSeconds * intervalSeconds == endTs) by (field; lra).
    rewrite E in H. exact H. }
  split.
  - intros ts. destruct (leb _ _) eqn:E; [|intros []].
    apply leb_true, (mult_le_cancel _ _ _ Hi) in E.
    rewrite in_map_iff. intros (index & <- & Hin). apply in_seq in Hin.
    assert (Hm : inject_Z c * intervalSeconds + inject_Z (Z.of_nat index) * intervalSeconds
                 == inject_Z (c + Z.of_nat index) * intervalSeconds).
    { rewrite inject_Z_plus. ring. }
    split; [exists (c + Z.of_nat index)%Z; exact Hm|].
    rewrite Hm.
    assert (H1 : (c <= c + Z.of_nat index)%Z) by lia.
    assert (H2 : (c + Z.of_nat index <= f)%Z) by lia.
    apply (mult_le_cancel _ _ _ Hi) in H1, H2. split; lra.
  - intros m Hlo Hhi.
    assert (Hcm : (c <= m)%Z).
    { apply ceiling_least. apply Qle_shift_div_r; assumption. }
    assert (Hmf : (m <= f)%Z).
    { apply floor_greatest. apply Qle_shift_div_l; assumption. }
    assert (E : leb (inject_Z c * intervalSeconds) (inject_Z f * intervalSeconds) = true).
    { apply leb_true, (mult_le_cancel _ _ _ Hi). lia. }
    rewrite E.
    exists (inject_Z c * intervalSeconds
            + inject_Z (Z.of_nat (Z.to_nat (m - c))) * intervalSeconds).
    split.
    + apply in_map_iff. exists (Z.to_nat (m - c)). split; [reflexivity|].
      apply in_seq. lia.
    + rewrite Z2Nat.id by lia. unfold Zminus.
      rewrite inject_Z_plus, inject_Z_opp. ring.
Qed.

(** The window 100..400 with interval 60 (a one-minute prefix) holds the
    multiples 120, 180, 240, 300 and 360. *)
Lemma scanTimestamps_window_witness :
  0 < 60
  /\ (forall ts, In ts (scanTimestamps 100 400 60) ->
        (exists m : Z, ts == inject_Z m * 60) /\ 100 <= ts /\ ts <= 400).
Proof.
  assert (H : 0 < 60) by reflexivity.
  split; [exact H|]. exact (proj1 (scanTimestamps_window 100 400 60 H)).
Defined.
